(** * okham-catalog-worker: the read path of [src/index.ts]

    A shallow embedding of the Cloudflare Worker that serves the OKHAM
    catalog out of a key-value namespace (registries and latest pointers)
    and a blob bucket (versioned artifacts).

    JavaScript strings are sequences of UTF-16 code units; they are modelled
    as lists of [N].  The two stores are finite maps.  A handler either
    returns a response or throws; that is the [outcome] type. *)

From Stdlib Require Import List NArith Ascii String Bool Lia.
From stdpp Require Import base numbers option list gmap.

Set Warnings "-register-all".
Local Open Scope N_scope.

(** ** JavaScript strings *)

Module JsString.

(** A string value: its UTF-16 code units, in order. *)
Abbreviation jsstring := (list N) (only parsing).

(** An ASCII literal of the source as a string value. *)
Definition js (s : string) : jsstring :=
  List.map N_of_ascii (list_ascii_of_string s).

(** A literal in which an apostrophe stands for a double quote, for the
    JSON texts of the examples. *)
Definition jsq (s : string) : jsstring :=
  List.map (fun c => if c =? 39 then 34 else c) (js s).

Definition SLASH : N := 47.
Definition BACKSLASH : N := 92.
Definition PERCENT : N := 37.

(** [a === b] on strings. *)
Definition str_eqb (a b : jsstring) : bool := bool_decide (a = b).

(** [Array.prototype.join]. *)
Fixpoint join (sep : jsstring) (parts : list jsstring) : jsstring :=
  match parts with
  | [] => []
  | [p] => p
  | p :: ps => p ++ sep ++ join sep ps
  end.

(** [s.startsWith(p)]. *)
Fixpoint startsWith (s p : jsstring) {struct p} : bool :=
  match p, s with
  | [], _ => true
  | _ :: _, [] => false
  | c :: p', d :: s' => (c =? d) && startsWith s' p'
  end.

(** [s.endsWith(p)]. *)
Definition endsWith (s p : jsstring) : bool :=
  startsWith (rev s) (rev p).

(** [s.slice(n)] for [0 <= n]. *)
Definition slice_from (n : nat) (s : jsstring) : jsstring := drop n s.

(** JavaScript truthiness of a string: the empty string is falsy. *)
Definition truthy_str (s : jsstring) : bool :=
  match s with [] => false | _ :: _ => true end.

(** A string of ASCII characters only, as the path of a parsed URL is:
    the URL serializer percent-encodes everything else. *)
Definition is_ascii (s : jsstring) : bool :=
  forallb (fun c => c <? 128) s.

Definition has_slash (s : jsstring) : bool :=
  existsb (fun c => c =? SLASH) s.

End JsString.
Export JsString.

(** ** Key canonicalisation: [keyJoin] *)

Module Key.

(** [.replace(/\\/g, "/")]: every backslash becomes a slash. *)
Definition backslashes_to_slashes (s : jsstring) : jsstring :=
  List.map (fun c => if c =? BACKSLASH then SLASH else c) s.

(** The longest prefix of slashes is removed. *)
Fixpoint skip_slashes (s : jsstring) : jsstring :=
  match s with
  | c :: r => if c =? SLASH then skip_slashes r else s
  | [] => []
  end.

(** [.replace(/\/+/, "/")]: the pattern has no [g] flag, so only the
    leftmost run of slashes is replaced (by one slash). *)
Fixpoint collapse_first_run (s : jsstring) : jsstring :=
  match s with
  | [] => []
  | c :: r =>
      if c =? SLASH then SLASH :: skip_slashes r
      else c :: collapse_first_run r
  end.

(** [.replace(/\/{2,}/g, "/")]: each maximal run of two or more slashes
    is replaced by one slash.  A slash that is followed by a slash is
    dropped, so of every run exactly its last slash stays. *)
Fixpoint collapse_runs (s : jsstring) : jsstring :=
  match s with
  | [] => []
  | c :: r =>
      if (c =? SLASH) && startsWith r [SLASH] then collapse_runs r
      else c :: collapse_runs r
  end.

(** [.replace(/^\//, empty)]: one leading slash is removed. *)
Definition strip_leading_slash (s : jsstring) : jsstring :=
  match s with
  | c :: r => if c =? SLASH then r else s
  | [] => []
  end.

Definition keyJoin (parts : list jsstring) : jsstring :=
  strip_leading_slash
    (collapse_runs
       (collapse_first_run
          (backslashes_to_slashes (join (js "/") parts)))).

(** What the data model calls a canonical key. *)
Definition no_backslash (s : jsstring) : bool :=
  forallb (fun c => negb (c =? BACKSLASH)) s.

Definition no_leading_slash (s : jsstring) : bool :=
  negb (startsWith s [SLASH]).

Fixpoint no_slash_run (s : jsstring) : bool :=
  match s with
  | c :: r => negb ((c =? SLASH) && startsWith r [SLASH]) && no_slash_run r
  | [] => true
  end.

Definition canonical (s : jsstring) : bool :=
  no_backslash s && no_leading_slash s && no_slash_run s.

(** What the specification says of the key, in its own terms: a separator
    is a slash or a backslash; the parts are cut at their separators, and
    the key is the sequence of the non-empty segments, with one forward
    slash between two of them. *)
Definition separator (c : N) : bool := (c =? SLASH) || (c =? BACKSLASH).

(** The pieces of a string between its separators, from left to right, the
    empty ones included: one more than there are separators. *)
Fixpoint pieces (s : jsstring) : list jsstring :=
  match s with
  | [] => [[]]
  | c :: r =>
      if separator c then [] :: pieces r
      else match pieces r with
           | p :: ps => (c :: p) :: ps
           | [] => [[c]]
           end
  end.

Definition nonempty (p : jsstring) : bool :=
  match p with [] => false | _ :: _ => true end.

(** The segments of a string: its non-empty pieces. *)
Definition key_segments (s : jsstring) : list jsstring :=
  List.filter nonempty (pieces s).

Fixpoint ends_with_separator (s : jsstring) : bool :=
  match s with
  | [] => false
  | [c] => separator c
  | _ :: r => ends_with_separator r
  end.

(** Segments put together again: one forward slash between two of them,
    and one at the end when that is asked for and there is a segment. *)
Definition separated (segs : list jsstring) (trailing : bool) : jsstring :=
  join (js "/") segs
  ++ (if trailing && match segs with [] => false | _ :: _ => true end
      then js "/" else []).

(** The key that a list of parts stands for: the segments of the parts in
    order, separated by single forward slashes; a separator at the very end
    of the joined parts stays, as one forward slash. *)
Definition separated_key (parts : list jsstring) : jsstring :=
  separated (List.concat (List.map key_segments parts))
    (ends_with_separator (join (js "/") parts)).

End Key.
Export Key.

(** ** Outcomes: a call returns a value or throws *)

Inductive js_error : Type := URIError | TypeError | SyntaxError.

Inductive outcome (A : Type) : Type :=
| Returned (a : A)
| Threw (e : js_error).
Arguments Returned {A} a.
Arguments Threw {A} e.

Definition bind {A B : Type} (m : outcome A) (f : A -> outcome B) : outcome B :=
  match m with
  | Returned a => f a
  | Threw e => Threw e
  end.

Notation "'let*' x ':=' m 'in' k" := (bind m (fun x => k))
  (at level 10, x name, m at level 100, k at level 200).

Definition of_option {A : Type} (e : js_error) (o : option A) : outcome A :=
  match o with
  | Some a => Returned a
  | None => Threw e
  end.

(** ** [decodeURIComponent] and [encodeURIComponent] (ECMA-262, 19.2.6) *)

Module Uri.

(** The value of a hexadecimal digit. *)
Definition hex_val (c : N) : option N :=
  if (48 <=? c) && (c <=? 57) then Some (c - 48)
  else if (65 <=? c) && (c <=? 70) then Some (c - 55)
  else if (97 <=? c) && (c <=? 102) then Some (c - 87)
  else None.

Inductive uri_token : Type :=
| Plain (c : N)      (* a code unit other than [%] *)
| Octet (b : N).     (* an escape [%XX] *)

(** First pass of Decode: every [%] must start an escape [%XX]. *)
Fixpoint percent_tokens (s : jsstring) : option (list uri_token) :=
  match s with
  | [] => Some []
  | c :: r =>
      if c =? PERCENT then
        match r with
        | h1 :: h2 :: r' =>
            match hex_val h1, hex_val h2 with
            | Some a, Some b =>
                match percent_tokens r' with
                | Some ts => Some (Octet (16 * a + b) :: ts)
                | None => None
                end
            | _, _ => None
            end
        | _ => None
        end
      else
        match percent_tokens r with
        | Some ts => Some (Plain c :: ts)
        | None => None
        end
  end.

(** A continuation octet [10xxxxxx]. *)
Definition is_cont (b : N) : bool := (128 <=? b) && (b <? 192).

Definition low6 (b : N) : N := N.land b 63.

(** The code units of a code point ([UTF16EncodeCodePoint]). *)
Definition utf16_units (cp : N) : jsstring :=
  if cp <? 65536 then [cp]
  else [55296 + N.shiftr (cp - 65536) 10; 56320 + N.land (cp - 65536) 1023].

Definition is_surrogate (cp : N) : bool := (55296 <=? cp) && (cp <=? 57343).

(** Second pass of Decode: a run of escapes must be a well-formed UTF-8
    encoding of one code point (no stray continuation octet, no overlong
    form, no surrogate, nothing above U+10FFFF). *)
Fixpoint utf8_units (ts : list uri_token) : option jsstring :=
  match ts with
  | [] => Some []
  | Plain c :: r =>
      match utf8_units r with Some u => Some (c :: u) | None => None end
  | Octet b :: r =>
      if b <? 128 then
        match utf8_units r with Some u => Some (b :: u) | None => None end
      else if (192 <=? b) && (b <? 224) then
        match r with
        | Octet b1 :: r1 =>
            let cp := N.lor (N.shiftl (N.land b 31) 6) (low6 b1) in
            if is_cont b1 && (128 <=? cp) then
              match utf8_units r1 with
              | Some u => Some (utf16_units cp ++ u)
              | None => None
              end
            else None
        | _ => None
        end
      else if (224 <=? b) && (b <? 240) then
        match r with
        | Octet b1 :: Octet b2 :: r2 =>
            let cp := N.lor (N.shiftl (N.land b 15) 12)
                        (N.lor (N.shiftl (low6 b1) 6) (low6 b2)) in
            if is_cont b1 && is_cont b2 && (2048 <=? cp)
               && negb (is_surrogate cp) then
              match utf8_units r2 with
              | Some u => Some (utf16_units cp ++ u)
              | None => None
              end
            else None
        | _ => None
        end
      else if (240 <=? b) && (b <? 248) then
        match r with
        | Octet b1 :: Octet b2 :: Octet b3 :: r3 =>
            let cp := N.lor (N.shiftl (N.land b 7) 18)
                        (N.lor (N.shiftl (low6 b1) 12)
                           (N.lor (N.shiftl (low6 b2) 6) (low6 b3))) in
            if is_cont b1 && is_cont b2 && is_cont b3
               && (65536 <=? cp) && (cp <=? 1114111) then
              match utf8_units r3 with
              | Some u => Some (utf16_units cp ++ u)
              | None => None
              end
            else None
        | _ => None
        end
      else None
  end.

(** [decodeURIComponent(s)]: throws [URIError] on a malformed escape. *)
Definition decodeURIComponent (s : jsstring) : outcome jsstring :=
  match percent_tokens s with
  | Some ts => of_option URIError (utf8_units ts)
  | None => Threw URIError
  end.

(** The characters [encodeURIComponent] leaves alone:
    letters, digits and [- _ . ! ~ * ' ( )]. *)
Definition unreserved (c : N) : bool :=
  ((48 <=? c) && (c <=? 57)) || ((65 <=? c) && (c <=? 90))
  || ((97 <=? c) && (c <=? 122))
  || existsb (N.eqb c) [45; 95; 46; 33; 126; 42; 39; 40; 41].

Definition hex_digit (n : N) : N := if n <? 10 then 48 + n else 55 + n.

(** The escape [%XX] of an octet, in upper-case hexadecimal. *)
Definition escape (b : N) : jsstring :=
  [PERCENT; hex_digit (N.shiftr b 4); hex_digit (N.land b 15)].

(** The UTF-8 octets of a code point. *)
Definition utf8_octets (cp : N) : list N :=
  if cp <? 128 then [cp]
  else if cp <? 2048 then
    [192 + N.shiftr cp 6; 128 + low6 cp]
  else if cp <? 65536 then
    [224 + N.shiftr cp 12; 128 + low6 (N.shiftr cp 6); 128 + low6 cp]
  else
    [240 + N.shiftr cp 18; 128 + low6 (N.shiftr cp 12);
     128 + low6 (N.shiftr cp 6); 128 + low6 cp].

Definition escape_code_point (cp : N) : jsstring :=
  concat (List.map escape (utf8_octets cp)).

Definition is_lead (c : N) : bool := (55296 <=? c) && (c <=? 56319).
Definition is_trail (c : N) : bool := (56320 <=? c) && (c <=? 57343).

(** [encodeURIComponent(s)]: throws [URIError] on a lone surrogate. *)
Fixpoint encodeURIComponent (s : jsstring) : outcome jsstring :=
  match s with
  | [] => Returned []
  | c :: r =>
      if unreserved c then
        let* e := encodeURIComponent r in Returned (c :: e)
      else if is_trail c then Threw URIError
      else if is_lead c then
        match r with
        | d :: r' =>
            if is_trail d then
              let cp := 65536 + N.shiftl (c - 55296) 10 + (d - 56320) in
              let* e := encodeURIComponent r' in
              Returned (escape_code_point cp ++ e)
            else Threw URIError
        | [] => Threw URIError
        end
      else
        let* e := encodeURIComponent r in
        Returned (escape_code_point c ++ e)
  end.

(** The characters outside escapes are ASCII. *)
Definition plain_ascii (ts : list uri_token) : bool :=
  forallb (fun t => match t with Plain c => c <? 128 | Octet _ => true end) ts.

(** Well-formed UTF-16: every surrogate is half of a pair. *)
Fixpoint well_formed (s : jsstring) : bool :=
  match s with
  | [] => true
  | c :: r =>
      if is_trail c then false
      else if is_lead c then
        match r with
        | d :: r' => is_trail d && well_formed r'
        | [] => false
        end
      else well_formed r
  end.

End Uri.
Export Uri.

(** ** [JSON.parse] (ECMA-262, 25.5.1; the grammar of ECMA-404) *)

Module Json.

(** A parsed JSON value.  A number keeps its source text: its conversion
    to a double is not needed to parse.  An object keeps its members in
    source order, duplicates included. *)
Inductive jsvalue : Type :=
| JNull
| JBool (b : bool)
| JNum (lexeme : jsstring)
| JStr (s : jsstring)
| JArr (elements : list jsvalue)
| JObj (members : list (jsstring * jsvalue)).

(** The result of a parsing function: a value and the rest of the input,
    a syntax error, or the recursion budget exhausted. *)
Inductive parsed (A : Type) : Type :=
| POk (a : A) (rest : jsstring)
| PSyntax
| PFuel.
Arguments POk {A} a rest.
Arguments PSyntax {A}.
Arguments PFuel {A}.

Definition is_ws (c : N) : bool :=
  (c =? 9) || (c =? 10) || (c =? 13) || (c =? 32).

Fixpoint skip_ws (s : jsstring) : jsstring :=
  match s with
  | c :: r => if is_ws c then skip_ws r else s
  | [] => []
  end.

(** The character of a single-letter escape. *)
Definition simple_escape (e : N) : option N :=
  if e =? 34 then Some 34            (* quote *)
  else if e =? 92 then Some 92       (* backslash *)
  else if e =? 47 then Some 47       (* slash *)
  else if e =? 98 then Some 8        (* b: backspace *)
  else if e =? 102 then Some 12      (* f: form feed *)
  else if e =? 110 then Some 10      (* n: line feed *)
  else if e =? 114 then Some 13      (* r: carriage return *)
  else if e =? 116 then Some 9       (* t: tab *)
  else None.

Definition hex4 (h1 h2 h3 h4 : N) : option N :=
  match hex_val h1, hex_val h2, hex_val h3, hex_val h4 with
  | Some a, Some b, Some c, Some d => Some (((a * 16 + b) * 16 + c) * 16 + d)
  | _, _, _, _ => None
  end.

Definition push (c : N) (o : option (jsstring * jsstring)) :
  option (jsstring * jsstring) :=
  match o with
  | Some (str, rest) => Some (c :: str, rest)
  | None => None
  end.

(** The characters of a string literal, after its opening quote, up to
    and including its closing quote. *)
Fixpoint string_chars (s : jsstring) : option (jsstring * jsstring) :=
  match s with
  | [] => None
  | c :: r =>
      if c =? 34 then Some ([], r)
      else if c =? 92 then
        match r with
        | e :: r' =>
            if e =? 117 then
              match r' with
              | h1 :: h2 :: h3 :: h4 :: r'' =>
                  match hex4 h1 h2 h3 h4 with
                  | Some u => push u (string_chars r'')
                  | None => None
                  end
              | _ => None
              end
            else
              match simple_escape e with
              | Some u => push u (string_chars r')
              | None => None
              end
        | [] => None
        end
      else if c <? 32 then None
      else push c (string_chars r)
  end.

Definition is_digit (c : N) : bool := (48 <=? c) && (c <=? 57).

(** The longest prefix of digits, and what follows it. *)
Fixpoint span_digits (s : jsstring) : jsstring * jsstring :=
  match s with
  | c :: r =>
      if is_digit c then
        let '(ds, rest) := span_digits r in (c :: ds, rest)
      else ([], s)
  | [] => ([], [])
  end.

(** An optional minus sign, then a single zero or a non-zero digit
    followed by digits. *)
Definition number_int (s : jsstring) : option (jsstring * jsstring) :=
  let '(sign, s1) :=
    match s with
    | c :: r => if c =? 45 then ([c], r) else ([], s)
    | [] => ([], s)
    end in
  match s1 with
  | d :: r =>
      if d =? 48 then Some (sign ++ [d], r)
      else if is_digit d then
        let '(ds, rest) := span_digits r in Some (sign ++ d :: ds, rest)
      else None
  | [] => None
  end.

(** An optional fraction: a dot must be followed by a digit. *)
Definition number_frac (s : jsstring) : option (jsstring * jsstring) :=
  match s with
  | c :: r =>
      if c =? 46 then
        match span_digits r with
        | ([], _) => None
        | (ds, rest) => Some (c :: ds, rest)
        end
      else Some ([], s)
  | [] => Some ([], s)
  end.

(** An optional exponent: e or E, an optional sign, one digit or more. *)
Definition number_exp (s : jsstring) : option (jsstring * jsstring) :=
  match s with
  | c :: r =>
      if (c =? 101) || (c =? 69) then
        let '(sign, r1) :=
          match r with
          | g :: r' => if (g =? 43) || (g =? 45) then ([g], r') else ([], r)
          | [] => ([], r)
          end in
        match span_digits r1 with
        | ([], _) => None
        | (ds, rest) => Some (c :: sign ++ ds, rest)
        end
      else Some ([], s)
  | [] => Some ([], s)
  end.

Definition number (s : jsstring) : option (jsstring * jsstring) :=
  match number_int s with
  | Some (i, r1) =>
      match number_frac r1 with
      | Some (f, r2) =>
          match number_exp r2 with
          | Some (e, r3) => Some (i ++ f ++ e, r3)
          | None => None
          end
      | None => None
      end
  | None => None
  end.

(** Recursive descent.  [fuel] bounds the nesting of calls; [JSON_parse]
    gives enough of it ([parse_value_fuel] below). *)
Fixpoint parse_value (fuel : nat) (s : jsstring) : parsed jsvalue :=
  match fuel with
  | O => PFuel
  | S f =>
      match skip_ws s with
      | [] => PSyntax
      | c :: r =>
          if c =? 34 then
            match string_chars r with
            | Some (str, r') => POk (JStr str) r'
            | None => PSyntax
            end
          else if c =? 91 then               (* opening bracket *)
            match skip_ws r with
            | d :: r' =>
                if d =? 93 then POk (JArr []) r'
                else parse_elements f r []
            | [] => PSyntax
            end
          else if c =? 123 then              (* opening brace *)
            match skip_ws r with
            | d :: r' =>
                if d =? 125 then POk (JObj []) r'
                else parse_members f r []
            | [] => PSyntax
            end
          else if startsWith (c :: r) (js "null") then
            POk JNull (drop 4 (c :: r))
          else if startsWith (c :: r) (js "true") then
            POk (JBool true) (drop 4 (c :: r))
          else if startsWith (c :: r) (js "false") then
            POk (JBool false) (drop 5 (c :: r))
          else
            match number (c :: r) with
            | Some (lexeme, r') => POk (JNum lexeme) r'
            | None => PSyntax
            end
      end
  end

(** The elements of an array, up to its closing bracket. *)
with parse_elements (fuel : nat) (s : jsstring) (acc : list jsvalue) :
  parsed jsvalue :=
  match fuel with
  | O => PFuel
  | S f =>
      match parse_value f s with
      | POk v r =>
          match skip_ws r with
          | d :: r' =>
              if d =? 44 then parse_elements f r' (v :: acc)
              else if d =? 93 then POk (JArr (rev (v :: acc))) r'
              else PSyntax
          | [] => PSyntax
          end
      | PSyntax => PSyntax
      | PFuel => PFuel
      end
  end

(** The members of an object, up to its closing brace. *)
with parse_members (fuel : nat) (s : jsstring)
       (acc : list (jsstring * jsvalue)) : parsed jsvalue :=
  match fuel with
  | O => PFuel
  | S f =>
      match skip_ws s with
      | q :: r =>
          if q =? 34 then
            match string_chars r with
            | Some (key, r1) =>
                match skip_ws r1 with
                | colon :: r2 =>
                    if colon =? 58 then
                      match parse_value f r2 with
                      | POk v r3 =>
                          match skip_ws r3 with
                          | d :: r4 =>
                              if d =? 44 then
                                parse_members f r4 ((key, v) :: acc)
                              else if d =? 125 then
                                POk (JObj (rev ((key, v) :: acc))) r4
                              else PSyntax
                          | [] => PSyntax
                          end
                      | PSyntax => PSyntax
                      | PFuel => PFuel
                      end
                    else PSyntax
                | [] => PSyntax
                end
            | None => PSyntax
            end
          else PSyntax
      | [] => PSyntax
      end
  end.

(** [JSON.parse(text)]: one value, then only white space. *)
Definition JSON_parse (text : jsstring) : outcome jsvalue :=
  match parse_value (2 * length text + 1) text with
  | POk v rest =>
      match skip_ws rest with
      | [] => Returned v
      | _ :: _ => Threw SyntaxError
      end
  | PSyntax => Threw SyntaxError
  | PFuel => Threw SyntaxError
  end.

(** [o[key]] for an object built by [JSON.parse]: of duplicate names the
    last one wins; [None] is [undefined]. *)
Fixpoint member (key : jsstring) (ms : list (jsstring * jsvalue)) :
  option jsvalue :=
  match ms with
  | [] => None
  | (k, v) :: r =>
      match member key r with
      | Some v' => Some v'
      | None => if str_eqb k key then Some v else None
      end
  end.

End Json.
Export Json.

(** ** The three route patterns, as regular expressions *)

Module Regex.

(** The patterns of the router are anchored at both ends and are built
    from literal characters and capturing groups [(C+)] over a character
    class [C]. *)
Inductive item : Type :=
| Lit (c : N)
| Group (cls : N -> bool).

(** [C+], greedy with backtracking: the longest run of [C] is tried first
    and then every shorter one, down to one character.  [k] is the rest of
    the pattern, [taken] what the group has consumed so far. *)
Fixpoint greedy_plus {R : Type} (cls : N -> bool)
    (k : jsstring -> jsstring -> option R)
    (taken s : jsstring) : option R :=
  match s with
  | c :: r =>
      if cls c then
        match greedy_plus cls k (taken ++ [c]) r with
        | Some x => Some x
        | None => k (taken ++ [c]) r
        end
      else None
  | [] => None
  end.

(** The groups captured by matching all of [s] against [p]. *)
Fixpoint match_items (p : list item) (s : jsstring)
    (caps : list jsstring) : option (list jsstring) :=
  match p with
  | [] => match s with [] => Some caps | _ :: _ => None end
  | Lit c :: p' =>
      match s with
      | d :: r => if c =? d then match_items p' r caps else None
      | [] => None
      end
  | Group cls :: p' =>
      greedy_plus cls (fun cap r => match_items p' r (caps ++ [cap])) [] s
  end.

(** [s.match(re)] for an anchored pattern without the [g] flag: [null], or
    an array holding the whole match at index 0 and the groups after it. *)
Definition str_match (s : jsstring) (re : list item) : option (list jsstring) :=
  match_items re s [s].

(** [m[i]] on the result of a match the caller has tested. *)
Definition group (m : option (list jsstring)) (i : nat) : jsstring :=
  match m with
  | Some l => nth i l []
  | None => []
  end.

Definition lits (s : jsstring) : list item := List.map Lit s.

(** The class [[^/]]. *)
Definition not_slash (c : N) : bool := negb (c =? SLASH).

(** The class [.]: anything but a line terminator (LF, CR, U+2028,
    U+2029). *)
Definition dot (c : N) : bool :=
  negb ((c =? 10) || (c =? 13) || (c =? 8232) || (c =? 8233)).

(** [/^\/([^/]+)\/registry\.json$/] *)
Definition registry_re : list item :=
  Lit SLASH :: Group not_slash :: lits (js "/registry.json").

(** [/^\/([^/]+)\/([^/]+)\/latest\/(.+)$/] *)
Definition latest_re : list item :=
  Lit SLASH :: Group not_slash :: Lit SLASH :: Group not_slash
    :: lits (js "/latest/") ++ [Group dot].

(** [/^\/([^/]+)\/([^/]+)\/([^/]+)\/(.+)$/] *)
Definition artifact_re : list item :=
  [Lit SLASH; Group not_slash; Lit SLASH; Group not_slash;
   Lit SLASH; Group not_slash; Lit SLASH; Group dot].

(** The longest prefix of [s] in the class, and what follows it. *)
Fixpoint span (cls : N -> bool) (s : jsstring) : jsstring * jsstring :=
  match s with
  | c :: r =>
      if cls c then let '(a, b) := span cls r in (c :: a, b)
      else ([], s)
  | [] => ([], [])
  end.

(** Where a run of the class stops: at the end or before a character
    outside the class. *)
Definition stops (cls : N -> bool) (b : jsstring) : Prop :=
  match b with
  | [] => True
  | c :: _ => cls c = false
  end.

(** Matching without backtracking: a group takes the longest run. *)
Fixpoint match_longest (p : list item) (s : jsstring)
    (caps : list jsstring) : option (list jsstring) :=
  match p with
  | [] => match s with [] => Some caps | _ :: _ => None end
  | Lit c :: p' =>
      match s with
      | d :: r => if c =? d then match_longest p' r caps else None
      | [] => None
      end
  | Group cls :: p' =>
      match span cls s with
      | ([], _) => None
      | (cap, r) => match_longest p' r (caps ++ [cap])
      end
  end.

(** A pattern in which a group is followed by the end of the pattern or by
    a literal outside the class of the group: there a shorter run can
    never succeed where the longest one fails. *)
Fixpoint unambiguous (p : list item) : bool :=
  match p with
  | [] => true
  | Lit _ :: p' => unambiguous p'
  | Group cls :: p' =>
      match p' with
      | [] => true
      | Lit c :: _ => negb (cls c) && unambiguous p'
      | Group _ :: _ => false
      end
  end.

(** What a group [([^/]+)] captures. *)
Definition is_segment (s : jsstring) : bool :=
  truthy_str s && forallb not_slash s.

(** What the group [(.+)] before [$] captures. *)
Definition is_rest (s : jsstring) : bool :=
  truthy_str s && forallb dot s.

End Regex.
Export Regex.

(** ** Headers, responses, stores *)

Module Http.

Abbreviation Headers := (gmap (list N) (list N)) (only parsing).

Definition to_lower (c : N) : N :=
  if (65 <=? c) && (c <=? 90) then c + 32 else c.

(** Header names are case-insensitive; [Headers] keeps them lower-case. *)
Definition header_name (n : jsstring) : jsstring := List.map to_lower n.

Definition headers_get (h : Headers) (n : jsstring) : option jsstring :=
  h !! header_name n.

(** The characters of a header name (a token of HTTP). *)
Definition tchar (c : N) : bool :=
  ((48 <=? c) && (c <=? 57)) || ((65 <=? c) && (c <=? 90))
  || ((97 <=? c) && (c <=? 122))
  || existsb (N.eqb c)
       [33; 35; 36; 37; 38; 39; 42; 43; 45; 46; 94; 95; 96; 124; 126].

Definition header_token (n : jsstring) : bool :=
  nonempty n && forallb tchar n.

(** HTTP whitespace: tab, line feed, carriage return and space. *)
Definition http_whitespace (c : N) : bool :=
  (c =? 9) || (c =? 10) || (c =? 13) || (c =? 32).

Fixpoint strip_leading_whitespace (s : jsstring) : jsstring :=
  match s with
  | c :: r => if http_whitespace c then strip_leading_whitespace r else s
  | [] => []
  end.

(** A header value is normalised when it is written: the whitespace before
    and after it is removed. *)
Definition normalize_value (v : jsstring) : jsstring :=
  rev (strip_leading_whitespace (rev (strip_leading_whitespace v))).

(** The code units that a header value cannot hold: NUL, line feed and
    carriage return. *)
Definition forbidden_unit (c : N) : bool := (c =? 0) || (c =? 10) || (c =? 13).

(** A normalised value is accepted when it is a byte string (every code
    unit is below 256) without NUL, line feed or carriage return. *)
Definition header_value (v : jsstring) : bool :=
  forallb (fun c => (c <=? 255) && negb (forbidden_unit c)) v.

(** [headers.set(n, v)], as the Fetch standard has it: the value is
    normalised, then the name and the value are validated, and a name or
    value that is refused is a [TypeError]; the value replaces what the
    name had. *)
Definition headers_set (h : Headers) (n v : jsstring) : outcome Headers :=
  let value := normalize_value v in
  if header_token n && header_value value
  then Returned (<[header_name n := value]> h)
  else Threw TypeError.

(** [headers.append(n, v)], for a value that is normalised and accepted as
    it stands: the records of this program hold constants and the
    serialisation of a URL. *)
Definition headers_append (h : Headers) (n v : jsstring) : Headers :=
  match h !! header_name n with
  | Some old => <[header_name n := old ++ js ", " ++ v]> h
  | None => <[header_name n := v]> h
  end.

(** An object literal used as a record of strings: its own properties in
    insertion order.  Writing an existing name replaces its value. *)
Fixpoint record_put (n v : jsstring) (r : list (jsstring * jsstring)) :
  list (jsstring * jsstring) :=
  match r with
  | [] => [(n, v)]
  | (n', v') :: r' =>
      if str_eqb n' n then (n, v) :: r' else (n', v') :: record_put n v r'
  end.

(** [{ ...a, ...b }]. *)
Definition spread (a b : list (jsstring * jsstring)) :
  list (jsstring * jsstring) :=
  fold_left (fun r nv => record_put (fst nv) (snd nv) r) b a.

(** [new Headers(record)]: every entry is appended. *)
Definition headers_of_record (r : list (jsstring * jsstring)) : Headers :=
  fold_left (fun h nv => headers_append h (fst nv) (snd nv)) r ∅.

Inductive Body : Type :=
| BodyNull
| BodyText (s : jsstring)
| BodyJson (data : jsvalue)      (* [JSON.stringify(data, null, 2) + "\n"] *)
| BodyStream (bytes : list N).

Record Response : Type := mkResponse {
  status : N;
  headers : gmap (list N) (list N);
  body : Body
}.

(** [new Response(body, { status, headers })]; the status defaults
    to 200. *)
Definition Response_new (b : Body) (st : option N)
    (hs : list (jsstring * jsstring)) : Response :=
  {| status := match st with Some n => n | None => 200 end;
     headers := headers_of_record hs;
     body := b |}.

(** The parsed URL of a request: [new URL(req.url)]. *)
Record URL : Type := mkURL {
  origin : jsstring;
  pathname : jsstring
}.

Record Request : Type := mkRequest {
  method : jsstring;
  url : URL
}.

(** The metadata and the content of an object of the bucket. *)
Record R2HTTPMetadata : Type := mkMeta {
  contentType : option jsstring;
  contentLanguage : option jsstring;
  contentDisposition : option jsstring;
  contentEncoding : option jsstring;
  cacheControl : option jsstring;
  cacheExpiry : option jsstring       (* as an HTTP date *)
}.

Record R2ObjectBody : Type := mkObject {
  r2_body : list N;
  httpEtag : jsstring;
  httpMetadata : R2HTTPMetadata
}.

Definition set_if (n : jsstring) (v : option jsstring) (h : Headers) :
  outcome Headers :=
  match v with
  | Some x => headers_set h n x
  | None => Returned h
  end.

(** [obj.writeHttpMetadata(headers)]: each field that the object has is
    written with [headers.set]. *)
Definition writeHttpMetadata (obj : R2ObjectBody) (h : Headers) :
  outcome Headers :=
  let m := httpMetadata obj in
  let* h := set_if (js "content-type") (contentType m) h in
  let* h := set_if (js "content-language") (contentLanguage m) h in
  let* h := set_if (js "content-disposition") (contentDisposition m) h in
  let* h := set_if (js "content-encoding") (contentEncoding m) h in
  let* h := set_if (js "cache-control") (cacheControl m) h in
  set_if (js "expires") (cacheExpiry m) h.

(** The strings that serving an object writes as header values: the fields
    of its metadata that are there, and its etag. *)
Definition stored_values (obj : R2ObjectBody) : list jsstring :=
  let m := httpMetadata obj in
  List.flat_map (fun o : option jsstring =>
                   match o with Some v => [v] | None => [] end)
    [ contentType m; contentLanguage m; contentDisposition m;
      contentEncoding m; cacheControl m; cacheExpiry m ]
  ++ [httpEtag obj].

(** Every stored string is accepted as a header value. *)
Definition metadata_ready (obj : R2ObjectBody) : bool :=
  forallb (fun v => header_value (normalize_value v)) (stored_values obj).

Record Env : Type := mkEnv {
  CATALOG_BUCKET : gmap (list N) R2ObjectBody;
  CATALOG_INDEX : gmap (list N) (list N);
  OKHAM_CATALOG_WORKER : jsstring;
  INGEST_ENABLED : jsstring
}.

(** JavaScript truthiness of [string | null]. *)
Definition truthy_opt (o : option jsstring) : bool :=
  match o with
  | Some s => truthy_str s
  | None => false
  end.

End Http.
Export Http.

(** ** The router, as a classification

    The handler tests its conditions in sequence.  [classify] is the same
    sequence as a function to a route, which keeps the raw captures of the
    pattern that matched; [dispatch] (below) is what the handler does with
    each route. *)

Module Router.

Inductive Route : Type :=
| ROptions
| RRoot
| RHealth (legacy : bool)
| RIngest
| RRegistry (kind : jsstring)
| RLatest (kind id file : jsstring)
| RArtifact (kind id version file : jsstring)
| RUnmatched.

(** [isLegacyPrefix]. *)
Definition legacy_prefix (path : jsstring) : bool :=
  str_eqb path (js "/catalog") || str_eqb path (js "/catalog/")
  || startsWith path (js "/catalog/").

(** [apiPath]: the path without the legacy prefix. *)
Definition api_path (path : jsstring) : jsstring :=
  if startsWith path (js "/catalog/") then slice_from 8 path else path.

(** The human-facing entry points. *)
Definition root_path (path : jsstring) : bool :=
  str_eqb path (js "/") || str_eqb path [] || str_eqb path (js "/catalog")
  || str_eqb path (js "/catalog/").

(** The three path shapes of the read surface. *)
Definition registry_path (kind : jsstring) : jsstring :=
  js "/" ++ kind ++ js "/registry.json".

Definition latest_path (kind id file : jsstring) : jsstring :=
  js "/" ++ kind ++ js "/" ++ id ++ js "/latest/" ++ file.

Definition artifact_path (kind id version file : jsstring) : jsstring :=
  js "/" ++ kind ++ js "/" ++ id ++ js "/" ++ version ++ js "/" ++ file.

Definition classify (req : Request) : Route :=
  let path := pathname (url req) in
  let apiPath := api_path path in
  if str_eqb (method req) (js "OPTIONS") then ROptions
  else if root_path path then RRoot
  else if str_eqb apiPath (js "/_health") then RHealth (legacy_prefix path)
  else if str_eqb apiPath (js "/_ingest/github")
          && str_eqb (method req) (js "POST") then RIngest
  else
    match str_match apiPath registry_re, str_eqb (method req) (js "GET") with
    | Some m, true => RRegistry (nth 1 m [])
    | _, _ =>
        match str_match apiPath latest_re, str_eqb (method req) (js "GET") with
        | Some m, true => RLatest (nth 1 m []) (nth 2 m []) (nth 3 m [])
        | _, _ =>
            match str_match apiPath artifact_re,
                  str_eqb (method req) (js "GET") with
            | Some m, true =>
                RArtifact (nth 1 m []) (nth 2 m []) (nth 3 m []) (nth 4 m [])
            | _, _ => RUnmatched
            end
        end
    end.

End Router.
Export Router.

(** ** The worker *)

(** What the platform provides and the source only calls:
    - [URL_href p o] is [new URL(p, o).toString()], the WHATWG resolution
      of the reference [p] against the origin [o];
    - [NumberToBoolean l] and [NumberToString l] are the truthiness and the
      string of the double that the JSON number [l] denotes;
    - [now] is [new Date().toISOString()]. *)
Record Platform : Type := mkPlatform {
  URL_href : list N -> list N -> list N;
  NumberToBoolean : list N -> bool;
  NumberToString : list N -> list N;
  now : list N
}.

Section Worker.

Variable pf : Platform.

Definition CORS_HEADERS : list (jsstring * jsstring) :=
  [ (js "Access-Control-Allow-Origin", js "*");
    (js "Access-Control-Allow-Methods", js "GET,POST,OPTIONS");
    (js "Access-Control-Allow-Headers",
     js "Content-Type, Authorization, X-Hub-Signature-256") ].

(** [json(data, init)]. *)
Definition json (data : jsvalue) (init_status : option N)
    (init_headers : list (jsstring * jsstring)) : Response :=
  Response_new (BodyJson data) init_status
    (spread
       (spread [(js "content-type", js "application/json; charset=utf-8")]
          CORS_HEADERS)
       init_headers).

(** [text(data, init)]. *)
Definition text (data : jsstring) (init_status : option N)
    (init_headers : list (jsstring * jsstring)) : Response :=
  Response_new (BodyText data) init_status
    (spread
       (spread [(js "content-type", js "text/plain; charset=utf-8")]
          CORS_HEADERS)
       init_headers).

Definition notFound : Response :=
  json (JObj [(js "error", JStr (js "not_found"))]) (Some 404) [].

Definition badRequest (message : jsstring) : Response :=
  json (JObj [(js "error", JStr (js "bad_request")); (js "message", JStr message)])
    (Some 400) [].

Definition serveRegistry (env : Env) (kind : jsstring) : outcome Response :=
  let key := keyJoin [js "catalog"; kind; js "registry.json"] in
  match CATALOG_INDEX env !! key with
  | None => Returned notFound
  | Some v =>
      if negb (truthy_str v) then Returned notFound
      else
        Returned
          (Response_new (BodyText v) (Some 200)
             (spread
                [ (js "content-type", js "application/json; charset=utf-8");
                  (js "cache-control", js "public, max-age=60") ]
                CORS_HEADERS))
  end.

(** [latest.version]: reading a property of [null] throws; a value other
    than an object has no such property ([None] is [undefined]). *)
Definition get_version (latest : jsvalue) : outcome (option jsvalue) :=
  match latest with
  | JNull => Threw TypeError
  | JObj ms => Returned (member (js "version") ms)
  | _ => Returned None
  end.

(** JavaScript truthiness of a value or [undefined]. *)
Definition truthy (v : option jsvalue) : bool :=
  match v with
  | None => false
  | Some JNull => false
  | Some (JBool b) => b
  | Some (JNum l) => NumberToBoolean pf l
  | Some (JStr s) => truthy_str s
  | Some (JArr _) => true
  | Some (JObj _) => true
  end.

Definition has_member (k : jsstring) (ms : list (jsstring * jsvalue)) : bool :=
  match member k ms with Some _ => true | None => false end.

(** [ToString(v)] on a value built by [JSON.parse].  An array joins its
    elements with commas, [null] elements counting as empty; an object is
    [[object Object]] unless a member shadows [toString], which is then not
    callable, so that the conversion throws. *)
Fixpoint value_to_string (v : jsvalue) : outcome jsstring :=
  match v with
  | JNull => Returned (js "null")
  | JBool true => Returned (js "true")
  | JBool false => Returned (js "false")
  | JNum l => Returned (NumberToString pf l)
  | JStr s => Returned s
  | JArr vs =>
      (fix elements (l : list jsvalue) : outcome jsstring :=
         match l with
         | [] => Returned []
         | x :: r =>
             let* a :=
               match x with JNull => Returned [] | _ => value_to_string x end in
             match r with
             | [] => Returned a
             | _ :: _ => let* b := elements r in Returned (a ++ js "," ++ b)
             end
         end) vs
  | JObj ms =>
      if has_member (js "toString") ms then Threw TypeError
      else Returned (js "[object Object]")
  end.

(** [ToString] of a value or [undefined]. *)
Definition to_string (v : option jsvalue) : outcome jsstring :=
  match v with
  | Some x => value_to_string x
  | None => Returned (js "undefined")
  end.

Definition invalid_latest (latestKey : jsstring) : Response :=
  json (JObj [(js "error", JStr (js "invalid_latest")); (js "key", JStr latestKey)])
    (Some 500) [].

Definition serveLatestAlias (baseUrl : URL) (env : Env)
    (kind id file : jsstring) : outcome Response :=
  let latestKey := keyJoin [js "catalog"; kind; id; js "latest.json"] in
  match CATALOG_INDEX env !! latestKey with
  | None => Returned notFound
  | Some latestJson =>
      if negb (truthy_str latestJson) then Returned notFound
      else
        match JSON_parse latestJson with
        | Threw _ => Returned (invalid_latest latestKey)
        | Returned latest =>
            let* version := get_version latest in
            if negb (truthy version) then Returned (invalid_latest latestKey)
            else
              let* ekind := encodeURIComponent kind in
              let* eid := encodeURIComponent id in
              let* sversion := to_string version in
              let* eversion := encodeURIComponent sversion in
              let url :=
                URL_href pf
                  (js "/" ++ ekind ++ js "/" ++ eid ++ js "/" ++ eversion
                     ++ js "/" ++ file)
                  (origin baseUrl) in
              Returned
                (Response_new BodyNull (Some 302)
                   (spread
                      [ (js "location", url);
                        (js "cache-control", js "public, max-age=30") ]
                      CORS_HEADERS))
        end
  end.

(** The redirect that [serveLatestAlias] answers with. *)
Definition redirect_to (location : jsstring) : Response :=
  Response_new BodyNull (Some 302)
    (spread
       [ (js "location", location);
         (js "cache-control", js "public, max-age=30") ]
       CORS_HEADERS).

(** The content type given to an object that is stored without one. *)
Definition fallback_content_type (file : jsstring) : jsstring :=
  if endsWith file (js ".json") then js "application/json; charset=utf-8"
  else if endsWith file (js ".yaml") || endsWith file (js ".yml")
  then js "text/yaml; charset=utf-8"
  else js "application/octet-stream".

Definition artifact_key (kind id version file : jsstring) : jsstring :=
  keyJoin [js "catalog"; kind; id; version; file].

Definition serveArtifact (env : Env) (kind id version file : jsstring) :
  outcome Response :=
  let key := artifact_key kind id version file in
  match CATALOG_BUCKET env !! key with
  | None => Returned notFound
  | Some obj =>
      let* h0 := writeHttpMetadata obj ∅ in
      let* h1 := headers_set h0 (js "etag") (httpEtag obj) in
      let* h2 :=
        headers_set h1 (js "cache-control")
          (js "public, max-age=31536000, immutable") in
      let* h3 :=
        fold_left
          (fun acc kv => let* h := acc in headers_set h (fst kv) (snd kv))
          CORS_HEADERS (Returned h2) in
      let* h4 :=
        if negb (truthy_opt (headers_get h3 (js "content-type"))) then
          headers_set h3 (js "content-type") (fallback_content_type file)
        else Returned h3 in
      Returned {| status := 200; headers := h4; body := BodyStream (r2_body obj) |}
  end.

(** The headers that [serveArtifact] ends with when no value is refused,
    written with the map operations alone. *)
Definition put_if (n : jsstring) (v : option jsstring) (h : Headers) :
  Headers :=
  match v with
  | Some x => <[header_name n := normalize_value x]> h
  | None => h
  end.

Definition artifact_headers (obj : R2ObjectBody) (file : jsstring) : Headers :=
  let m := httpMetadata obj in
  let h0 :=
    put_if (js "expires") (cacheExpiry m)
      (put_if (js "cache-control") (cacheControl m)
         (put_if (js "content-encoding") (contentEncoding m)
            (put_if (js "content-disposition") (contentDisposition m)
               (put_if (js "content-language") (contentLanguage m)
                  (put_if (js "content-type") (contentType m) ∅))))) in
  let h1 := <[header_name (js "etag") := normalize_value (httpEtag obj)]> h0 in
  let h2 :=
    <[header_name (js "cache-control")
      := js "public, max-age=31536000, immutable"]> h1 in
  let h3 :=
    fold_left (fun h kv => <[header_name (fst kv) := snd kv]> h)
      CORS_HEADERS h2 in
  if negb (truthy_opt (headers_get h3 (js "content-type"))) then
    <[header_name (js "content-type") := fallback_content_type file]> h3
  else h3.

Definition handleIngest (_req : Request) (env : Env) : outcome Response :=
  if negb (str_eqb (INGEST_ENABLED env) (js "1")) then
    Returned
      (json
         (JObj
            [ (js "error", JStr (js "disabled"));
              (js "message",
               JStr (js "Ingest is not enabled yet. Enable by setting INGEST_ENABLED=1 and implementing webhook verification + publish pipeline.")) ])
         (Some 501) [])
  else
    Returned (json (JObj [(js "error", JStr (js "not_implemented"))]) (Some 501) []).

Definition is_some {A : Type} (o : option A) : bool :=
  match o with Some _ => true | None => false end.

(** The handler of the worker. *)
Definition fetch (req : Request) (env : Env) : outcome Response :=
  if str_eqb (method req) (js "OPTIONS") then
    Returned (Response_new BodyNull (Some 204) CORS_HEADERS)
  else
    let url := url req in
    let path := pathname url in
    let isLegacyPrefix :=
      str_eqb path (js "/catalog") || str_eqb path (js "/catalog/")
      || startsWith path (js "/catalog/") in
    let apiPath :=
      if startsWith path (js "/catalog/") then slice_from 8 path else path in
    if str_eqb path (js "/") || str_eqb path [] || str_eqb path (js "/catalog")
       || str_eqb path (js "/catalog/") then
      Returned
        (Response_new BodyNull (Some 302)
           (spread
              [ (js "location", js "https://okham.io/catalogs/");
                (js "cache-control", js "public, max-age=300") ]
              CORS_HEADERS))
    else if str_eqb apiPath (js "/_health") then
      Returned
        (json
           (JObj
              [ (js "ok", JBool true);
                (js "worker", JStr (OKHAM_CATALOG_WORKER env));
                (js "now", JStr (now pf));
                (js "legacy", JBool isLegacyPrefix) ])
           None [])
    else if str_eqb apiPath (js "/_ingest/github")
            && str_eqb (method req) (js "POST") then
      handleIngest req env
    else
      let registryMatch := str_match apiPath registry_re in
      if is_some registryMatch && str_eqb (method req) (js "GET") then
        let* kind := decodeURIComponent (group registryMatch 1) in
        serveRegistry env kind
      else
        let latestMatch := str_match apiPath latest_re in
        if is_some latestMatch && str_eqb (method req) (js "GET") then
          let* kind := decodeURIComponent (group latestMatch 1) in
          let* id := decodeURIComponent (group latestMatch 2) in
          let file := group latestMatch 3 in
          serveLatestAlias url env kind id file
        else
          let artifactMatch := str_match apiPath artifact_re in
          if is_some artifactMatch && str_eqb (method req) (js "GET") then
            let* kind := decodeURIComponent (group artifactMatch 1) in
            let* id := decodeURIComponent (group artifactMatch 2) in
            let* version := decodeURIComponent (group artifactMatch 3) in
            let file := group artifactMatch 4 in
            serveArtifact env kind id version file
          else Returned notFound.

(** What the handler does once the route is known. *)
Definition dispatch (req : Request) (env : Env) (r : Route) :
  outcome Response :=
  match r with
  | ROptions => Returned (Response_new BodyNull (Some 204) CORS_HEADERS)
  | RRoot =>
      Returned
        (Response_new BodyNull (Some 302)
           (spread
              [ (js "location", js "https://okham.io/catalogs/");
                (js "cache-control", js "public, max-age=300") ]
              CORS_HEADERS))
  | RHealth legacy =>
      Returned
        (json
           (JObj
              [ (js "ok", JBool true);
                (js "worker", JStr (OKHAM_CATALOG_WORKER env));
                (js "now", JStr (now pf));
                (js "legacy", JBool legacy) ])
           None [])
  | RIngest => handleIngest req env
  | RRegistry rk =>
      let* kind := decodeURIComponent rk in
      serveRegistry env kind
  | RLatest rk ri file =>
      let* kind := decodeURIComponent rk in
      let* id := decodeURIComponent ri in
      serveLatestAlias (url req) env kind id file
  | RArtifact rk ri rv file =>
      let* kind := decodeURIComponent rk in
      let* id := decodeURIComponent ri in
      let* version := decodeURIComponent rv in
      serveArtifact env kind id version file
  | RUnmatched => Returned notFound
  end.

(** A parsed latest pointer that has no [version] to read: an object
    without that member, or a value that is neither an object nor
    [null]. *)
Definition lacks_version (latest : jsvalue) : bool :=
  match latest with
  | JNull => false
  | JObj ms => negb (has_member (js "version") ms)
  | _ => true
  end.

(** The three headers of [CORS_HEADERS] are on a response. *)
Definition has_cors (r : Response) : Prop :=
  headers_get (headers r) (js "Access-Control-Allow-Origin") = Some (js "*")
  /\ headers_get (headers r) (js "Access-Control-Allow-Methods")
     = Some (js "GET,POST,OPTIONS")
  /\ headers_get (headers r) (js "Access-Control-Allow-Headers")
     = Some (js "Content-Type, Authorization, X-Hub-Signature-256").

End Worker.


(** ** Concrete requests and stores for the examples *)

Module Demo.

(** A platform for the examples.  A path without dot segments, query or
    fragment resolves against an origin by concatenation; an integer
    literal is its own string and is falsy when all its digits are
    zero. *)
Definition platform : Platform :=
  {| URL_href := fun p o => o ++ p;
     NumberToBoolean := fun l => existsb (fun c => (49 <=? c) && (c <=? 57)) l;
     NumberToString := fun l => l;
     now := js "2026-01-01T00:00:00.000Z" |}.

Definition site : list N := js "https://catalog.okham.io".

Definition request (m p : string) : Request :=
  {| method := js m; url := {| origin := site; pathname := js p |} |}.

Definition no_metadata : R2HTTPMetadata :=
  {| contentType := None; contentLanguage := None;
     contentDisposition := None; contentEncoding := None;
     cacheControl := None; cacheExpiry := None |}.

(** An object stored without a content type. *)
Definition bare_object : R2ObjectBody :=
  {| r2_body := js "a: 1"; httpEtag := jsq "'5d41402a'";
     httpMetadata := no_metadata |}.

(** An object stored with a content type. *)
Definition typed_object : R2ObjectBody :=
  {| r2_body := js "a: 1"; httpEtag := jsq "'5d41402a'";
     httpMetadata :=
       {| contentType := Some (js "text/plain"); contentLanguage := None;
          contentDisposition := None; contentEncoding := None;
          cacheControl := Some (js "no-store"); cacheExpiry := None |} |}.

(** An object whose stored content type is two spaces. *)
Definition blank_type_object : R2ObjectBody :=
  {| r2_body := js "a: 1"; httpEtag := jsq "'5d41402a'";
     httpMetadata :=
       {| contentType := Some (js "  "); contentLanguage := None;
          contentDisposition := None; contentEncoding := None;
          cacheControl := None; cacheExpiry := None |} |}.

(** An object whose stored content type has a line feed inside. *)
Definition line_feed_object : R2ObjectBody :=
  {| r2_body := js "a: 1"; httpEtag := jsq "'5d41402a'";
     httpMetadata :=
       {| contentType := Some (js "text/plain;" ++ [10] ++ js "charset=utf-8");
          contentLanguage := None;
          contentDisposition := None; contentEncoding := None;
          cacheControl := None; cacheExpiry := None |} |}.

Definition empty_env : Env :=
  {| CATALOG_BUCKET := ∅; CATALOG_INDEX := ∅;
     OKHAM_CATALOG_WORKER := js "okham-catalog-worker";
     INGEST_ENABLED := js "0" |}.

(** A key-value namespace with one entry. *)
Definition index_env (key text : list N) : Env :=
  {| CATALOG_BUCKET := ∅; CATALOG_INDEX := {[ key := text ]};
     OKHAM_CATALOG_WORKER := js "okham-catalog-worker";
     INGEST_ENABLED := js "0" |}.

(** A bucket with one object. *)
Definition bucket_env (key : list N) (obj : R2ObjectBody) : Env :=
  {| CATALOG_BUCKET := {[ key := obj ]}; CATALOG_INDEX := ∅;
     OKHAM_CATALOG_WORKER := js "okham-catalog-worker";
     INGEST_ENABLED := js "0" |}.

End Demo.


(** ** Code units

    A string value holds 16-bit code units; the functions above take any
    list of numbers.  Where a property needs the bound it asks for it. *)
Definition code_units (s : list N) : bool :=
  forallb (fun c => c <? 65536) s.

#[local] Arguments N.eqb : simpl never.
#[local] Arguments N.leb : simpl never.
#[local] Arguments N.ltb : simpl never.
#[local] Arguments startsWith : simpl never.

(** ** The definitions on concrete inputs *)

Example keyJoin_ex1 :
  keyJoin [js "catalog"; js "tools"; js "registry.json"]
  = js "catalog/tools/registry.json".
Proof. reflexivity. Qed.

Example keyJoin_ex2 :
  keyJoin [js "/a\\b"; js "//c///d/"; []; js "e"] = js "a/b/c/d/e".
Proof. vm_compute. reflexivity. Qed.

Example decode_ex1 : decodeURIComponent (js "a%20b%2Fc") = Returned (js "a b/c").
Proof. reflexivity. Qed.

Example decode_ex3 : decodeURIComponent (js "%E2%82%AC") = Returned [8364].
Proof. reflexivity. Qed.

Example decode_ex5 : decodeURIComponent (js "%C0%80") = Threw URIError.
Proof. reflexivity. Qed.

Example decode_ex7 : decodeURIComponent (js "100%") = Threw URIError.
Proof. reflexivity. Qed.

Example encode_ex2 : encodeURIComponent [8364] = Returned (js "%E2%82%AC").
Proof. reflexivity. Qed.

Example encode_ex4 : encodeURIComponent [55296] = Threw URIError.
Proof. reflexivity. Qed.

Example json_ex1 :
  JSON_parse (jsq "{'version':'2.1.0'}")
  = Returned (JObj [(js "version", JStr (js "2.1.0"))]).
Proof. vm_compute. reflexivity. Qed.

Example registry_re_ex :
  str_match (js "/tools/registry.json") registry_re
  = Some [js "/tools/registry.json"; js "tools"].
Proof. reflexivity. Qed.

Example artifact_re_ex :
  str_match (js "/tools/x/1.0/a/b.json") artifact_re
  = Some [js "/tools/x/1.0/a/b.json"; js "tools"; js "x"; js "1.0"; js "a/b.json"].
Proof. vm_compute. reflexivity. Qed.
Example decode_ex2 : decodeURIComponent (js "%E0") = Threw URIError.
Proof. reflexivity. Qed.
Example decode_ex4 : decodeURIComponent (js "%F0%9F%98%80") = Returned [55357; 56832].
Proof. reflexivity. Qed.
Example decode_ex6 : decodeURIComponent (js "%ED%A0%80") = Threw URIError.
Proof. reflexivity. Qed.
Example encode_ex1 : encodeURIComponent (js "a b/c") = Returned (js "a%20b%2Fc").
Proof. reflexivity. Qed.
Example encode_ex3 : encodeURIComponent [55357; 56832] = Returned (js "%F0%9F%98%80").
Proof. reflexivity. Qed.
Example encode_ex5 : encodeURIComponent (js "2.1.0") = Returned (js "2.1.0").
Proof. reflexivity. Qed.
Example latest_re_ex :
  str_match (js "/tools/x/latest/a/b.json") latest_re
  = Some [js "/tools/x/latest/a/b.json"; js "tools"; js "x"; js "a/b.json"].
Proof. vm_compute. reflexivity. Qed.
Example artifact_re_three_segments :
  str_match (js "/tools/x/1.0") artifact_re = None.
Proof. vm_compute. reflexivity. Qed.

(** ** Facts about [keyJoin] *)

Section KeyFacts.

Lemma startsWith_slash_cons (c : N) (r : list N) :
  startsWith (c :: r) [SLASH] = (c =? SLASH).
Proof. unfold startsWith. rewrite andb_true_r. apply N.eqb_sym. Qed.

Lemma backslashes_id (s : list N) :
  no_backslash s = true -> backslashes_to_slashes s = s.
Proof.
  induction s as [|c r IH]; simpl; [reflexivity|].
  intros H. apply andb_true_iff in H as [Hc Hr].
  destruct (c =? BACKSLASH); [discriminate|]. now rewrite IH.
Qed.

Lemma skip_slashes_id (s : list N) :
  startsWith s [SLASH] = false -> skip_slashes s = s.
Proof.
  destruct s as [|c r]; [reflexivity|].
  rewrite startsWith_slash_cons. simpl. now intros ->.
Qed.

Lemma collapse_first_id (s : list N) :
  no_slash_run s = true -> collapse_first_run s = s.
Proof.
  induction s as [|c r IH]; simpl; [reflexivity|].
  intros H. apply andb_true_iff in H as [Hc Hr].
  destruct (c =? SLASH) eqn:E.
  - apply N.eqb_eq in E. subst c. f_equal.
    apply skip_slashes_id. simpl in Hc. now destruct (startsWith r [SLASH]).
  - now rewrite IH.
Qed.

Lemma collapse_runs_id (s : list N) :
  no_slash_run s = true -> collapse_runs s = s.
Proof.
  induction s as [|c r IH]; simpl; [reflexivity|].
  intros H. apply andb_true_iff in H as [Hc Hr].
  apply negb_true_iff in Hc. rewrite Hc. now rewrite IH.
Qed.

Lemma strip_id (s : list N) :
  no_leading_slash s = true -> strip_leading_slash s = s.
Proof.
  destruct s as [|c r]; [reflexivity|]. unfold no_leading_slash.
  rewrite startsWith_slash_cons. simpl. now destruct (c =? SLASH).
Qed.

Lemma keyJoin_canonical_id (k : list N) :
  canonical k = true -> keyJoin [k] = k.
Proof.
  unfold canonical, keyJoin. intros H.
  apply andb_true_iff in H as [H Hrun]. apply andb_true_iff in H as [Hb Hl].
  simpl join. rewrite (backslashes_id _ Hb), (collapse_first_id _ Hrun),
    (collapse_runs_id _ Hrun). now apply strip_id.
Qed.

(** On segments whose plain join is canonical, [keyJoin] is that join. *)
Lemma keyJoin_join (parts : list (list N)) :
  canonical (join (js "/") parts) = true ->
  keyJoin parts = join (js "/") parts.
Proof.
  unfold canonical, keyJoin. intros H.
  apply andb_true_iff in H as [H Hrun]. apply andb_true_iff in H as [Hb Hl].
  rewrite (backslashes_id _ Hb), (collapse_first_id _ Hrun),
    (collapse_runs_id _ Hrun). now apply strip_id.
Qed.

Lemma no_backslash_map (s : list N) :
  no_backslash (backslashes_to_slashes s) = true.
Proof.
  induction s as [|c r IH]; simpl; [reflexivity|].
  rewrite IH, andb_true_r. now destruct (c =? BACKSLASH) eqn:E; [|rewrite E].
Qed.

Lemma no_backslash_skip (s : list N) :
  no_backslash s = true -> no_backslash (skip_slashes s) = true.
Proof.
  induction s as [|c r IH]; simpl; [reflexivity|].
  intros H. destruct (c =? SLASH); [|exact H].
  apply andb_true_iff in H as [_ Hr]. now apply IH.
Qed.

Lemma no_backslash_first (s : list N) :
  no_backslash s = true -> no_backslash (collapse_first_run s) = true.
Proof.
  induction s as [|c r IH]; simpl; [reflexivity|].
  intros H. apply andb_true_iff in H as [Hc Hr].
  destruct (c =? SLASH); simpl.
  - now apply no_backslash_skip.
  - now rewrite Hc, IH.
Qed.

Lemma no_backslash_runs (s : list N) :
  no_backslash s = true -> no_backslash (collapse_runs s) = true.
Proof.
  induction s as [|c r IH]; simpl; [reflexivity|].
  intros H. apply andb_true_iff in H as [Hc Hr].
  destruct ((c =? SLASH) && startsWith r [SLASH]); simpl.
  - now apply IH.
  - now rewrite Hc, IH.
Qed.

Lemma no_backslash_strip (s : list N) :
  no_backslash s = true -> no_backslash (strip_leading_slash s) = true.
Proof.
  destruct s as [|c r]; simpl; [reflexivity|].
  intros H. destruct (c =? SLASH); [|exact H].
  now apply andb_true_iff in H as [_ Hr].
Qed.

Lemma collapse_runs_head (s : list N) :
  startsWith (collapse_runs s) [SLASH] = startsWith s [SLASH].
Proof.
  induction s as [|c r IH]; [reflexivity|].
  rewrite startsWith_slash_cons. cbn [collapse_runs].
  destruct (c =? SLASH) eqn:E; destruct (startsWith r [SLASH]) eqn:Hr;
    cbn [andb]; rewrite ?startsWith_slash_cons, ?IH; congruence.
Qed.

Lemma no_slash_run_collapse (s : list N) :
  no_slash_run (collapse_runs s) = true.
Proof.
  induction s as [|c r IH]; [reflexivity|]. simpl collapse_runs.
  destruct ((c =? SLASH) && startsWith r [SLASH]) eqn:E; [exact IH|].
  simpl. now rewrite collapse_runs_head, E, IH.
Qed.

Lemma no_slash_run_strip (s : list N) :
  no_slash_run s = true -> no_slash_run (strip_leading_slash s) = true.
Proof.
  destruct s as [|c r]; [reflexivity|].
  intros H. cbn [strip_leading_slash]. destruct (c =? SLASH); [|exact H].
  cbn [no_slash_run] in H. now apply andb_true_iff in H as [_ Hr].
Qed.

Lemma no_leading_strip (s : list N) :
  no_slash_run s = true -> no_leading_slash (strip_leading_slash s) = true.
Proof.
  destruct s as [|c r]; simpl; [reflexivity|].
  intros H. apply andb_true_iff in H as [Hc _]. unfold no_leading_slash.
  destruct (c =? SLASH) eqn:E.
  - simpl in Hc. exact Hc.
  - now rewrite startsWith_slash_cons, E.
Qed.

Lemma keyJoin_canonical (parts : list (list N)) :
  canonical (keyJoin parts) = true.
Proof.
  unfold canonical, keyJoin.
  set (s := collapse_runs _).
  assert (Hrun : no_slash_run s = true) by apply no_slash_run_collapse.
  assert (Hb : no_backslash s = true).
  { apply no_backslash_runs, no_backslash_first, no_backslash_map. }
  rewrite (no_backslash_strip _ Hb), (no_leading_strip _ Hrun),
    (no_slash_run_strip _ Hrun). reflexivity.
Qed.

End KeyFacts.

(** The replacement that collapses the first run of slashes only is
    subsumed by the one that collapses every run. *)
Lemma skip_slashes_head (s : list N) :
  startsWith (skip_slashes s) [SLASH] = false.
Proof.
  induction s as [|c r IH]; [reflexivity|]. cbn [skip_slashes].
  destruct (c =? SLASH) eqn:E; [exact IH|].
  now rewrite startsWith_slash_cons.
Qed.

Lemma collapse_runs_slash (r : list N) :
  collapse_runs (SLASH :: r) = SLASH :: collapse_runs (skip_slashes r).
Proof.
  induction r as [|d r IH]; [reflexivity|].
  change (collapse_runs (SLASH :: d :: r))
    with (if (SLASH =? SLASH) && startsWith (d :: r) [SLASH]
          then collapse_runs (d :: r) else SLASH :: collapse_runs (d :: r)).
  rewrite N.eqb_refl, startsWith_slash_cons. cbn [andb].
  change (skip_slashes (d :: r))
    with (if d =? SLASH then skip_slashes r else d :: r).
  destruct (d =? SLASH) eqn:E; [|reflexivity].
  apply N.eqb_eq in E. subst d. exact IH.
Qed.

Lemma collapse_first_redundant (s : list N) :
  collapse_runs (collapse_first_run s) = collapse_runs s.
Proof.
  induction s as [|c r IH]; [reflexivity|]. cbn [collapse_first_run].
  destruct (c =? SLASH) eqn:E.
  - apply N.eqb_eq in E. subst c. rewrite !collapse_runs_slash.
    f_equal. f_equal. apply skip_slashes_id, skip_slashes_head.
  - cbn [collapse_runs]. rewrite E. cbn [andb]. now rewrite IH.
Qed.

(** ** Facts about matching *)

Section RegexFacts.

Variable cls : N -> bool.

Lemma span_app (s a b : list N) : span cls s = (a, b) -> s = a ++ b.
Proof.
  revert a b. induction s as [|c r IH]; intros a b; simpl.
  - now intros [= <- <-].
  - destruct (cls c).
    + destruct (span cls r) as [a' b'] eqn:E. intros [= <- <-].
      simpl. f_equal. now apply IH.
    + now intros [= <- <-].
Qed.

Lemma span_all (s a b : list N) : span cls s = (a, b) -> forallb cls a = true.
Proof.
  revert a b. induction s as [|c r IH]; intros a b; simpl.
  - now intros [= <- <-].
  - destruct (cls c) eqn:Hc.
    + destruct (span cls r) as [a' b'] eqn:E. intros [= <- <-].
      simpl. rewrite Hc. simpl. now apply (IH a' b').
    + now intros [= <- <-].
Qed.

Lemma span_stops (s a b : list N) : span cls s = (a, b) -> stops cls b.
Proof.
  revert a b. induction s as [|c r IH]; intros a b; simpl.
  - now intros [= <- <-].
  - destruct (cls c) eqn:Hc.
    + destruct (span cls r) as [a' b'] eqn:E. intros [= <- <-].
      now apply (IH a' b').
    + now intros [= <- <-].
Qed.

Lemma span_unique (a b : list N) :
  forallb cls a = true -> stops cls b -> span cls (a ++ b) = (a, b).
Proof.
  intros Ha Hb. induction a as [|c a IH]; simpl.
  - destruct b as [|d b]; [reflexivity|]. simpl in *. now rewrite Hb.
  - simpl in Ha. apply andb_true_iff in Ha as [Hc Ha].
    now rewrite Hc, (IH Ha).
Qed.

(** Backtracking finds nothing that the longest run does not, when the
    rest of the pattern rejects an input that starts in the class. *)
Lemma greedy_plus_span {R : Type} (k : list N -> list N -> option R) :
  (forall cap c r, cls c = true -> k cap (c :: r) = None) ->
  forall s taken,
    greedy_plus cls k taken s
    = match span cls s with
      | ([], _) => None
      | (a, b) => k (taken ++ a) b
      end.
Proof.
  intros Hk. induction s as [|c r IH]; intros taken; simpl; [reflexivity|].
  destruct (cls c) eqn:Hc; [|reflexivity].
  rewrite IH. destruct (span cls r) as [a b] eqn:E.
  pose proof (span_app _ _ _ E) as ->.
  pose proof (span_all _ _ _ E) as Ha.
  destruct a as [|a0 a'].
  - simpl. reflexivity.
  - rewrite <- app_assoc. simpl.
    destruct (k (taken ++ c :: a0 :: a') b) eqn:Ek; [reflexivity|].
    simpl in Ha. apply andb_true_iff in Ha as [Ha0 _].
    now apply Hk.
Qed.

End RegexFacts.

Lemma match_items_longest (p : list item) :
  unambiguous p = true ->
  forall s caps, match_items p s caps = match_longest p s caps.
Proof.
  induction p as [|i p IH]; intros Hp s caps; [reflexivity|].
  destruct i as [c|cls].
  - simpl in *. destruct s as [|d r]; [reflexivity|].
    destruct (c =? d); [now apply IH|reflexivity].
  - cbn [match_items match_longest].
    assert (Hp' : unambiguous p = true).
    { simpl in Hp. destruct p as [|[d|cls'] p']; [reflexivity| |discriminate].
      now apply andb_true_iff in Hp as [_ Hp]. }
    rewrite greedy_plus_span.
    + destruct (span cls s) as [[|a0 a'] b]; [reflexivity|]. simpl. now apply IH.
    + intros cap c r Hc. simpl in Hp.
      destruct p as [|[d|cls'] p']; [reflexivity| |discriminate].
      apply andb_true_iff in Hp as [Hd _]. simpl.
      destruct (N.eqb_spec d c) as [->|]; [|reflexivity].
      now rewrite Hc in Hd.
Qed.

Lemma str_match_longest (p : list item) (s : list N) :
  unambiguous p = true -> str_match s p = match_longest p s [s].
Proof. intros Hp. now apply match_items_longest. Qed.

Lemma str_eqb_eq (a b : list N) : str_eqb a b = true <-> a = b.
Proof. unfold str_eqb. apply bool_decide_eq_true. Qed.

Lemma str_eqb_neq (a b : list N) : str_eqb a b = false <-> a <> b.
Proof. unfold str_eqb. apply bool_decide_eq_false. Qed.

Lemma startsWith_app (p r : list N) : startsWith (p ++ r) p = true.
Proof.
  induction p as [|c p IH]; [reflexivity|].
  cbn. unfold startsWith; fold startsWith. now rewrite N.eqb_refl, IH.
Qed.

Lemma startsWith_inv (p s : list N) :
  startsWith s p = true -> s = p ++ drop (length p) s.
Proof.
  revert s. induction p as [|c p IH]; intros s; [reflexivity|].
  unfold startsWith; fold startsWith. destruct s as [|d s]; [discriminate|].
  intros H. apply andb_true_iff in H as [Hc Hs]. apply N.eqb_eq in Hc.
  subst d. simpl. f_equal. now apply IH.
Qed.

(** A run of literals at the head of a pattern. *)
Lemma match_longest_lits (l : list N) (p : list item) (s : list N)
    (caps : list (list N)) :
  match_longest (lits l ++ p) s caps
  = if startsWith s l then match_longest p (drop (length l) s) caps else None.
Proof.
  revert s. induction l as [|c l IH]; intros s; [reflexivity|].
  simpl. unfold startsWith; fold startsWith.
  destruct s as [|d s]; [reflexivity|].
  destruct (c =? d); [apply IH|reflexivity].
Qed.

(** Segments: what lies between two slashes. *)
Lemma is_segment_inv (k : list N) :
  is_segment k = true -> k <> [] /\ forallb not_slash k = true.
Proof.
  unfold is_segment. intros H. apply andb_true_iff in H as [Hn Hk].
  split; [|exact Hk]. now destruct k.
Qed.

Lemma is_rest_inv (f : list N) :
  is_rest f = true -> f <> [] /\ forallb dot f = true.
Proof.
  unfold is_rest. intros H. apply andb_true_iff in H as [Hn Hk].
  split; [|exact Hk]. now destruct f.
Qed.

Lemma span_segment (k rest : list N) :
  forallb not_slash k = true ->
  span not_slash (k ++ SLASH :: rest) = (k, SLASH :: rest).
Proof. intros Hk. apply span_unique; [exact Hk|reflexivity]. Qed.

Lemma span_rest (f : list N) :
  forallb dot f = true -> span dot f = (f, []).
Proof.
  intros Hf. rewrite <- (app_nil_r f) at 1. now apply span_unique.
Qed.

Lemma segment_split_inj (a b x y : list N) :
  forallb not_slash a = true -> forallb not_slash b = true ->
  a ++ SLASH :: x = b ++ SLASH :: y -> a = b /\ x = y.
Proof.
  intros Ha Hb E.
  pose proof (span_segment a x Ha) as Sa. rewrite E in Sa.
  rewrite (span_segment b y Hb) in Sa. now injection Sa as -> ->.
Qed.

Lemma has_slash_app (a b : list N) :
  has_slash (a ++ b) = has_slash a || has_slash b.
Proof. unfold has_slash. apply existsb_app. Qed.


(** ** The three patterns on the three shapes *)

Lemma registry_path_eq (k : list N) :
  registry_path k = SLASH :: k ++ SLASH :: js "registry.json".
Proof. reflexivity. Qed.

Lemma latest_path_eq (k i f : list N) :
  latest_path k i f = SLASH :: k ++ SLASH :: i ++ SLASH :: js "latest" ++ SLASH :: f.
Proof. reflexivity. Qed.

Lemma artifact_path_eq (k i v f : list N) :
  artifact_path k i v f = SLASH :: k ++ SLASH :: i ++ SLASH :: v ++ SLASH :: f.
Proof. reflexivity. Qed.

Lemma latest_path_artifact (k i f : list N) :
  latest_path k i f = artifact_path k i (js "latest") f.
Proof. reflexivity. Qed.

(** One step of [match_longest] through a group that captures a segment. *)
Lemma match_longest_segment (p : list item) (k rest : list N)
    (caps : list (list N)) :
  is_segment k = true ->
  match_longest (Group not_slash :: p) (k ++ SLASH :: rest) caps
  = match_longest p (SLASH :: rest) (caps ++ [k]).
Proof.
  intros Hk. apply is_segment_inv in Hk as [Hne Hk].
  cbn [match_longest]. rewrite (span_segment _ _ Hk).
  now destruct k.
Qed.

Lemma match_longest_slash (p : list item) (s : list N) (caps : list (list N)) :
  match_longest (Lit SLASH :: p) (SLASH :: s) caps = match_longest p s caps.
Proof. cbn [match_longest]. now rewrite N.eqb_refl. Qed.

(** The last group, [(.+)] before the end. *)
Lemma match_longest_rest (f : list N) (caps : list (list N)) :
  match_longest [Group dot] f caps
  = if is_rest f then Some (caps ++ [f]) else None.
Proof.
  cbn [match_longest]. destruct (span dot f) as [a b] eqn:E.
  pose proof (span_app _ _ _ _ E) as ->.
  pose proof (span_all _ _ _ _ E) as Ha.
  pose proof (span_stops _ _ _ _ E) as Hb.
  destruct a as [|a0 a'].
  - simpl. destruct b as [|c b]; [reflexivity|].
    unfold is_rest. simpl in *. now rewrite Hb.
  - destruct b as [|c b].
    + rewrite app_nil_r. unfold is_rest. now rewrite Ha.
    + unfold is_rest. rewrite forallb_app. simpl in Hb. simpl forallb at 2.
      rewrite Hb. now rewrite andb_false_r, andb_false_r.
Qed.

Ltac step_segments :=
  repeat first
    [ rewrite match_longest_slash
    | rewrite match_longest_segment by assumption ].

Lemma str_match_registry (k : list N) :
  is_segment k = true ->
  str_match (registry_path k) registry_re = Some [registry_path k; k].
Proof.
  intros Hk. rewrite str_match_longest by reflexivity.
  rewrite registry_path_eq at 1. unfold registry_re.
  step_segments. reflexivity.
Qed.

Lemma str_match_artifact (k i v f : list N) :
  is_segment k = true -> is_segment i = true -> is_segment v = true ->
  is_rest f = true ->
  str_match (artifact_path k i v f) artifact_re
  = Some [artifact_path k i v f; k; i; v; f].
Proof.
  intros Hk Hi Hv Hf. rewrite str_match_longest by reflexivity.
  rewrite artifact_path_eq at 1. unfold artifact_re.
  step_segments. rewrite match_longest_rest, Hf. reflexivity.
Qed.

Lemma str_match_latest (k i f : list N) :
  is_segment k = true -> is_segment i = true -> is_rest f = true ->
  str_match (latest_path k i f) latest_re = Some [latest_path k i f; k; i; f].
Proof.
  intros Hk Hi Hf. rewrite str_match_longest by reflexivity.
  rewrite latest_path_eq at 1. unfold latest_re.
  step_segments.
  change (lits (js "/latest/") ++ [Group dot])
    with (Lit SLASH :: lits (js "latest/") ++ [Group dot]).
  rewrite match_longest_slash, match_longest_lits.
  change (js "latest" ++ SLASH :: f) with (js "latest/" ++ f).
  rewrite startsWith_app, drop_app_length.
  rewrite match_longest_rest, Hf. reflexivity.
Qed.

(** A path of the latest shape also fits the artifact pattern, with
    [latest] as its version. *)
Lemma str_match_latest_as_artifact (k i f : list N) :
  is_segment k = true -> is_segment i = true -> is_rest f = true ->
  str_match (latest_path k i f) artifact_re
  = Some [latest_path k i f; k; i; js "latest"; f].
Proof.
  intros Hk Hi Hf. rewrite latest_path_artifact.
  now apply str_match_artifact.
Qed.

Lemma segments_not_registry (k i rest : list N) :
  is_segment k = true -> is_segment i = true ->
  str_match (SLASH :: k ++ SLASH :: i ++ SLASH :: rest) registry_re = None.
Proof.
  intros Hk Hi. rewrite str_match_longest by reflexivity. unfold registry_re.
  step_segments.
  change (lits (js "/registry.json")) with (Lit SLASH :: lits (js "registry.json") ++ []).
  rewrite match_longest_slash, match_longest_lits.
  destruct (startsWith _ _) eqn:E; [|reflexivity].
  apply startsWith_inv in E. cbn [match_longest].
  destruct (drop _ _) as [|c r] eqn:D; [|reflexivity].
  rewrite app_nil_r in E. apply (f_equal has_slash) in E.
  rewrite has_slash_app in E. simpl in E. rewrite orb_true_r in E.
  discriminate.
Qed.

Lemma artifact_not_latest (k i v f : list N) :
  is_segment k = true -> is_segment i = true -> is_segment v = true ->
  v <> js "latest" ->
  str_match (artifact_path k i v f) latest_re = None.
Proof.
  intros Hk Hi Hv Hne. rewrite str_match_longest by reflexivity.
  rewrite artifact_path_eq. unfold latest_re.
  step_segments.
  change (lits (js "/latest/") ++ [Group dot])
    with (Lit SLASH :: lits (js "latest/") ++ [Group dot]).
  rewrite match_longest_slash, match_longest_lits.
  destruct (startsWith _ _) eqn:E; [|reflexivity].
  apply startsWith_inv in E. exfalso. apply Hne.
  change (js "latest/" ++ ?x) with (js "latest" ++ SLASH :: x) in E.
  apply is_segment_inv in Hv as [_ Hv].
  now apply segment_split_inj in E as [E _].
Qed.

(** ** From a match back to the shape *)

Lemma match_longest_slash_inv (p : list item) (s : list N)
    (caps m : list (list N)) :
  match_longest (Lit SLASH :: p) s caps = Some m ->
  exists r, s = SLASH :: r /\ match_longest p r caps = Some m.
Proof.
  cbn [match_longest]. destruct s as [|d r]; [discriminate|].
  destruct (N.eqb_spec SLASH d) as [<-|]; [|discriminate].
  intros H. now exists r.
Qed.

Lemma match_longest_segment_inv (p : list item) (s : list N)
    (caps m : list (list N)) :
  match_longest (Group not_slash :: Lit SLASH :: p) s caps = Some m ->
  exists k rest,
    is_segment k = true /\ s = k ++ SLASH :: rest
    /\ match_longest p rest (caps ++ [k]) = Some m.
Proof.
  cbn [match_longest]. destruct (span not_slash s) as [a b] eqn:E.
  pose proof (span_app _ _ _ _ E) as ->.
  pose proof (span_all _ _ _ _ E) as Ha.
  destruct a as [|a0 a']; [discriminate|].
  destruct b as [|d r]; [discriminate|].
  destruct (N.eqb_spec SLASH d) as [<-|]; [|discriminate].
  intros H. exists (a0 :: a'), r.
  split; [unfold is_segment; now rewrite Ha | now split].
Qed.


Lemma match_longest_rest_inv (f : list N) (caps m : list (list N)) :
  match_longest [Group dot] f caps = Some m ->
  is_rest f = true /\ m = caps ++ [f].
Proof.
  rewrite match_longest_rest. destruct (is_rest f); [|discriminate].
  now intros [= <-].
Qed.



Lemma str_match_artifact_inv (p : list N) (m : list (list N)) :
  str_match p artifact_re = Some m ->
  exists k i v f,
    is_segment k = true /\ is_segment i = true /\ is_segment v = true
    /\ is_rest f = true /\ p = artifact_path k i v f /\ m = [p; k; i; v; f].
Proof.
  rewrite str_match_longest by reflexivity. unfold artifact_re.
  intros H. apply match_longest_slash_inv in H as (r & -> & H).
  apply match_longest_segment_inv in H as (k & r1 & Hk & -> & H).
  apply match_longest_segment_inv in H as (i & r2 & Hi & -> & H).
  apply match_longest_segment_inv in H as (v & f & Hv & -> & H).
  apply match_longest_rest_inv in H as [Hf ->].
  exists k, i, v, f. now repeat split.
Qed.

(** ** The handler and its classification *)

Section RouterFacts.

Variable pf : Platform.

(** The handler is the classification followed by the dispatch. *)
Lemma fetch_classify (req : Request) (env : Env) :
  fetch pf req env = dispatch pf req env (classify req).
Proof.
  unfold fetch, classify. cbv zeta.
  fold (root_path (pathname (url req))).
  fold (api_path (pathname (url req))).
  fold (legacy_prefix (pathname (url req))).
  destruct (str_eqb (method req) (js "OPTIONS")); [reflexivity|].
  destruct (root_path _); [reflexivity|].
  destruct (str_eqb (api_path _) (js "/_health")); [reflexivity|].
  destruct (str_eqb (api_path _) (js "/_ingest/github")
            && str_eqb (method req) (js "POST")); [reflexivity|].
  destruct (str_match _ registry_re) as [m1|],
    (str_eqb (method req) (js "GET")); cbn [is_some andb];
    try reflexivity;
    destruct (str_match _ latest_re) as [m2|]; cbn [is_some andb];
    try reflexivity;
    destruct (str_match _ artifact_re) as [m3|]; reflexivity.
Qed.

Lemma inner_slash_not_root (p : list N) :
  has_slash (tl (api_path p)) = true -> root_path p = false.
Proof.
  intros H. destruct (root_path p) eqn:E; [|reflexivity].
  unfold root_path in E.
  repeat (apply orb_true_iff in E as [E|E]);
    apply str_eqb_eq in E; subst p; discriminate H.
Qed.

Lemma inner_slash_not_health (a : list N) :
  has_slash (tl a) = true -> str_eqb a (js "/_health") = false.
Proof.
  intros H. apply str_eqb_neq. intros ->. discriminate H.
Qed.

Lemma inner_slash (k rest : list N) :
  has_slash (tl (SLASH :: k ++ SLASH :: rest)) = true.
Proof.
  cbn [tl]. rewrite has_slash_app. cbn. unfold SLASH.
  rewrite N.eqb_refl. cbn. apply orb_true_r.
Qed.

(** A GET request on a path with a slash inside reaches the patterns. *)
Lemma classify_get (req : Request) :
  method req = js "GET" ->
  has_slash (tl (api_path (pathname (url req)))) = true ->
  classify req
  = let a := api_path (pathname (url req)) in
    match str_match a registry_re with
    | Some m => RRegistry (nth 1 m [])
    | None =>
        match str_match a latest_re with
        | Some m => RLatest (nth 1 m []) (nth 2 m []) (nth 3 m [])
        | None =>
            match str_match a artifact_re with
            | Some m =>
                RArtifact (nth 1 m []) (nth 2 m []) (nth 3 m []) (nth 4 m [])
            | None => RUnmatched
            end
        end
    end.
Proof.
  intros Hm Hs. unfold classify. cbv zeta. rewrite Hm.
  rewrite (inner_slash_not_root _ Hs), (inner_slash_not_health _ Hs).
  change (str_eqb (js "GET") (js "OPTIONS")) with false.
  change (str_eqb (js "GET") (js "POST")) with false.
  change (str_eqb (js "GET") (js "GET")) with true.
  rewrite andb_false_r. cbv iota.
  destruct (str_match _ registry_re); [reflexivity|].
  destruct (str_match _ latest_re); [reflexivity|].
  destruct (str_match _ artifact_re); reflexivity.
Qed.

Lemma classify_registry (req : Request) (k : list N) :
  method req = js "GET" ->
  api_path (pathname (url req)) = registry_path k ->
  is_segment k = true ->
  classify req = RRegistry k.
Proof.
  intros Hm Hp Hk. rewrite classify_get; [|exact Hm|].
  - cbv zeta. rewrite Hp, (str_match_registry _ Hk). reflexivity.
  - rewrite Hp, registry_path_eq. apply inner_slash.
Qed.

Lemma classify_latest (req : Request) (k i f : list N) :
  method req = js "GET" ->
  api_path (pathname (url req)) = latest_path k i f ->
  is_segment k = true -> is_segment i = true -> is_rest f = true ->
  classify req = RLatest k i f.
Proof.
  intros Hm Hp Hk Hi Hf. rewrite classify_get; [|exact Hm|].
  - cbv zeta. rewrite Hp, (str_match_latest _ _ _ Hk Hi Hf).
    rewrite latest_path_eq, (segments_not_registry _ _ _ Hk Hi).
    reflexivity.
  - rewrite Hp, latest_path_eq. apply inner_slash.
Qed.

Lemma classify_artifact (req : Request) (k i v f : list N) :
  method req = js "GET" ->
  api_path (pathname (url req)) = artifact_path k i v f ->
  is_segment k = true -> is_segment i = true -> is_segment v = true ->
  is_rest f = true -> v <> js "latest" ->
  classify req = RArtifact k i v f.
Proof.
  intros Hm Hp Hk Hi Hv Hf Hne. rewrite classify_get; [|exact Hm|].
  - cbv zeta. rewrite Hp, (str_match_artifact _ _ _ _ Hk Hi Hv Hf).
    rewrite (artifact_not_latest _ _ _ _ Hk Hi Hv Hne).
    rewrite artifact_path_eq, (segments_not_registry _ _ _ Hk Hi).
    reflexivity.
  - rewrite Hp, artifact_path_eq. apply inner_slash.
Qed.

End RouterFacts.

(** ** Decoding yields well-formed strings, which encode *)

Ltac to_arith :=
  repeat match goal with
  | H : _ && _ = true |- _ => apply andb_true_iff in H as [? ?]
  | H : _ || _ = true |- _ => apply orb_true_iff in H as [?|?]
  | H : negb _ = true |- _ => apply negb_true_iff in H
  | H : (_ <=? _) = true |- _ => apply N.leb_le in H
  | H : (_ <? _) = true |- _ => apply N.ltb_lt in H
  | H : (_ =? _) = true |- _ => apply N.eqb_eq in H
  | H : (_ <=? _) = false |- _ => apply N.leb_gt in H
  | H : (_ <? _) = false |- _ => apply N.ltb_ge in H
  | H : (_ =? _) = false |- _ => apply N.eqb_neq in H
  end.

Lemma not_surrogate_units (c : N) :
  c < 55296 \/ 57343 < c -> is_trail c = false /\ is_lead c = false.
Proof.
  intros H. unfold is_trail, is_lead. split.
  - destruct (56320 <=? c) eqn:E1, (c <=? 57343) eqn:E2; try reflexivity.
    to_arith. lia.
  - destruct (55296 <=? c) eqn:E1, (c <=? 56319) eqn:E2; try reflexivity.
    to_arith. lia.
Qed.

Lemma well_formed_cons (c : N) (u : list N) :
  c < 55296 \/ 57343 < c -> well_formed (c :: u) = well_formed u.
Proof.
  intros H. destruct (not_surrogate_units c H) as [Ht Hl].
  cbn [well_formed]. now rewrite Ht, Hl.
Qed.

Lemma unreserved_small (c : N) : unreserved c = true -> c < 128.
Proof.
  unfold unreserved. cbn [existsb]. intros H. to_arith; lia.
Qed.

Lemma encode_well_formed_len (n : nat) :
  forall s, (length s <= n)%nat -> well_formed s = true ->
            exists e, encodeURIComponent s = Returned e.
Proof.
  induction n as [|n IH]; intros s Hn Hs.
  - destruct s; [now exists []|simpl in Hn; lia].
  - destruct s as [|c r]; [now exists []|]. cbn [encodeURIComponent].
    simpl in Hn. destruct (unreserved c) eqn:Hu.
    + apply unreserved_small in Hu. rewrite well_formed_cons in Hs by lia.
      destruct (IH r ltac:(lia) Hs) as [e ->]. now eexists.
    + cbn [well_formed] in Hs. destruct (is_trail c); [discriminate|].
      destruct (is_lead c).
      * destruct r as [|d r']; [discriminate|].
        apply andb_true_iff in Hs as [Hd Hr]. rewrite Hd.
        simpl in Hn. destruct (IH r' ltac:(lia) Hr) as [e ->]. now eexists.
      * destruct (IH r ltac:(lia) Hs) as [e ->]. now eexists.
Qed.

Lemma encode_well_formed (s : list N) :
  well_formed s = true -> exists e, encodeURIComponent s = Returned e.
Proof. now apply (encode_well_formed_len (length s)). Qed.

Lemma lor_lt_pow2 (a b n : N) : a < 2 ^ n -> b < 2 ^ n -> N.lor a b < 2 ^ n.
Proof.
  intros Ha Hb. destruct (N.eq_dec (N.lor a b) 0) as [->|Hz].
  - apply N.neq_0_lt_0. now apply N.pow_nonzero.
  - apply N.log2_lt_pow2; [lia|]. rewrite N.log2_lor.
    destruct (N.eq_dec a 0) as [->|Ha0], (N.eq_dec b 0) as [->|Hb0].
    + now rewrite N.lor_0_l in Hz.
    + rewrite N.max_r by (simpl; lia). apply N.log2_lt_pow2; [lia|exact Hb].
    + rewrite N.max_l by (simpl; lia). apply N.log2_lt_pow2; [lia|exact Ha].
    + apply N.max_lub_lt; apply N.log2_lt_pow2; try lia; assumption.
Qed.

Lemma land_bound (b : N) (n : N) : N.land b (N.ones n) < 2 ^ n.
Proof. rewrite N.land_ones. apply N.mod_lt. now apply N.pow_nonzero. Qed.

Lemma low6_bound (b : N) : low6 b < 64.
Proof. apply (land_bound b 6). Qed.

Lemma shiftl_bound (x k m : N) : x < 2 ^ m -> N.shiftl x k < 2 ^ (m + k).
Proof.
  intros H. rewrite N.shiftl_mul_pow2, N.pow_add_r.
  apply N.mul_lt_mono_pos_r; [|exact H].
  apply N.neq_0_lt_0. now apply N.pow_nonzero.
Qed.

Lemma cp2_bound (b b1 : N) :
  N.lor (N.shiftl (N.land b 31) 6) (low6 b1) < 2048.
Proof.
  apply (lor_lt_pow2 _ _ 11).
  - apply (shiftl_bound _ 6 5). apply (land_bound b 5).
  - pose proof (low6_bound b1). simpl. lia.
Qed.

Lemma cp3_bound (b b1 b2 : N) :
  N.lor (N.shiftl (N.land b 15) 12)
    (N.lor (N.shiftl (low6 b1) 6) (low6 b2)) < 65536.
Proof.
  apply (lor_lt_pow2 _ _ 16).
  - apply (shiftl_bound _ 12 4). apply (land_bound b 4).
  - apply (lor_lt_pow2 _ _ 16).
    + eapply N.lt_trans; [apply (shiftl_bound _ 6 6), low6_bound|]. reflexivity.
    + pose proof (low6_bound b2). simpl. lia.
Qed.

Lemma well_formed_pair (cp : N) (u : list N) :
  65536 <= cp -> cp <= 1114111 ->
  well_formed (utf16_units cp ++ u) = well_formed u.
Proof.
  intros Hlo Hhi. unfold utf16_units.
  destruct (cp <? 65536) eqn:E; [to_arith; lia|]. cbn [app well_formed].
  set (x := cp - 65536).
  assert (Hx : x < 1048576) by (subst x; lia).
  assert (Hq : N.shiftr x 10 < 1024).
  { rewrite N.shiftr_div_pow2. apply N.Div0.div_lt_upper_bound.
    change (2 ^ 10 * 1024) with 1048576. exact Hx. }
  assert (Hr : N.land x 1023 < 1024) by apply (land_bound x 10).
  assert (Hl : is_lead (55296 + N.shiftr x 10) = true).
  { unfold is_lead. apply andb_true_iff. split; [apply N.leb_le|apply N.leb_le]; lia. }
  assert (Ht : is_trail (55296 + N.shiftr x 10) = false).
  { unfold is_trail. apply andb_false_iff. left. apply N.leb_gt. lia. }
  assert (Ht2 : is_trail (56320 + N.land x 1023) = true).
  { unfold is_trail. apply andb_true_iff. split; apply N.leb_le; lia. }
  now rewrite Ht, Hl, Ht2.
Qed.

Lemma well_formed_unit (cp : N) (u : list N) :
  cp < 55296 \/ (57343 < cp /\ cp < 65536) ->
  well_formed (utf16_units cp ++ u) = well_formed u.
Proof.
  intros H. unfold utf16_units.
  destruct (cp <? 65536) eqn:E; [|to_arith; lia].
  cbn [app]. apply well_formed_cons. lia.
Qed.

Lemma utf8_units_well_formed_len (n : nat) :
  forall ts u, (length ts <= n)%nat -> plain_ascii ts = true ->
               utf8_units ts = Some u -> well_formed u = true.
Proof.
  induction n as [|n IH]; intros ts u Hn Hp Hu.
  - destruct ts; [|simpl in Hn; lia]. now injection Hu as <-.
  - destruct ts as [|t r]; [now injection Hu as <-|].
    simpl in Hn. cbn [plain_ascii forallb] in Hp.
    apply andb_true_iff in Hp as [Ht Hp]. fold (plain_ascii r) in Hp.
    destruct t as [c|b]; cbn [utf8_units] in Hu.
    + destruct (utf8_units r) as [u'|] eqn:E; [|discriminate].
      injection Hu as <-. to_arith. rewrite well_formed_cons by lia.
      apply (IH r); [lia|exact Hp|exact E].
    + destruct (b <? 128) eqn:Hb.
      { destruct (utf8_units r) as [u'|] eqn:E; [|discriminate].
        injection Hu as <-. to_arith. rewrite well_formed_cons by lia.
        apply (IH r); [lia|exact Hp|exact E]. }
      destruct ((192 <=? b) && (b <? 224)) eqn:H2.
      { destruct r as [|[c1|b1] r1]; try discriminate.
        destruct (is_cont b1 && _) eqn:Hc; [|discriminate].
        destruct (utf8_units r1) as [u'|] eqn:E; [|discriminate].
        injection Hu as <-. rewrite well_formed_unit.
        - apply (IH r1); [simpl in Hn; lia|exact Hp|exact E].
        - left. pose proof (cp2_bound b b1). lia. }
      destruct ((224 <=? b) && (b <? 240)) eqn:H3.
      { destruct r as [|[c1|b1] [|[c2|b2] r2]]; try discriminate.
        destruct (is_cont b1 && is_cont b2 && _ && _) eqn:Hc; [|discriminate].
        destruct (utf8_units r2) as [u'|] eqn:E; [|discriminate].
        injection Hu as <-. rewrite well_formed_unit.
        - apply (IH r2); [simpl in Hn; lia|exact Hp|exact E].
        - pose proof (cp3_bound b b1 b2) as Hlt.
          apply andb_true_iff in Hc as [_ Hs]. apply negb_true_iff in Hs.
          unfold is_surrogate in Hs. apply andb_false_iff in Hs as [Hs|Hs];
            to_arith; lia. }
      destruct ((240 <=? b) && (b <? 248)) eqn:H4; [|discriminate].
      destruct r as [|[c1|b1] [|[c2|b2] [|[c3|b3] r3]]]; try discriminate.
      destruct (is_cont b1 && is_cont b2 && is_cont b3 && _ && _) eqn:Hc;
        [|discriminate].
      destruct (utf8_units r3) as [u'|] eqn:E; [|discriminate].
      injection Hu as <-.
      apply andb_true_iff in Hc as [Hc Hhi]. apply andb_true_iff in Hc as [_ Hlo].
      to_arith. rewrite well_formed_pair by assumption.
      apply (IH r3); [simpl in Hn; lia|exact Hp|exact E].
Qed.

Lemma percent_tokens_ascii (s : list N) (ts : list uri_token) :
  is_ascii s = true -> percent_tokens s = Some ts -> plain_ascii ts = true.
Proof.
  remember (length s) as n eqn:Hn. revert s ts Hn.
  induction n as [n IH] using lt_wf_ind. intros s ts Hn Ha Ht.
  destruct s as [|c r]; [now injection Ht as <-|].
  cbn [percent_tokens] in Ht. cbn [is_ascii forallb] in Ha.
  apply andb_true_iff in Ha as [Hc Ha]. fold (is_ascii r) in Ha.
  destruct (c =? PERCENT).
  - destruct r as [|h1 [|h2 r']]; try discriminate.
    destruct (hex_val h1), (hex_val h2); try discriminate.
    destruct (percent_tokens r') as [ts'|] eqn:E; [|discriminate].
    injection Ht as <-. cbn [plain_ascii forallb]. fold (plain_ascii ts').
    cbn [is_ascii forallb] in Ha.
    apply andb_true_iff in Ha as [_ Ha]. apply andb_true_iff in Ha as [_ Ha].
    apply (IH (length r') ltac:(subst n; simpl; lia) r' _ eq_refl Ha E).
  - destruct (percent_tokens r) as [ts'|] eqn:E; [|discriminate].
    injection Ht as <-. cbn [plain_ascii forallb]. rewrite Hc.
    apply (IH (length r) ltac:(subst n; simpl; lia) r _ eq_refl Ha E).
Qed.

(** A parameter decoded from an ASCII path can be encoded again. *)
Lemma encode_decoded (s u : list N) :
  is_ascii s = true -> decodeURIComponent s = Returned u ->
  exists e, encodeURIComponent u = Returned e.
Proof.
  intros Ha Hd. apply encode_well_formed. unfold decodeURIComponent in Hd.
  destruct (percent_tokens s) as [ts|] eqn:Et; [|discriminate].
  destruct (utf8_units ts) as [u'|] eqn:Eu; [|discriminate].
  injection Hd as <-.
  apply (utf8_units_well_formed_len (length ts) ts); [lia| |exact Eu].
  now apply (percent_tokens_ascii s).
Qed.

(** ** [JSON_parse] never runs out of fuel *)

Lemma skip_ws_length (s : list N) : (length (skip_ws s) <= length s)%nat.
Proof.
  induction s as [|c r IH]; simpl; [lia|]. destruct (is_ws c); simpl; lia.
Qed.

Lemma skip_ws_cons (s r : list N) (c : N) :
  skip_ws s = c :: r -> (length r < length s)%nat.
Proof.
  intros H. pose proof (skip_ws_length s) as L. rewrite H in L. simpl in L. lia.
Qed.

Lemma push_inv (c : N) (o : option (list N * list N)) (str r : list N) :
  push c o = Some (str, r) -> exists str', o = Some (str', r).
Proof.
  destruct o as [[str' r']|]; simpl; [|discriminate].
  intros [= <- <-]. now exists str'.
Qed.

Lemma string_chars_length (s str r : list N) :
  string_chars s = Some (str, r) -> (length r < length s)%nat.
Proof.
  remember (length s) as n eqn:Hn. revert s str r Hn.
  induction n as [n IH] using lt_wf_ind. intros s str r Hn H.
  destruct s as [|c s1]; [discriminate|]. cbn [string_chars] in H.
  simpl in Hn. destruct (c =? 34).
  { injection H as <- <-. lia. }
  destruct (c =? 92).
  - destruct s1 as [|e s2]; [discriminate|]. destruct (e =? 117).
    + destruct s2 as [|h1 [|h2 [|h3 [|h4 s3]]]]; try discriminate.
      destruct (hex4 h1 h2 h3 h4); [|discriminate].
      apply push_inv in H as [str' H].
      pose proof (IH (length s3) ltac:(subst n; simpl; lia) s3 _ _ eq_refl H).
      subst n. simpl. lia.
    + destruct (simple_escape e); [|discriminate].
      apply push_inv in H as [str' H].
      pose proof (IH (length s2) ltac:(subst n; simpl; lia) s2 _ _ eq_refl H).
      subst n. simpl. lia.
  - destruct (c <? 32); [discriminate|].
    apply push_inv in H as [str' H].
    pose proof (IH (length s1) ltac:(subst n; simpl; lia) s1 _ _ eq_refl H).
    subst n. lia.
Qed.

Lemma span_digits_length (s ds r : list N) :
  span_digits s = (ds, r) -> (length r <= length s)%nat.
Proof.
  revert ds r. induction s as [|c s IH]; intros ds r; simpl.
  - intros [= <- <-]. simpl. lia.
  - destruct (is_digit c).
    + destruct (span_digits s) as [ds' r'] eqn:E. intros [= <- <-].
      specialize (IH _ _ eq_refl). lia.
    + intros [= <- <-]. simpl. lia.
Qed.

Lemma number_int_length (s l r : list N) :
  number_int s = Some (l, r) -> (length r < length s)%nat.
Proof.
  unfold number_int.
  assert (G : forall s1 sign, (length s1 <= length s)%nat ->
    match s1 with
    | d :: r0 =>
        if d =? 48 then Some (sign ++ [d], r0)
        else if is_digit d then
          let '(ds, rest) := span_digits r0 in Some (sign ++ d :: ds, rest)
        else None
    | [] => None
    end = Some (l, r) -> (length r < length s)%nat).
  { intros s1 sign Hs1 H. destruct s1 as [|d r0]; [discriminate|].
    simpl in Hs1. destruct (d =? 48).
    - injection H as <- <-. lia.
    - destruct (is_digit d); [|discriminate].
      destruct (span_digits r0) as [ds rest] eqn:E. injection H as <- <-.
      apply span_digits_length in E. lia. }
  destruct s as [|c s']; [discriminate|].
  destruct (c =? 45); [apply (G s' [c])|apply (G (c :: s') [])]; simpl; lia.
Qed.

Lemma number_frac_length (s l r : list N) :
  number_frac s = Some (l, r) -> (length r <= length s)%nat.
Proof.
  unfold number_frac. destruct s as [|c s']; [now intros [= <- <-]|].
  destruct (c =? 46); [|now intros [= <- <-]].
  destruct (span_digits s') as [[|d ds] rest] eqn:E; [discriminate|].
  intros [= <- <-]. apply span_digits_length in E. simpl. lia.
Qed.

Lemma number_exp_length (s l r : list N) :
  number_exp s = Some (l, r) -> (length r <= length s)%nat.
Proof.
  unfold number_exp. destruct s as [|c s']; [now intros [= <- <-]|].
  destruct ((c =? 101) || (c =? 69)); [|now intros [= <- <-]].
  destruct s' as [|g s''].
  - simpl. discriminate.
  - destruct ((g =? 43) || (g =? 45)).
    + destruct (span_digits s'') as [[|d ds] rest] eqn:E; [discriminate|].
      intros [= <- <-]. apply span_digits_length in E. simpl. lia.
    + destruct (span_digits (g :: s'')) as [[|d ds] rest] eqn:E; [discriminate|].
      intros [= <- <-]. apply span_digits_length in E. simpl in *. lia.
Qed.

Lemma number_length (s l r : list N) :
  number s = Some (l, r) -> (length r < length s)%nat.
Proof.
  unfold number. destruct (number_int s) as [[i r1]|] eqn:E1; [|discriminate].
  destruct (number_frac r1) as [[f r2]|] eqn:E2; [|discriminate].
  destruct (number_exp r2) as [[e r3]|] eqn:E3; [|discriminate].
  intros [= <- <-]. apply number_int_length in E1.
  apply number_frac_length in E2. apply number_exp_length in E3. lia.
Qed.

Lemma parse_length (fuel : nat) :
  (forall s v r, parse_value fuel s = POk v r -> (length r < length s)%nat)
  /\ (forall s acc v r,
        parse_elements fuel s acc = POk v r -> (length r < length s)%nat)
  /\ (forall s acc v r,
        parse_members fuel s acc = POk v r -> (length r < length s)%nat).
Proof.
  induction fuel as [|f [IHv [IHe IHm]]].
  - repeat split; intros; discriminate.
  - repeat split.
    + intros s v r H. cbn [parse_value] in H.
      destruct (skip_ws s) as [|c r0] eqn:Es; [discriminate|].
      apply skip_ws_cons in Es.
      destruct (c =? 34).
      { destruct (string_chars r0) as [[str r']|] eqn:E; [|discriminate].
        injection H as <- <-. apply string_chars_length in E. lia. }
      destruct (c =? 91).
      { destruct (skip_ws r0) as [|d r'] eqn:E2; [discriminate|].
        apply skip_ws_cons in E2. destruct (d =? 93).
        - injection H as <- <-. lia.
        - apply IHe in H. lia. }
      destruct (c =? 123).
      { destruct (skip_ws r0) as [|d r'] eqn:E2; [discriminate|].
        apply skip_ws_cons in E2. destruct (d =? 125).
        - injection H as <- <-. lia.
        - apply IHm in H. lia. }
      destruct (startsWith (c :: r0) (js "null")).
      { injection H as <- <-. rewrite length_drop. simpl. lia. }
      destruct (startsWith (c :: r0) (js "true")).
      { injection H as <- <-. rewrite length_drop. simpl. lia. }
      destruct (startsWith (c :: r0) (js "false")).
      { injection H as <- <-. rewrite length_drop. simpl. lia. }
      destruct (number (c :: r0)) as [[l r']|] eqn:E; [|discriminate].
      injection H as <- <-. apply number_length in E. simpl in E. lia.
    + intros s acc v r H. cbn [parse_elements] in H.
      destruct (parse_value f s) as [v0 r0| |] eqn:E; try discriminate.
      apply IHv in E.
      destruct (skip_ws r0) as [|d r'] eqn:E2; [discriminate|].
      apply skip_ws_cons in E2. destruct (d =? 44).
      * apply IHe in H. lia.
      * destruct (d =? 93); [|discriminate]. injection H as <- <-. lia.
    + intros s acc v r H. cbn [parse_members] in H.
      destruct (skip_ws s) as [|q r0] eqn:Es; [discriminate|].
      apply skip_ws_cons in Es. destruct (q =? 34); [|discriminate].
      destruct (string_chars r0) as [[key r1]|] eqn:E1; [|discriminate].
      apply string_chars_length in E1.
      destruct (skip_ws r1) as [|colon r2] eqn:E2; [discriminate|].
      apply skip_ws_cons in E2. destruct (colon =? 58); [|discriminate].
      destruct (parse_value f r2) as [v0 r3| |] eqn:E3; try discriminate.
      apply IHv in E3.
      destruct (skip_ws r3) as [|d r4] eqn:E4; [discriminate|].
      apply skip_ws_cons in E4. destruct (d =? 44).
      * apply IHm in H. lia.
      * destruct (d =? 125); [|discriminate]. injection H as <- <-. lia.
Qed.

Lemma parse_fuel (fuel : nat) :
  (forall s, (2 * length s + 1 <= fuel)%nat -> parse_value fuel s <> PFuel)
  /\ (forall s acc,
        (2 * length s + 2 <= fuel)%nat -> parse_elements fuel s acc <> PFuel)
  /\ (forall s acc,
        (2 * length s + 2 <= fuel)%nat -> parse_members fuel s acc <> PFuel).
Proof.
  induction fuel as [|f [IHv [IHe IHm]]].
  - repeat split; intros; lia.
  - destruct (parse_length f) as [Lv _]. repeat split.
    + intros s Hf. cbn [parse_value].
      destruct (skip_ws s) as [|c r0] eqn:Es; [discriminate|].
      apply skip_ws_cons in Es.
      destruct (c =? 34).
      { destruct (string_chars r0) as [[str r']|]; discriminate. }
      destruct (c =? 91).
      { destruct (skip_ws r0) as [|d r'] eqn:E2; [discriminate|].
        destruct (d =? 93); [discriminate|]. apply IHe. lia. }
      destruct (c =? 123).
      { destruct (skip_ws r0) as [|d r'] eqn:E2; [discriminate|].
        destruct (d =? 125); [discriminate|]. apply IHm. lia. }
      destruct (startsWith (c :: r0) (js "null")); [discriminate|].
      destruct (startsWith (c :: r0) (js "true")); [discriminate|].
      destruct (startsWith (c :: r0) (js "false")); [discriminate|].
      destruct (number (c :: r0)) as [[l r']|]; discriminate.
    + intros s acc Hf. cbn [parse_elements].
      destruct (parse_value f s) as [v0 r0| |] eqn:E; try discriminate.
      * apply Lv in E.
        destruct (skip_ws r0) as [|d r'] eqn:E2; [discriminate|].
        apply skip_ws_cons in E2. destruct (d =? 44).
        -- apply IHe. lia.
        -- destruct (d =? 93); discriminate.
      * exfalso. apply (IHv s); [lia|exact E].
    + intros s acc Hf. cbn [parse_members].
      destruct (skip_ws s) as [|q r0] eqn:Es; [discriminate|].
      apply skip_ws_cons in Es. destruct (q =? 34); [|discriminate].
      destruct (string_chars r0) as [[key r1]|] eqn:E1; [|discriminate].
      apply string_chars_length in E1.
      destruct (skip_ws r1) as [|colon r2] eqn:E2; [discriminate|].
      apply skip_ws_cons in E2. destruct (colon =? 58); [|discriminate].
      destruct (parse_value f r2) as [v0 r3| |] eqn:E3; try discriminate.
      * apply Lv in E3.
        destruct (skip_ws r3) as [|d r4] eqn:E4; [discriminate|].
        apply skip_ws_cons in E4. destruct (d =? 44).
        -- apply IHm. lia.
        -- destruct (d =? 125); discriminate.
      * exfalso. apply (IHv r2); [lia|exact E3].
Qed.

(** The fuel that [JSON_parse] gives is enough: a text is parsed or it has a
    syntax error. *)
Lemma parse_value_fuel (text : list N) :
  parse_value (2 * length text + 1) text <> PFuel.
Proof. apply parse_fuel. lia. Qed.

(** ** Writing headers *)

Lemma strip_leading_whitespace_id (c : N) (s : list N) :
  http_whitespace c = false -> strip_leading_whitespace (c :: s) = c :: s.
Proof. intros H. cbn [strip_leading_whitespace]. now rewrite H. Qed.

Lemma last_default (s : list N) (e a b : N) :
  List.last (e :: s) a = List.last (e :: s) b.
Proof.
  revert e. induction s as [|d s IH]; intros e; [reflexivity|].
  change (List.last (d :: s) a = List.last (d :: s) b). apply IH.
Qed.

Lemma rev_last (c : N) (s : list N) :
  exists r, rev (c :: s) = List.last s c :: r.
Proof.
  revert c. induction s as [|d s IH]; intros c; [now exists []|].
  destruct (IH d) as [r Hr]. exists (r ++ [c]).
  change (rev (c :: d :: s)) with (rev (d :: s) ++ [c]). rewrite Hr.
  destruct s as [|e s]; [reflexivity|].
  change (List.last (d :: e :: s) c) with (List.last (e :: s) c).
  now rewrite (last_default s e d c).
Qed.

(** A value without whitespace at its ends is not changed when written. *)
Lemma normalize_value_trimmed (c : N) (s : list N) :
  http_whitespace c = false ->
  http_whitespace (List.last s c) = false ->
  normalize_value (c :: s) = c :: s.
Proof.
  intros Hc Hl. unfold normalize_value.
  rewrite (strip_leading_whitespace_id _ _ Hc).
  destruct (rev_last c s) as [r Hr]. rewrite Hr.
  rewrite (strip_leading_whitespace_id _ _ Hl), <- Hr.
  apply rev_involutive.
Qed.

Lemma headers_set_outcome (h : gmap (list N) (list N)) (n v : list N) :
  header_token n = true ->
  headers_set h n v
  = if header_value (normalize_value v)
    then Returned (<[header_name n := normalize_value v]> h)
    else Threw TypeError.
Proof. intros Hn. unfold headers_set. cbv zeta. now rewrite Hn. Qed.

Lemma headers_set_error (h : gmap (list N) (list N)) (n v : list N)
    (e : js_error) :
  headers_set h n v = Threw e -> e = TypeError.
Proof.
  unfold headers_set. cbv zeta.
  destruct (header_token n && header_value (normalize_value v)); congruence.
Qed.

Lemma set_if_outcome (h : gmap (list N) (list N)) (n : list N)
    (v : option (list N)) :
  header_token n = true ->
  set_if n v h
  = if from_option (fun x => header_value (normalize_value x)) true v
    then Returned (put_if n v h) else Threw TypeError.
Proof.
  intros Hn. destruct v as [x|]; [|reflexivity].
  cbn [set_if put_if from_option]. now apply headers_set_outcome.
Qed.

Lemma metadata_ready_fields (obj : R2ObjectBody) :
  metadata_ready obj
  = let ok := from_option (fun x => header_value (normalize_value x)) true in
    let m := httpMetadata obj in
    ok (contentType m) && (ok (contentLanguage m) && (ok (contentDisposition m)
    && (ok (contentEncoding m) && (ok (cacheControl m) && (ok (cacheExpiry m)
    && header_value (normalize_value (httpEtag obj))))))).
Proof.
  destruct obj as [b e [ct cl cd ce cc cx]].
  unfold metadata_ready, stored_values.
  cbn [httpMetadata httpEtag contentType contentLanguage
       contentDisposition contentEncoding cacheControl cacheExpiry].
  cbv zeta.
  destruct ct, cl, cd, ce, cc, cx;
    cbn [flat_map app forallb from_option andb];
    now rewrite ?andb_true_r.
Qed.

Lemma fallback_content_type_value (file : list N) :
  header_value (normalize_value (fallback_content_type file)) = true
  /\ normalize_value (fallback_content_type file) = fallback_content_type file.
Proof.
  unfold fallback_content_type.
  destruct (endsWith file (js ".json")); [now vm_compute|].
  destruct (endsWith file (js ".yaml") || endsWith file (js ".yml"));
    now vm_compute.
Qed.

Lemma headers_set_clean (h : gmap (list N) (list N)) (n v : list N) :
  header_token n = true ->
  header_value (normalize_value v) = true -> normalize_value v = v ->
  headers_set h n v = Returned (<[header_name n := v]> h).
Proof.
  intros Hn Hv Hid. rewrite headers_set_outcome by exact Hn.
  now rewrite Hv, Hid.
Qed.

(** What [serveArtifact] does with an object of the bucket: a stored string
    that [headers.set] refuses makes it throw; otherwise the response has
    the headers of [artifact_headers]. *)
Lemma serveArtifact_outcome (env : Env) (kind id version file : list N)
    (obj : R2ObjectBody) :
  CATALOG_BUCKET env !! artifact_key kind id version file = Some obj ->
  serveArtifact env kind id version file
  = if metadata_ready obj
    then Returned {| status := 200; headers := artifact_headers obj file;
                     body := BodyStream (r2_body obj) |}
    else Threw TypeError.
Proof.
  intros H. unfold serveArtifact. cbv zeta. rewrite H.
  rewrite metadata_ready_fields.
  destruct obj as [b e [ct cl cd ce cc cx]].
  unfold writeHttpMetadata, artifact_headers.
  cbn [httpMetadata httpEtag r2_body contentType contentLanguage
       contentDisposition contentEncoding cacheControl cacheExpiry].
  cbv zeta.
  destruct (fallback_content_type_value file) as [Fv Fid].
  do 6 (rewrite set_if_outcome by reflexivity;
        match goal with
        | |- context [from_option ?f true ?v] =>
            destruct (from_option f true v);
            cbn [bind andb]; [|reflexivity]
        end).
  rewrite headers_set_outcome by reflexivity.
  destruct (header_value (normalize_value e)); cbn [bind]; [|reflexivity].
  rewrite headers_set_clean by reflexivity. cbn [bind].
  unfold CORS_HEADERS. cbn [fold_left fst snd bind].
  do 3 (rewrite headers_set_clean by reflexivity; cbn [bind]).
  match goal with
  | |- context [negb ?c] => destruct c
  end; cbn [negb bind]; [reflexivity|].
  now rewrite (headers_set_clean _ (js "content-type") _ eq_refl Fv Fid).
Qed.

Lemma insert_get_eq (h : gmap (list N) (list N)) (n k x : list N) :
  header_name n = header_name k ->
  headers_get (<[header_name n := x]> h) k = Some x.
Proof. intros E. unfold headers_get. rewrite <- E. apply lookup_insert_eq. Qed.

Lemma insert_get_ne (h : gmap (list N) (list N)) (n k x : list N) :
  header_name n <> header_name k ->
  headers_get (<[header_name n := x]> h) k = headers_get h k.
Proof. intros E. unfold headers_get. now apply lookup_insert_ne. Qed.

Lemma put_if_get_eq (h : gmap (list N) (list N)) (n k : list N)
    (v : option (list N)) :
  header_name n = header_name k ->
  headers_get (put_if n v h) k
  = match v with
    | Some x => Some (normalize_value x)
    | None => headers_get h k
    end.
Proof.
  intros E. destruct v as [x|]; cbn [put_if]; [|reflexivity].
  now apply insert_get_eq.
Qed.

Lemma put_if_get_ne (h : gmap (list N) (list N)) (n k : list N)
    (v : option (list N)) :
  header_name n <> header_name k ->
  headers_get (put_if n v h) k = headers_get h k.
Proof.
  intros E. destruct v as [x|]; cbn [put_if]; [|reflexivity].
  now apply insert_get_ne.
Qed.

Ltac header_lookup :=
  repeat first
    [ rewrite insert_get_ne by (vm_compute; discriminate)
    | rewrite insert_get_eq by (vm_compute; reflexivity)
    | rewrite put_if_get_ne by (vm_compute; discriminate)
    | rewrite put_if_get_eq by (vm_compute; reflexivity) ].

(** The headers of a served object, one by one. *)
Lemma artifact_headers_lookup (obj : R2ObjectBody) (file : list N) :
  let h := artifact_headers obj file in
  let m := httpMetadata obj in
  headers_get h (js "etag") = Some (normalize_value (httpEtag obj))
  /\ headers_get h (js "cache-control")
     = Some (js "public, max-age=31536000, immutable")
  /\ headers_get h (js "content-type")
     = Some match option_map normalize_value (contentType m) with
            | Some ct => if truthy_str ct then ct else fallback_content_type file
            | None => fallback_content_type file
            end
  /\ headers_get h (js "content-language")
     = option_map normalize_value (contentLanguage m)
  /\ headers_get h (js "content-disposition")
     = option_map normalize_value (contentDisposition m)
  /\ headers_get h (js "content-encoding")
     = option_map normalize_value (contentEncoding m)
  /\ headers_get h (js "expires") = option_map normalize_value (cacheExpiry m)
  /\ headers_get h (js "Access-Control-Allow-Origin") = Some (js "*")
  /\ headers_get h (js "Access-Control-Allow-Methods")
     = Some (js "GET,POST,OPTIONS")
  /\ headers_get h (js "Access-Control-Allow-Headers")
     = Some (js "Content-Type, Authorization, X-Hub-Signature-256").
Proof.
  destruct obj as [b e [ct cl cd ce cc cx]].
  unfold artifact_headers, CORS_HEADERS.
  cbn [httpMetadata httpEtag contentType contentLanguage
       contentDisposition contentEncoding cacheControl cacheExpiry
       fold_left fst snd].
  cbv zeta.
  match goal with
  | |- context [negb (truthy_opt ?g)] =>
      assert (Hct : g = option_map normalize_value ct)
        by (header_lookup; now destruct ct);
      rewrite Hct
  end.
  destruct (negb (truthy_opt (option_map normalize_value ct))) eqn:Ht;
    repeat split; header_lookup;
    try (now destruct ce); try (now destruct cd); try (now destruct cl);
    try (now destruct cx).
  - f_equal. destruct ct as [ct|]; cbn [option_map truthy_opt] in *;
      [|reflexivity].
    now apply negb_true_iff in Ht as ->.
  - destruct ct as [ct|]; cbn [option_map truthy_opt] in *; [|discriminate].
    now apply negb_false_iff in Ht as ->.
Qed.

Lemma insert_dom (h : gmap (list N) (list N)) (k x : list N)
    (X : gset (list N)) :
  dom h ⊆ X -> k ∈ X -> dom (<[k := x]> h) ⊆ X.
Proof.
  intros Hh Hk y. rewrite dom_insert, elem_of_union, elem_of_singleton.
  intros [-> | Hy]; [exact Hk|now apply Hh].
Qed.

Lemma put_if_dom (h : gmap (list N) (list N)) (n : list N)
    (v : option (list N)) (X : gset (list N)) :
  dom h ⊆ X -> header_name n ∈ X -> dom (put_if n v h) ⊆ X.
Proof.
  intros Hh Hn. destruct v as [x|]; cbn [put_if]; [|exact Hh].
  now apply insert_dom.
Qed.

(** A served object has ten headers at most. *)
Lemma artifact_headers_size (obj : R2ObjectBody) (file : list N) :
  (size (artifact_headers obj file) <= 10)%nat.
Proof.
  set (X := list_to_set
              (List.map header_name
                 [ js "content-type"; js "content-language";
                   js "content-disposition"; js "content-encoding";
                   js "cache-control"; js "expires"; js "etag";
                   js "Access-Control-Allow-Origin";
                   js "Access-Control-Allow-Methods";
                   js "Access-Control-Allow-Headers" ]) : gset (list N)).
  assert (HX : (size X <= 10)%nat) by (vm_compute; lia).
  assert (Hin : forall k, bool_decide (k ∈ X) = true -> k ∈ X)
    by (intros k; apply bool_decide_eq_true_1).
  rewrite <- (size_dom (D := gset (list N))).
  etrans; [apply subseteq_size|exact HX].
  unfold artifact_headers, CORS_HEADERS. cbn [fold_left fst snd]. cbv zeta.
  destruct (negb _);
    repeat first [ apply insert_dom | apply put_if_dom ];
    try (apply Hin; vm_compute; reflexivity).
  all: rewrite dom_empty; apply empty_subseteq.
Qed.

(** ** Canonical keys *)

Lemma no_backslash_In (s : list N) :
  no_backslash s = true -> ~ In BACKSLASH s.
Proof.
  unfold no_backslash. rewrite forallb_forall. intros H Hin.
  specialize (H _ Hin). now rewrite N.eqb_refl in H.
Qed.

Lemma no_leading_slash_head (s : list N) :
  no_leading_slash s = true -> forall r, s <> SLASH :: r.
Proof.
  unfold no_leading_slash. intros H r ->.
  now rewrite startsWith_slash_cons, N.eqb_refl in H.
Qed.

Lemma no_slash_run_infix (s : list N) :
  no_slash_run s = true -> forall a b, s <> a ++ SLASH :: SLASH :: b.
Proof.
  intros H a. revert s H. induction a as [|c a IH]; intros s H b ->.
  - cbn [app no_slash_run] in H.
    now rewrite startsWith_slash_cons, N.eqb_refl in H.
  - cbn [app no_slash_run] in H. apply andb_true_iff in H as [_ H].
    now apply (IH _ H b).
Qed.

(** ** The segments of a key *)

Lemma separator_slash (c : N) :
  ((if c =? BACKSLASH then SLASH else c) =? SLASH) = separator c.
Proof.
  unfold separator. destruct (c =? BACKSLASH) eqn:E.
  - now rewrite orb_true_r.
  - now rewrite orb_false_r.
Qed.

Lemma separator_not_slash (c : N) : separator c = false -> (c =? SLASH) = false.
Proof. unfold separator. now intros [H _]%orb_false_iff. Qed.

Lemma mapped_separator (c : N) :
  separator c = true -> (if c =? BACKSLASH then SLASH else c) = SLASH.
Proof.
  unfold separator. destruct (c =? BACKSLASH); [reflexivity|].
  rewrite orb_false_r. now intros ->%N.eqb_eq.
Qed.

Lemma mapped_unit (c : N) :
  separator c = false -> (if c =? BACKSLASH then SLASH else c) = c.
Proof. unfold separator. now intros [_ ->]%orb_false_iff. Qed.

Lemma pieces_not_nil (s : list N) : pieces s <> [].
Proof.
  destruct s as [|c r]; [discriminate|]. cbn [pieces].
  destruct (separator c); [discriminate|]. now destruct (pieces r).
Qed.

Lemma pieces_split (a b : list N) (c : N) :
  separator c = true -> pieces (a ++ c :: b) = pieces a ++ pieces b.
Proof.
  intros Hc. induction a as [|d a IH]; cbn [app pieces].
  - now rewrite Hc.
  - destruct (separator d); [now rewrite IH|].
    rewrite IH. pose proof (pieces_not_nil a). now destruct (pieces a).
Qed.

Lemma key_segments_split (a b : list N) (c : N) :
  separator c = true ->
  key_segments (a ++ c :: b) = key_segments a ++ key_segments b.
Proof.
  intros Hc. unfold key_segments.
  now rewrite (pieces_split _ _ _ Hc), List.filter_app.
Qed.

(** The segments of the joined parts are the segments of the parts. *)
Lemma key_segments_join (parts : list (list N)) :
  key_segments (join (js "/") parts)
  = List.concat (List.map key_segments parts).
Proof.
  induction parts as [|p ps IH]; [reflexivity|].
  destruct ps as [|q qs].
  - cbn [join List.map List.concat]. now rewrite app_nil_r.
  - change (join (js "/") (p :: q :: qs))
      with (p ++ SLASH :: join (js "/") (q :: qs)).
    rewrite key_segments_split by reflexivity. now rewrite IH.
Qed.

Lemma key_segments_sep (c : N) (r : list N) :
  separator c = true -> key_segments (c :: r) = key_segments r.
Proof. intros Hc. unfold key_segments. cbn [pieces]. now rewrite Hc. Qed.

Lemma key_segments_unit (c : N) (r : list N) :
  separator c = false ->
  exists p rest,
    key_segments (c :: r) = (c :: p) :: rest
    /\ match r with
       | d :: _ =>
           if separator d then p = [] /\ key_segments r = rest
           else p <> [] /\ key_segments r = p :: rest
       | [] => p = [] /\ rest = []
       end.
Proof.
  intros Hc. unfold key_segments. cbn [pieces]. rewrite Hc.
  destruct r as [|d r'].
  - exists [], []. now cbn.
  - cbn [pieces]. destruct (separator d).
    + exists [], (List.filter nonempty (pieces r')). now cbn.
    + pose proof (pieces_not_nil r') as Hn.
      destruct (pieces r') as [|p0 ps]; [contradiction|].
      exists (d :: p0), (List.filter nonempty ps). now cbn.
Qed.

Lemma only_separators (r : list N) :
  key_segments r = [] -> r <> [] -> ends_with_separator r = true.
Proof.
  induction r as [|c r IH]; [contradiction|]. intros Hs _.
  destruct (separator c) eqn:Hc.
  - rewrite (key_segments_sep _ _ Hc) in Hs.
    destruct r as [|d r']; [exact Hc|].
    change (ends_with_separator (c :: d :: r'))
      with (ends_with_separator (d :: r')).
    now apply IH.
  - destruct (key_segments_unit c r Hc) as (p & rest & E & _).
    now rewrite E in Hs.
Qed.

Lemma ends_with_separator_cons (c d : N) (r : list N) :
  ends_with_separator (c :: d :: r) = ends_with_separator (d :: r).
Proof. reflexivity. Qed.

(** The recurrences of [separated] along a string. *)
Lemma separated_sep (c : N) (r : list N) :
  separator c = true ->
  separated (key_segments (c :: r)) (ends_with_separator (c :: r))
  = separated (key_segments r) (ends_with_separator r).
Proof.
  intros Hc. rewrite (key_segments_sep _ _ Hc).
  destruct r as [|d r']; [|now rewrite ends_with_separator_cons].
  cbn [ends_with_separator]. now rewrite Hc.
Qed.

Lemma separated_unit (c : N) (r : list N) :
  separator c = false ->
  separated (key_segments (c :: r)) (ends_with_separator (c :: r))
  = c :: (match r with
          | d :: _ => if separator d then [SLASH] else []
          | [] => []
          end)
      ++ separated (key_segments r) (ends_with_separator r).
Proof.
  intros Hc. destruct (key_segments_unit c r Hc) as (p & rest & E & Hr).
  rewrite E. destruct r as [|d r'].
  - destruct Hr as [-> ->]. cbn [ends_with_separator]. now rewrite Hc.
  - rewrite ends_with_separator_cons. destruct (separator d) eqn:Hd.
    + destruct Hr as [-> Er]. rewrite Er. unfold separated. cbn [andb].
      destruct rest as [|q qs].
      * rewrite (only_separators (d :: r')); [reflexivity| |discriminate].
        exact Er.
      * rewrite andb_true_r. reflexivity.
    + destruct Hr as [Hp Er]. rewrite Er. unfold separated.
      rewrite !andb_true_r.
      destruct p as [|p0 p']; [contradiction|]. now destruct rest.
Qed.

(** Collapsing the runs of slashes, after the backslashes have become
    slashes, leaves the segments with one slash between them, after one
    slash when the string starts with a separator. *)
Lemma collapse_runs_separated (s : list N) :
  collapse_runs (backslashes_to_slashes s)
  = (match s with
     | d :: _ => if separator d then [SLASH] else []
     | [] => []
     end)
    ++ separated (key_segments s) (ends_with_separator s).
Proof.
  induction s as [|c r IH]; [reflexivity|].
  change (backslashes_to_slashes (c :: r))
    with ((if c =? BACKSLASH then SLASH else c) :: backslashes_to_slashes r).
  cbn [collapse_runs]. rewrite separator_slash, IH.
  destruct (separator c) eqn:Hc.
  - rewrite (mapped_separator _ Hc), (separated_sep _ _ Hc). cbn [andb].
    destruct r as [|d r']; [reflexivity|].
    change (backslashes_to_slashes (d :: r'))
      with ((if d =? BACKSLASH then SLASH else d) :: backslashes_to_slashes r').
    rewrite startsWith_slash_cons, separator_slash.
    now destruct (separator d).
  - cbn [andb]. rewrite (mapped_unit _ Hc), (separated_unit _ _ Hc).
    reflexivity.
Qed.

(** The key is the segments of the parts, separated. *)
Lemma keyJoin_separated (parts : list (list N)) :
  keyJoin parts = separated_key parts.
Proof.
  unfold keyJoin, separated_key.
  rewrite collapse_first_redundant, collapse_runs_separated.
  rewrite <- key_segments_join.
  destruct (join (js "/") parts) as [|c r]; [reflexivity|].
  destruct (separator c) eqn:Hc.
  - cbn [app strip_leading_slash]. now rewrite N.eqb_refl.
  - rewrite (separated_unit _ _ Hc). cbn [app strip_leading_slash].
    now rewrite (separator_not_slash _ Hc).
Qed.

Lemma pieces_plain (s : list N) :
  Forall (fun p => forallb (fun c => negb (separator c)) p = true) (pieces s).
Proof.
  induction s as [|c r IH]; [now repeat constructor|]. cbn [pieces].
  destruct (separator c) eqn:Hc; [now constructor|].
  destruct (pieces r) as [|p ps]; [repeat constructor; cbn; now rewrite Hc|].
  inversion IH as [|? ? Hp Hps]; subst. constructor; [|exact Hps].
  cbn [forallb]. now rewrite Hc, Hp.
Qed.

(** A segment is not empty and holds no separator. *)
Lemma key_segments_plain (s p : list N) :
  In p (key_segments s) ->
  p <> [] /\ forallb (fun c => negb (separator c)) p = true.
Proof.
  unfold key_segments. rewrite List.filter_In. intros [Hin Hne]. split.
  - now destruct p.
  - pose proof (pieces_plain s) as H. rewrite List.Forall_forall in H.
    now apply H.
Qed.

Lemma pieces_plain_id (p : list N) :
  forallb (fun c => negb (separator c)) p = true -> pieces p = [p].
Proof.
  induction p as [|c r IH]; [reflexivity|]. cbn [forallb pieces].
  intros [Hc Hr]%andb_true_iff. apply negb_true_iff in Hc.
  now rewrite Hc, (IH Hr).
Qed.

Lemma key_segments_plain_id (p : list N) :
  p <> [] -> forallb (fun c => negb (separator c)) p = true ->
  key_segments p = [p].
Proof.
  intros Hne Hp. unfold key_segments. rewrite (pieces_plain_id _ Hp).
  now destruct p.
Qed.

(** Segments that are separated are found again. *)
Lemma key_segments_separated (segs : list (list N)) (trailing : bool) :
  (forall p, In p segs ->
             p <> [] /\ forallb (fun c => negb (separator c)) p = true) ->
  key_segments (separated segs trailing) = segs.
Proof.
  intros Hs. unfold separated.
  assert (E : key_segments (join (js "/") segs) = segs).
  { rewrite key_segments_join. clear trailing.
    induction segs as [|p ps IH]; [reflexivity|]. cbn [List.map List.concat].
    destruct (Hs p (or_introl eq_refl)) as [Hne Hp].
    rewrite (key_segments_plain_id _ Hne Hp), IH; [reflexivity|].
    intros q Hq. apply Hs. now right. }
  destruct (trailing && _); [|now rewrite app_nil_r].
  change (key_segments (join (js "/") segs ++ SLASH :: []) = segs).
  rewrite key_segments_split by reflexivity. rewrite E. apply app_nil_r.
Qed.

Lemma concat_segments_plain (parts : list (list N)) (p : list N) :
  In p (List.concat (List.map key_segments parts)) ->
  p <> [] /\ forallb (fun c => negb (separator c)) p = true.
Proof.
  rewrite <- key_segments_join. apply key_segments_plain.
Qed.

(** C3: [keyJoin] is a total function of its segments.  It leaves a canonical
    key unchanged, so it is idempotent; and the key it builds from any list
    of segments is canonical: it holds no backslash, does not start with a
    slash and has no two slashes in a row.  What it builds is determined by
    its input: the parts are cut at their slashes and backslashes, and the
    key is the non-empty segments so obtained, in order, with one forward
    slash between two of them (and one at the end when the joined parts end
    in a separator); the key has the segments of the parts and no other. *)
Theorem keyJoin_canonical_idempotent (parts : list (list N)) (k : list N) :
  (canonical k = true -> keyJoin [k] = k)
  /\ canonical (keyJoin parts) = true
  /\ keyJoin [keyJoin parts] = keyJoin parts
  /\ ~ In BACKSLASH (keyJoin parts)
  /\ (forall r, keyJoin parts <> SLASH :: r)
  /\ (forall a b, keyJoin parts <> a ++ SLASH :: SLASH :: b)
  /\ keyJoin parts = separated_key parts
  /\ key_segments (keyJoin parts) = List.concat (List.map key_segments parts).
Proof.
  pose proof (keyJoin_canonical parts) as Hc.
  split; [apply keyJoin_canonical_id|].
  split; [exact Hc|].
  split; [now apply keyJoin_canonical_id|].
  unfold canonical in Hc. apply andb_true_iff in Hc as [Hc Hrun].
  apply andb_true_iff in Hc as [Hb Hl].
  split; [now apply no_backslash_In|].
  split; [now apply no_leading_slash_head|].
  split; [now apply no_slash_run_infix|].
  split; [apply keyJoin_separated|].
  rewrite keyJoin_separated. unfold separated_key.
  apply key_segments_separated, concat_segments_plain.
Qed.

Lemma keyJoin_canonical_idempotent_witness :
  canonical (js "catalog/tools/x") = true
  /\ keyJoin [js "catalog/tools/x"] = js "catalog/tools/x"
  /\ keyJoin [js "catalog"; js "a\b"; js "//x/"; js "f"] = js "catalog/a/b/x/f"
  /\ canonical (keyJoin [js "catalog"; js "a\b"; js "//x/"; js "f"]) = true
  /\ key_segments (keyJoin [js "catalog"; js "a\b"; js "//x/"; js "f"])
     = [js "catalog"; js "a"; js "b"; js "x"; js "f"].
Proof.
  destruct (keyJoin_canonical_idempotent
              [js "catalog"; js "a\b"; js "//x/"; js "f"]
              (js "catalog/tools/x")) as (Hid & Hcan & _ & _ & _ & _ & _ & Hs).
  split; [reflexivity|].
  split; [apply Hid; reflexivity|].
  split; [reflexivity|]. split; [exact Hcan|].
  rewrite Hs. reflexivity.
Defined.

(** ** Requests on which the handler throws, and paths that share a key *)

(** C9: the handler is not total.  The path of [GET /%E0/registry.json]
    matches the registry pattern, its parameter [%E0] is a malformed escape,
    [decodeURIComponent] throws a [URIError] on it and so does the handler,
    whatever the platform and the stores: no response is returned. *)
Theorem fetch_throws_on_malformed_escape :
  exists req : Request,
    method req = js "GET"
    /\ pathname (url req) = js "/%E0/registry.json"
    /\ str_match (api_path (pathname (url req))) registry_re
       = Some [js "/%E0/registry.json"; js "%E0"]
    /\ decodeURIComponent (js "%E0") = Threw URIError
    /\ forall (pf : Platform) (env : Env),
         fetch pf req env = Threw URIError
         /\ forall r : Response, fetch pf req env <> Returned r.
Proof.
  exists (Demo.request "GET" "/%E0/registry.json").
  split; [reflexivity|]. split; [reflexivity|].
  split; [vm_compute; reflexivity|]. split; [reflexivity|].
  intros pf env.
  assert (H : fetch pf (Demo.request "GET" "/%E0/registry.json") env
              = Threw URIError).
  { rewrite fetch_classify.
    rewrite (classify_registry _ (js "%E0")); reflexivity. }
  split; [exact H|]. intros r. rewrite H. discriminate.
Qed.

(** C10: the key of an artifact does not determine its path.  The paths
    [/k/i/v%2Fextra/f] and [/k/i/v/extra/f] differ, both are artifact
    requests, and both are served from the key [catalog/k/i/v/extra/f]:
    the decoded version [v/extra] of the first brings a slash that [keyJoin]
    cannot tell from a separator. *)
Theorem artifact_key_not_injective :
  exists p1 p2 : list N,
    p1 = js "/k/i/v%2Fextra/f" /\ p2 = js "/k/i/v/extra/f" /\ p1 <> p2
    /\ classify {| method := js "GET";
                   url := {| origin := Demo.site; pathname := p1 |} |}
       = RArtifact (js "k") (js "i") (js "v%2Fextra") (js "f")
    /\ classify {| method := js "GET";
                   url := {| origin := Demo.site; pathname := p2 |} |}
       = RArtifact (js "k") (js "i") (js "v") (js "extra/f")
    /\ decodeURIComponent (js "v%2Fextra") = Returned (js "v/extra")
    /\ artifact_key (js "k") (js "i") (js "v/extra") (js "f")
       = js "catalog/k/i/v/extra/f"
    /\ artifact_key (js "k") (js "i") (js "v") (js "extra/f")
       = js "catalog/k/i/v/extra/f"
    /\ forall (pf : Platform) (env : Env),
         fetch pf {| method := js "GET";
                     url := {| origin := Demo.site; pathname := p1 |} |} env
         = fetch pf {| method := js "GET";
                       url := {| origin := Demo.site; pathname := p2 |} |} env.
Proof.
  exists (js "/k/i/v%2Fextra/f"), (js "/k/i/v/extra/f").
  split; [reflexivity|]. split; [reflexivity|]. split; [discriminate|].
  assert (C1 : classify (Demo.request "GET" "/k/i/v%2Fextra/f")
               = RArtifact (js "k") (js "i") (js "v%2Fextra") (js "f")).
  { apply classify_artifact; try reflexivity. discriminate. }
  assert (C2 : classify (Demo.request "GET" "/k/i/v/extra/f")
               = RArtifact (js "k") (js "i") (js "v") (js "extra/f")).
  { apply classify_artifact; try reflexivity. discriminate. }
  split; [exact C1|]. split; [exact C2|].
  split; [reflexivity|]. split; [vm_compute; reflexivity|].
  split; [vm_compute; reflexivity|].
  intros pf env.
  change {| method := js "GET";
            url := {| origin := Demo.site; pathname := js "/k/i/v%2Fextra/f" |} |}
    with (Demo.request "GET" "/k/i/v%2Fextra/f").
  change {| method := js "GET";
            url := {| origin := Demo.site; pathname := js "/k/i/v/extra/f" |} |}
    with (Demo.request "GET" "/k/i/v/extra/f").
  rewrite !fetch_classify, C1, C2. reflexivity.
Qed.

(** ** The cross-origin headers *)

Ltac cors_by_computation :=
  unfold has_cors; repeat split; vm_compute; reflexivity.

Section Cors.

Variable pf : Platform.

Lemma json_cors (data : jsvalue) (st : option N) :
  has_cors (json data st []).
Proof. cors_by_computation. Qed.

Lemma serveRegistry_cors (env : Env) (kind : list N) (r : Response) :
  serveRegistry env kind = Returned r -> has_cors r.
Proof.
  unfold serveRegistry. cbv zeta.
  destruct (CATALOG_INDEX env !! _) as [v|]; [|intros [= <-]; apply json_cors].
  destruct (negb (truthy_str v)); intros [= <-]; cors_by_computation.
Qed.

Lemma serveLatestAlias_cors (base : URL) (env : Env) (kind id file : list N)
    (r : Response) :
  serveLatestAlias pf base env kind id file = Returned r -> has_cors r.
Proof.
  unfold serveLatestAlias. cbv zeta.
  destruct (CATALOG_INDEX env !! _) as [text|];
    [|intros [= <-]; apply json_cors].
  destruct (negb (truthy_str text)); [intros [= <-]; apply json_cors|].
  destruct (JSON_parse _) as [latest|e]; [|intros [= <-]; apply json_cors].
  destruct (get_version latest) as [version|e]; [|discriminate].
  cbn [bind]. destruct (negb (truthy pf version));
    [intros [= <-]; apply json_cors|].
  destruct (encodeURIComponent kind) as [ek|e]; [|discriminate].
  destruct (encodeURIComponent id) as [ei|e]; [|discriminate].
  cbn [bind]. destruct (to_string pf _) as [sv|e]; [|discriminate].
  cbn [bind]. destruct (encodeURIComponent sv) as [ev|e]; [|discriminate].
  cbn [bind]. intros [= <-]. cors_by_computation.
Qed.

Lemma serveArtifact_cors (env : Env) (kind id version file : list N)
    (r : Response) :
  serveArtifact env kind id version file = Returned r -> has_cors r.
Proof.
  destruct (CATALOG_BUCKET env !! artifact_key kind id version file)
    as [obj|] eqn:H.
  - rewrite (serveArtifact_outcome _ _ _ _ _ _ H).
    destruct (metadata_ready obj); [|discriminate]. intros [= <-].
    destruct (artifact_headers_lookup obj file)
      as (_ & _ & _ & _ & _ & _ & _ & H1 & H2 & H3).
    cbv zeta in H1, H2, H3. unfold has_cors. cbn [headers]. auto.
  - unfold serveArtifact. cbv zeta. rewrite H. intros [= <-]. apply json_cors.
Qed.

Lemma dispatch_cors (req : Request) (env : Env) (route : Route)
    (r : Response) :
  dispatch pf req env route = Returned r -> has_cors r.
Proof.
  destruct route as [| |legacy| |k|k i f|k i v f|]; cbn [dispatch].
  - intros [= <-]. cors_by_computation.
  - intros [= <-]. cors_by_computation.
  - intros [= <-]. apply json_cors.
  - unfold handleIngest. destruct (negb _); intros [= <-]; apply json_cors.
  - destruct (decodeURIComponent k) as [kind|e]; [|discriminate].
    apply serveRegistry_cors.
  - destruct (decodeURIComponent k) as [kind|e]; [|discriminate].
    destruct (decodeURIComponent i) as [id|e]; [|discriminate].
    apply serveLatestAlias_cors.
  - destruct (decodeURIComponent k) as [kind|e]; [|discriminate].
    destruct (decodeURIComponent i) as [id|e]; [|discriminate].
    destruct (decodeURIComponent v) as [version|e]; [|discriminate].
    apply serveArtifact_cors.
  - intros [= <-]. apply json_cors.
Qed.

Lemma classify_options (req : Request) :
  method req = js "OPTIONS" -> classify req = ROptions.
Proof. intros H. unfold classify. cbv zeta. now rewrite H. Qed.

End Cors.

(** C7: every response of the worker, on every route and whether it is a
    success, a redirect or an error, carries the three cross-origin headers
    of [CORS_HEADERS]; and an [OPTIONS] request, on any path, is answered by
    a 204 without a body whose headers are those three and no other. *)
Theorem cors_on_every_response (pf : Platform) (req : Request) (env : Env) :
  (forall r : Response, fetch pf req env = Returned r -> has_cors r)
  /\ (method req = js "OPTIONS" ->
      exists r : Response,
        fetch pf req env = Returned r
        /\ status r = 204 /\ body r = BodyNull
        /\ has_cors r /\ size (headers r) = 3%nat).
Proof.
  split.
  - intros r. rewrite fetch_classify. apply dispatch_cors.
  - intros Hm. rewrite fetch_classify, (classify_options _ Hm).
    eexists. split; [reflexivity|].
    split; [reflexivity|]. split; [reflexivity|].
    split; [cors_by_computation|vm_compute; reflexivity].
Qed.

Lemma cors_on_every_response_witness :
  (exists r : Response,
     fetch Demo.platform (Demo.request "OPTIONS" "/any/path") Demo.empty_env
     = Returned r /\ status r = 204 /\ body r = BodyNull /\ has_cors r
     /\ size (headers r) = 3%nat)
  /\ has_cors notFound
  /\ fetch Demo.platform (Demo.request "DELETE" "/tools/registry.json")
       Demo.empty_env = Returned notFound.
Proof.
  destruct (cors_on_every_response Demo.platform
              (Demo.request "OPTIONS" "/any/path") Demo.empty_env) as [_ Ho].
  destruct (cors_on_every_response Demo.platform
              (Demo.request "DELETE" "/tools/registry.json") Demo.empty_env)
    as [Hc _].
  split; [apply Ho; reflexivity|].
  split; [apply Hc; vm_compute; reflexivity|vm_compute; reflexivity].
Defined.

(** ** The order of the patterns *)

(** A request reaches the artifact resolver only through the last test. *)
Lemma classify_artifact_inv (req : Request) (k i v f : list N) :
  classify req = RArtifact k i v f ->
  let a := api_path (pathname (url req)) in
  method req = js "GET"
  /\ str_match a registry_re = None
  /\ str_match a latest_re = None
  /\ str_match a artifact_re = Some [a; k; i; v; f].
Proof.
  unfold classify. cbv zeta.
  destruct (str_eqb (method req) (js "OPTIONS")); [discriminate|].
  destruct (root_path _); [discriminate|].
  destruct (str_eqb (api_path _) (js "/_health")); [discriminate|].
  destruct (str_eqb (api_path _) (js "/_ingest/github")
            && str_eqb (method req) (js "POST")); [discriminate|].
  destruct (str_eqb (method req) (js "GET")) eqn:Hm.
  - apply str_eqb_eq in Hm.
    destruct (str_match _ registry_re) as [m1|]; [discriminate|].
    destruct (str_match _ latest_re) as [m2|]; [discriminate|].
    destruct (str_match _ artifact_re) as [m3|] eqn:E; [|discriminate].
    intros H. apply str_match_artifact_inv in E
      as (k' & i' & v' & f' & _ & _ & _ & _ & Hp & ->).
    cbn [nth] in H. injection H as -> -> -> ->. now rewrite Hp.
  - destruct (str_match _ registry_re) as [m1|];
      destruct (str_match _ latest_re) as [m2|];
      destruct (str_match _ artifact_re) as [m3|]; discriminate.
Qed.

(** C6: the patterns are tried in order and one route is chosen.  On a GET
    request whose path, after the legacy prefix is removed, has the registry
    shape the registry route is taken; on the latest shape the latest route
    is taken, although the artifact pattern matches that path too (with
    [latest] as the version); and when the artifact route is taken, on a
    path of at least four parts, neither of the two patterns before it
    matched.  The handler is the dispatch of the chosen route. *)
Theorem route_matching_ordered (pf : Platform) (req : Request) (env : Env) :
  let a := api_path (pathname (url req)) in
  fetch pf req env = dispatch pf req env (classify req)
  /\ (forall k,
        method req = js "GET" -> a = registry_path k -> is_segment k = true ->
        classify req = RRegistry k)
  /\ (forall k i f,
        method req = js "GET" -> a = latest_path k i f ->
        is_segment k = true -> is_segment i = true -> is_rest f = true ->
        classify req = RLatest k i f
        /\ str_match a artifact_re = Some [a; k; i; js "latest"; f])
  /\ (forall k i v f,
        classify req = RArtifact k i v f ->
        method req = js "GET"
        /\ a = artifact_path k i v f
        /\ str_match a registry_re = None
        /\ str_match a latest_re = None).
Proof.
  cbv zeta. split; [apply fetch_classify|].
  split; [intros k Hm Ha Hk; now apply classify_registry|].
  split.
  - intros k i f Hm Ha Hk Hi Hf.
    split; [now apply classify_latest|].
    rewrite Ha. now apply str_match_latest_as_artifact.
  - intros k i v f Hc. apply classify_artifact_inv in Hc as (Hm & Hr & Hl & Ha).
    pose proof Ha as Ha'.
    apply str_match_artifact_inv in Ha'
      as (k' & i' & v' & f' & _ & _ & _ & _ & Hp & Hm').
    injection Hm' as <- <- <- <-. now repeat split.
Qed.

Lemma route_matching_ordered_witness :
  classify (Demo.request "GET" "/catalog/tools/registry.json")
  = RRegistry (js "tools")
  /\ classify (Demo.request "GET" "/tools/x/latest/pkg.tar.gz")
     = RLatest (js "tools") (js "x") (js "pkg.tar.gz")
  /\ str_match (js "/tools/x/latest/pkg.tar.gz") artifact_re
     = Some [js "/tools/x/latest/pkg.tar.gz"; js "tools"; js "x"; js "latest";
             js "pkg.tar.gz"]
  /\ str_match (js "/tools/x/1.0.0/pkg.tar.gz") latest_re = None.
Proof.
  destruct (route_matching_ordered Demo.platform
              (Demo.request "GET" "/catalog/tools/registry.json")
              Demo.empty_env) as (_ & Hreg & _).
  destruct (route_matching_ordered Demo.platform
              (Demo.request "GET" "/tools/x/latest/pkg.tar.gz")
              Demo.empty_env) as (_ & _ & Hlat & _).
  destruct (route_matching_ordered Demo.platform
              (Demo.request "GET" "/tools/x/1.0.0/pkg.tar.gz")
              Demo.empty_env) as (_ & _ & _ & Hart).
  split; [apply Hreg; reflexivity|].
  destruct (Hlat (js "tools") (js "x") (js "pkg.tar.gz")) as [H1 H2];
    try reflexivity.
  split; [exact H1|]. split; [exact H2|].
  destruct (Hart (js "tools") (js "x") (js "1.0.0") (js "pkg.tar.gz"))
    as (_ & _ & _ & H4); [vm_compute; reflexivity|exact H4].
Defined.

(** ** The three resolvers behind their shapes *)

Section Resolvers.

Variable pf : Platform.

Lemma fetch_registry (req : Request) (env : Env) (k kind : list N) :
  method req = js "GET" ->
  api_path (pathname (url req)) = registry_path k ->
  is_segment k = true ->
  decodeURIComponent k = Returned kind ->
  fetch pf req env = serveRegistry env kind.
Proof.
  intros Hm Ha Hk Hd.
  rewrite fetch_classify, (classify_registry _ _ Hm Ha Hk).
  cbn [dispatch]. now rewrite Hd.
Qed.

Lemma fetch_latest (req : Request) (env : Env) (k i f kind id : list N) :
  method req = js "GET" ->
  api_path (pathname (url req)) = latest_path k i f ->
  is_segment k = true -> is_segment i = true -> is_rest f = true ->
  decodeURIComponent k = Returned kind ->
  decodeURIComponent i = Returned id ->
  fetch pf req env = serveLatestAlias pf (url req) env kind id f.
Proof.
  intros Hm Ha Hk Hi Hf Hdk Hdi.
  rewrite fetch_classify, (classify_latest _ _ _ _ Hm Ha Hk Hi Hf).
  cbn [dispatch]. now rewrite Hdk, Hdi.
Qed.

Lemma fetch_artifact (req : Request) (env : Env)
    (k i v f kind id version : list N) :
  method req = js "GET" ->
  api_path (pathname (url req)) = artifact_path k i v f ->
  is_segment k = true -> is_segment i = true -> is_segment v = true ->
  is_rest f = true -> v <> js "latest" ->
  decodeURIComponent k = Returned kind ->
  decodeURIComponent i = Returned id ->
  decodeURIComponent v = Returned version ->
  fetch pf req env = serveArtifact env kind id version f.
Proof.
  intros Hm Ha Hk Hi Hv Hf Hne Hdk Hdi Hdv.
  rewrite fetch_classify, (classify_artifact _ _ _ _ _ Hm Ha Hk Hi Hv Hf Hne).
  cbn [dispatch]. now rewrite Hdk, Hdi, Hdv.
Qed.

End Resolvers.

(** A served artifact, when every stored string is accepted as a header
    value: the etag and the content type are the stored ones, normalised;
    the fallback stands in for a content type that is not stored, or is
    empty once normalised. *)
Lemma serveArtifact_found (env : Env) (kind id version file : list N)
    (obj : R2ObjectBody) :
  CATALOG_BUCKET env !! artifact_key kind id version file = Some obj ->
  metadata_ready obj = true ->
  exists r : Response,
    serveArtifact env kind id version file = Returned r
    /\ status r = 200
    /\ body r = BodyStream (r2_body obj)
    /\ headers_get (headers r) (js "etag")
       = Some (normalize_value (httpEtag obj))
    /\ headers_get (headers r) (js "cache-control")
       = Some (js "public, max-age=31536000, immutable")
    /\ headers_get (headers r) (js "content-type")
       = Some match option_map normalize_value (contentType (httpMetadata obj))
              with
              | Some ct => if truthy_str ct then ct else fallback_content_type file
              | None => fallback_content_type file
              end.
Proof.
  intros H Hok. rewrite (serveArtifact_outcome _ _ _ _ _ _ H), Hok.
  eexists. split; [reflexivity|].
  destruct (artifact_headers_lookup obj file) as (He & Hc & Ht & _).
  cbv zeta in He, Hc, Ht. cbn [status body headers]. auto.
Qed.

(** A stored string that is refused makes the resolver throw. *)
Lemma serveArtifact_refused (env : Env) (kind id version file : list N)
    (obj : R2ObjectBody) :
  CATALOG_BUCKET env !! artifact_key kind id version file = Some obj ->
  metadata_ready obj = false ->
  serveArtifact env kind id version file = Threw TypeError.
Proof.
  intros H Hok. now rewrite (serveArtifact_outcome _ _ _ _ _ _ H), Hok.
Qed.

Lemma fallback_content_type_cases (file : list N) :
  (endsWith file (js ".json") = true ->
   fallback_content_type file = js "application/json; charset=utf-8")
  /\ (endsWith file (js ".json") = false ->
      endsWith file (js ".yaml") || endsWith file (js ".yml") = true ->
      fallback_content_type file = js "text/yaml; charset=utf-8")
  /\ (endsWith file (js ".json") = false ->
      endsWith file (js ".yaml") = false ->
      endsWith file (js ".yml") = false ->
      fallback_content_type file = js "application/octet-stream").
Proof.
  unfold fallback_content_type. repeat split.
  - now intros ->.
  - now intros -> ->.
  - now intros -> -> ->.
Qed.

(** The claim fails on stored metadata that [headers.set] does not take as
    it is.  The store can provide a content type and the fallback be given
    all the same: a stored type of two spaces is empty once normalised, and
    [config.yaml] is served as [text/yaml].  And the store can hold an
    object and no response carry its etag: a stored type with a line feed
    inside is refused, and the handler throws. *)
Lemma artifact_metadata_not_taken :
  (contentType (httpMetadata Demo.blank_type_object) = Some (js "  ")
   /\ exists r : Response,
        fetch Demo.platform (Demo.request "GET" "/tools/x/1.0.0/config.yaml")
          (Demo.bucket_env (js "catalog/tools/x/1.0.0/config.yaml")
             Demo.blank_type_object) = Returned r
        /\ headers_get (headers r) (js "content-type")
           = Some (js "text/yaml; charset=utf-8"))
  /\ (CATALOG_BUCKET
        (Demo.bucket_env (js "catalog/tools/x/1.0.0/config.yaml")
           Demo.line_feed_object)
      !! keyJoin [js "catalog"; js "tools"; js "x"; js "1.0.0"; js "config.yaml"]
      = Some Demo.line_feed_object
      /\ fetch Demo.platform (Demo.request "GET" "/tools/x/1.0.0/config.yaml")
           (Demo.bucket_env (js "catalog/tools/x/1.0.0/config.yaml")
              Demo.line_feed_object) = Threw TypeError).
Proof.
  split; [split; [reflexivity|]|split; [reflexivity|]].
  - eexists. split; [vm_compute; reflexivity|]. vm_compute. reflexivity.
  - vm_compute. reflexivity.
Qed.

(** C4, amended: an artifact request [GET /kind/id/version/file] (its
    version segment is not [latest], which is the alias) is answered from
    the bucket at the key joined from [catalog], the decoded kind, id and
    version, and the file (on clean parameters,
    [catalog/kind/id/version/file]).  Without an object there the response
    is 404.  With one whose etag and stored metadata are all accepted as
    header values, the response is a 200 with the object as body, the etag
    of the store, the cache directive [public, max-age=31536000, immutable]
    and the stored content type, each as [headers.set] normalises it; only
    when no content type is stored, or one that is empty once normalised, is
    it the fallback, chosen in order: [.json], then [.yaml] or [.yml], then
    the octet stream.  A value without whitespace around it is its own
    normal form. *)
Theorem artifact_response (pf : Platform) (req : Request) (env : Env)
    (k i v f kind id version : list N) :
  method req = js "GET" ->
  api_path (pathname (url req)) = artifact_path k i v f ->
  is_segment k = true -> is_segment i = true -> is_segment v = true ->
  is_rest f = true -> v <> js "latest" ->
  decodeURIComponent k = Returned kind ->
  decodeURIComponent i = Returned id ->
  decodeURIComponent v = Returned version ->
  let key := keyJoin [js "catalog"; kind; id; version; f] in
  (CATALOG_BUCKET env !! key = None ->
   fetch pf req env = Returned notFound /\ status notFound = 404)
  /\ (forall obj : R2ObjectBody,
        CATALOG_BUCKET env !! key = Some obj ->
        metadata_ready obj = true ->
        exists r : Response,
          fetch pf req env = Returned r
          /\ status r = 200
          /\ body r = BodyStream (r2_body obj)
          /\ headers_get (headers r) (js "etag")
             = Some (normalize_value (httpEtag obj))
          /\ headers_get (headers r) (js "cache-control")
             = Some (js "public, max-age=31536000, immutable")
          /\ headers_get (headers r) (js "content-type")
             = Some match option_map normalize_value
                            (contentType (httpMetadata obj)) with
                    | Some ct =>
                        if truthy_str ct then ct else fallback_content_type f
                    | None => fallback_content_type f
                    end)
  /\ (forall (c : N) (s : list N),
        http_whitespace c = false ->
        http_whitespace (List.last s c) = false ->
        normalize_value (c :: s) = c :: s)
  /\ (canonical (js "catalog/" ++ kind ++ js "/" ++ id ++ js "/" ++ version
                   ++ js "/" ++ f) = true ->
      key = js "catalog/" ++ kind ++ js "/" ++ id ++ js "/" ++ version
              ++ js "/" ++ f)
  /\ (endsWith f (js ".json") = true ->
      fallback_content_type f = js "application/json; charset=utf-8")
  /\ (endsWith f (js ".json") = false ->
      endsWith f (js ".yaml") || endsWith f (js ".yml") = true ->
      fallback_content_type f = js "text/yaml; charset=utf-8")
  /\ (endsWith f (js ".json") = false ->
      endsWith f (js ".yaml") = false -> endsWith f (js ".yml") = false ->
      fallback_content_type f = js "application/octet-stream").
Proof.
  intros Hm Ha Hk Hi Hv Hf Hne Hdk Hdi Hdv key.
  rewrite (fetch_artifact pf req env k i v f kind id version) by assumption.
  split; [|split; [|split; [|split; [|apply fallback_content_type_cases]]]].
  - intros Hnone. unfold serveArtifact. cbv zeta.
    unfold artifact_key. fold key. rewrite Hnone. now split.
  - intros obj Hobj Hok. now apply serveArtifact_found.
  - apply normalize_value_trimmed.
  - intros Hc. subst key. now rewrite keyJoin_join.
Qed.

Lemma artifact_response_witness :
  fetch Demo.platform (Demo.request "GET" "/tools/x/1.0.0/config.yaml")
    Demo.empty_env = Returned notFound
  /\ (exists r : Response,
        fetch Demo.platform (Demo.request "GET" "/tools/x/1.0.0/config.yaml")
          (Demo.bucket_env (js "catalog/tools/x/1.0.0/config.yaml")
             Demo.bare_object) = Returned r
        /\ status r = 200
        /\ headers_get (headers r) (js "etag") = Some (jsq "'5d41402a'")
        /\ headers_get (headers r) (js "cache-control")
           = Some (js "public, max-age=31536000, immutable")
        /\ headers_get (headers r) (js "content-type")
           = Some (js "text/yaml; charset=utf-8"))
  /\ (exists r : Response,
        fetch Demo.platform (Demo.request "GET" "/tools/x/1.0.0/config.yaml")
          (Demo.bucket_env (js "catalog/tools/x/1.0.0/config.yaml")
             Demo.typed_object) = Returned r
        /\ headers_get (headers r) (js "cache-control")
           = Some (js "public, max-age=31536000, immutable")
        /\ headers_get (headers r) (js "content-type")
           = Some (js "text/plain"))
  /\ (exists r : Response,
        fetch Demo.platform (Demo.request "GET" "/tools/x/1.0.0/config.yaml")
          (Demo.bucket_env (js "catalog/tools/x/1.0.0/config.yaml")
             Demo.blank_type_object) = Returned r
        /\ headers_get (headers r) (js "content-type")
           = Some (js "text/yaml; charset=utf-8")).
Proof.
  assert (Hne : js "1.0.0" <> js "latest") by discriminate.
  pose proof (fun env =>
    artifact_response Demo.platform
      (Demo.request "GET" "/tools/x/1.0.0/config.yaml") env
      (js "tools") (js "x") (js "1.0.0") (js "config.yaml")
      (js "tools") (js "x") (js "1.0.0")
      eq_refl eq_refl eq_refl eq_refl eq_refl eq_refl Hne
      eq_refl eq_refl eq_refl) as T.
  cbv zeta in T.
  destruct (T Demo.empty_env) as (Habsent & _).
  destruct (T (Demo.bucket_env (js "catalog/tools/x/1.0.0/config.yaml")
                 Demo.bare_object)) as (_ & Hbare & _).
  destruct (T (Demo.bucket_env (js "catalog/tools/x/1.0.0/config.yaml")
                 Demo.typed_object)) as (_ & Htyped & _).
  destruct (T (Demo.bucket_env (js "catalog/tools/x/1.0.0/config.yaml")
                 Demo.blank_type_object)) as (_ & Hblank & _).
  split; [apply Habsent; reflexivity|]. split; [|split].
  - destruct (Hbare Demo.bare_object eq_refl eq_refl)
      as (r & Hr & Hs & _ & He & Hc & Ht).
    exists r. split; [exact Hr|]. split; [exact Hs|]. split; [exact He|].
    split; [exact Hc|]. rewrite Ht. reflexivity.
  - destruct (Htyped Demo.typed_object eq_refl eq_refl)
      as (r & Hr & _ & _ & _ & Hc & Ht).
    exists r. split; [exact Hr|]. split; [exact Hc|]. rewrite Ht. reflexivity.
  - destruct (Hblank Demo.blank_type_object eq_refl eq_refl)
      as (r & Hr & _ & _ & _ & _ & Ht).
    exists r. split; [exact Hr|]. rewrite Ht. reflexivity.
Defined.

(** ** Which parameters are decoded *)

(** The file parameter is used as it stands in the path.  For
    [GET /k/i/v/a%20b.txt] an object stored under the decoded name
    [a b.txt] is not found, one stored under [a%20b.txt] is served. *)
Lemma file_parameter_not_decoded :
  decodeURIComponent (js "a%20b.txt") = Returned (js "a b.txt")
  /\ classify (Demo.request "GET" "/k/i/v/a%20b.txt")
     = RArtifact (js "k") (js "i") (js "v") (js "a%20b.txt")
  /\ fetch Demo.platform (Demo.request "GET" "/k/i/v/a%20b.txt")
       (Demo.bucket_env (js "catalog/k/i/v/a b.txt") Demo.bare_object)
     = Returned notFound
  /\ exists r : Response,
       fetch Demo.platform (Demo.request "GET" "/k/i/v/a%20b.txt")
         (Demo.bucket_env (js "catalog/k/i/v/a%20b.txt") Demo.bare_object)
       = Returned r
       /\ status r = 200 /\ body r = BodyStream (r2_body Demo.bare_object).
Proof.
  split; [reflexivity|]. split; [vm_compute; reflexivity|].
  split; [vm_compute; reflexivity|].
  eexists. split; [vm_compute; reflexivity|]. split; reflexivity.
Qed.

(** C5, amended: the kind, the id and the version of a matched route are
    percent-decoded before they are used; the file is not: it goes
    undecoded into the artifact key and into the redirect.  The patterns are
    matched on the raw path, whose segments are the raw parameters. *)
Theorem parameters_decoded_except_file (pf : Platform) (req : Request)
    (env : Env) :
  method req = js "GET" ->
  let a := api_path (pathname (url req)) in
  (forall k kind,
     a = registry_path k -> is_segment k = true ->
     decodeURIComponent k = Returned kind ->
     fetch pf req env = serveRegistry env kind)
  /\ (forall k i f kind id,
        a = latest_path k i f ->
        is_segment k = true -> is_segment i = true -> is_rest f = true ->
        decodeURIComponent k = Returned kind ->
        decodeURIComponent i = Returned id ->
        fetch pf req env = serveLatestAlias pf (url req) env kind id f)
  /\ (forall k i v f kind id version,
        a = artifact_path k i v f ->
        is_segment k = true -> is_segment i = true -> is_segment v = true ->
        is_rest f = true -> v <> js "latest" ->
        decodeURIComponent k = Returned kind ->
        decodeURIComponent i = Returned id ->
        decodeURIComponent v = Returned version ->
        fetch pf req env = serveArtifact env kind id version f
        /\ artifact_key kind id version f
           = keyJoin [js "catalog"; kind; id; version; f]).
Proof.
  intros Hm a. split; [|split].
  - intros k kind Ha Hk Hd. now apply (fetch_registry pf req env k).
  - intros k i f kind id Ha Hk Hi Hf Hdk Hdi.
    now apply (fetch_latest pf req env k i f).
  - intros k i v f kind id version Ha Hk Hi Hv Hf Hne Hdk Hdi Hdv.
    split; [now apply (fetch_artifact pf req env k i v f)|reflexivity].
Qed.

Lemma parameters_decoded_except_file_witness :
  fetch Demo.platform (Demo.request "GET" "/my%20kind/i/v%2B1/a%20b.txt")
    (Demo.bucket_env (js "catalog/my kind/i/v+1/a%20b.txt") Demo.bare_object)
  = serveArtifact
      (Demo.bucket_env (js "catalog/my kind/i/v+1/a%20b.txt") Demo.bare_object)
      (js "my kind") (js "i") (js "v+1") (js "a%20b.txt")
  /\ artifact_key (js "my kind") (js "i") (js "v+1") (js "a%20b.txt")
     = js "catalog/my kind/i/v+1/a%20b.txt".
Proof.
  assert (Hne : js "v%2B1" <> js "latest") by discriminate.
  destruct (parameters_decoded_except_file Demo.platform
              (Demo.request "GET" "/my%20kind/i/v%2B1/a%20b.txt")
              (Demo.bucket_env (js "catalog/my kind/i/v+1/a%20b.txt")
                 Demo.bare_object) eq_refl) as (_ & _ & Hart).
  destruct (Hart (js "my%20kind") (js "i") (js "v%2B1") (js "a%20b.txt")
              (js "my kind") (js "i") (js "v+1")
              eq_refl eq_refl eq_refl eq_refl eq_refl Hne
              eq_refl eq_refl eq_refl) as [H1 H2].
  split; [exact H1|]. rewrite H2. vm_compute. reflexivity.
Defined.

(** ** The latest alias *)

Lemma is_ascii_app (a b : list N) :
  is_ascii (a ++ b) = is_ascii a && is_ascii b.
Proof. unfold is_ascii. apply forallb_app. Qed.

Lemma is_ascii_drop (n : nat) (s : list N) :
  is_ascii s = true -> is_ascii (drop n s) = true.
Proof.
  revert s. induction n as [|n IH]; intros s H; [now rewrite drop_0|].
  destruct s as [|c r]; [reflexivity|]. cbn [drop].
  apply IH. cbn [is_ascii forallb] in H. now apply andb_true_iff in H as [_ H].
Qed.

Lemma is_ascii_api_path (p : list N) :
  is_ascii p = true -> is_ascii (api_path p) = true.
Proof.
  intros H. unfold api_path, slice_from.
  destruct (startsWith p _); [now apply is_ascii_drop|exact H].
Qed.

Lemma is_ascii_latest_path (k i f : list N) :
  is_ascii (latest_path k i f) = true -> is_ascii k = true /\ is_ascii i = true.
Proof.
  rewrite latest_path_eq. intros H.
  change (SLASH :: k ++ SLASH :: i ++ SLASH :: js "latest" ++ SLASH :: f)
    with ([SLASH] ++ k ++ [SLASH] ++ i ++ SLASH :: js "latest" ++ SLASH :: f) in H.
  rewrite !is_ascii_app in H.
  apply andb_true_iff in H as [_ H]. apply andb_true_iff in H as [Hk H].
  apply andb_true_iff in H as [_ H]. now apply andb_true_iff in H as [Hi _].
Qed.

Lemma JSON_parse_truthy (text : list N) (v : jsvalue) :
  JSON_parse text = Returned v -> truthy_str text = true.
Proof. destruct text; [discriminate|reflexivity]. Qed.

Section Latest.

Variable pf : Platform.

Lemma serveLatestAlias_redirect (base : URL) (env : Env)
    (kind id file text : list N) (ms : list (list N * jsvalue))
    (v ek ei ev : list N) :
  CATALOG_INDEX env !! keyJoin [js "catalog"; kind; id; js "latest.json"]
  = Some text ->
  JSON_parse text = Returned (JObj ms) ->
  member (js "version") ms = Some (JStr v) ->
  v <> [] ->
  encodeURIComponent kind = Returned ek ->
  encodeURIComponent id = Returned ei ->
  encodeURIComponent v = Returned ev ->
  serveLatestAlias pf base env kind id file
  = Returned
      (redirect_to
         (URL_href pf
            (js "/" ++ ek ++ js "/" ++ ei ++ js "/" ++ ev ++ js "/" ++ file)
            (origin base))).
Proof.
  intros Hkv Hp Hm Hv Hk Hi He. unfold serveLatestAlias. cbv zeta.
  rewrite Hkv, (JSON_parse_truthy _ _ Hp). cbn [negb]. rewrite Hp.
  cbn [get_version bind]. rewrite Hm. cbn [truthy].
  destruct v as [|c v']; [contradiction|]. cbn [truthy_str negb].
  rewrite Hk, Hi. cbn [bind to_string value_to_string]. rewrite He.
  reflexivity.
Qed.

End Latest.

Lemma redirect_to_fields (location : list N) :
  status (redirect_to location) = 302
  /\ body (redirect_to location) = BodyNull
  /\ headers_get (headers (redirect_to location)) (js "location")
     = Some location
  /\ headers_get (headers (redirect_to location)) (js "cache-control")
     = Some (js "public, max-age=30").
Proof. repeat split; vm_compute; reflexivity. Qed.

(** The claim fails on a pointer whose version is not well-formed UTF-16.
    The stored text below is an object with the non-empty string version
    [\ud800], a lone surrogate; [encodeURIComponent] throws on it and the
    handler returns no response. *)
Lemma latest_alias_lone_surrogate :
  JSON_parse (jsq "{'version':'\ud800'}")
  = Returned (JObj [(js "version", JStr [55296])])
  /\ classify (Demo.request "GET" "/tools/x/latest/pkg.tar.gz")
     = RLatest (js "tools") (js "x") (js "pkg.tar.gz")
  /\ fetch Demo.platform (Demo.request "GET" "/tools/x/latest/pkg.tar.gz")
       (Demo.index_env (js "catalog/tools/x/latest.json")
          (jsq "{'version':'\ud800'}"))
     = Threw URIError.
Proof. repeat split; vm_compute; reflexivity. Qed.

(** C1, amended: a latest-alias request [GET /kind/id/latest/file], with or
    without the legacy prefix, whose pointer holds an object with a
    non-empty, well-formed string [version] is answered by a 302 with the
    cache directive [public, max-age=30].  Its location is the reference
    [/enc(kind)/enc(id)/enc(version)/file], each of the three encoded on its
    own and the file as it came, resolved against the origin of the request;
    the legacy prefix is not part of it. *)
Theorem latest_alias_redirect (pf : Platform) (req : Request) (env : Env)
    (k i f kind id text : list N) (ms : list (list N * jsvalue)) (v : list N) :
  method req = js "GET" ->
  is_ascii (pathname (url req)) = true ->
  api_path (pathname (url req)) = latest_path k i f ->
  is_segment k = true -> is_segment i = true -> is_rest f = true ->
  decodeURIComponent k = Returned kind ->
  decodeURIComponent i = Returned id ->
  CATALOG_INDEX env !! keyJoin [js "catalog"; kind; id; js "latest.json"]
  = Some text ->
  JSON_parse text = Returned (JObj ms) ->
  member (js "version") ms = Some (JStr v) ->
  v <> [] ->
  well_formed v = true ->
  exists (ek ei ev : list N) (r : Response),
    encodeURIComponent kind = Returned ek
    /\ encodeURIComponent id = Returned ei
    /\ encodeURIComponent v = Returned ev
    /\ fetch pf req env = Returned r
    /\ status r = 302
    /\ body r = BodyNull
    /\ headers_get (headers r) (js "location")
       = Some (URL_href pf
                 (js "/" ++ ek ++ js "/" ++ ei ++ js "/" ++ ev ++ js "/" ++ f)
                 (origin (url req)))
    /\ headers_get (headers r) (js "cache-control")
       = Some (js "public, max-age=30")
    /\ has_cors r.
Proof.
  intros Hm Hascii Ha Hk Hi Hf Hdk Hdi Hkv Hp Hmem Hv Hwf.
  pose proof (is_ascii_api_path _ Hascii) as Hapi. rewrite Ha in Hapi.
  apply is_ascii_latest_path in Hapi as [Hak Hai].
  destruct (encode_decoded _ _ Hak Hdk) as [ek Hek].
  destruct (encode_decoded _ _ Hai Hdi) as [ei Hei].
  destruct (encode_well_formed _ Hwf) as [ev Hev].
  exists ek, ei, ev. eexists.
  split; [exact Hek|]. split; [exact Hei|]. split; [exact Hev|].
  split.
  - rewrite (fetch_latest pf req env k i f kind id) by assumption.
    rewrite (serveLatestAlias_redirect pf (url req) env kind id f text ms
               v ek ei ev) by assumption.
    reflexivity.
  - destruct (redirect_to_fields
                (URL_href pf
                   (js "/" ++ ek ++ js "/" ++ ei ++ js "/" ++ ev ++ js "/" ++ f)
                   (origin (url req)))) as (H1 & H2 & H3 & H4).
    repeat split; try assumption; vm_compute; reflexivity.
Qed.

Lemma latest_alias_redirect_witness :
  exists r : Response,
    fetch Demo.platform
      (Demo.request "GET" "/catalog/tools/x/latest/pkg.tar.gz")
      (Demo.index_env (js "catalog/tools/x/latest.json")
         (jsq "{'version':'2.1.0'}"))
    = Returned r
    /\ status r = 302
    /\ headers_get (headers r) (js "location")
       = Some (URL_href Demo.platform (js "/tools/x/2.1.0/pkg.tar.gz") Demo.site)
    /\ headers_get (headers r) (js "cache-control")
       = Some (js "public, max-age=30").
Proof.
  assert (Hv : js "2.1.0" <> []) by discriminate.
  destruct (latest_alias_redirect Demo.platform
              (Demo.request "GET" "/catalog/tools/x/latest/pkg.tar.gz")
              (Demo.index_env (js "catalog/tools/x/latest.json")
                 (jsq "{'version':'2.1.0'}"))
              (js "tools") (js "x") (js "pkg.tar.gz") (js "tools") (js "x")
              (jsq "{'version':'2.1.0'}")
              [(js "version", JStr (js "2.1.0"))] (js "2.1.0")
              eq_refl eq_refl eq_refl eq_refl eq_refl eq_refl eq_refl eq_refl
              eq_refl eq_refl eq_refl Hv eq_refl)
    as (ek & ei & ev & r & Hek & Hei & Hev & Hr & Hs & _ & Hl & Hc & _).
  injection Hek as <-. injection Hei as <-. injection Hev as <-.
  exists r. split; [exact Hr|]. split; [exact Hs|]. split; [exact Hl|exact Hc].
Defined.

(** ** A missing pointer and a corrupt pointer *)

Section Pointer.

Variable pf : Platform.

Lemma lacks_version_invalid (latest : jsvalue) :
  lacks_version latest = true ->
  exists version,
    get_version latest = Returned version /\ truthy pf version = false.
Proof.
  destruct latest as [|b|l|s|vs|ms]; cbn [lacks_version get_version];
    try discriminate; try (intros _; now exists None).
  unfold has_member. destruct (member (js "version") ms) eqn:E;
    [discriminate|]. intros _. now exists None.
Qed.

Lemma serveLatestAlias_absent (base : URL) (env : Env) (kind id file : list N) :
  CATALOG_INDEX env !! keyJoin [js "catalog"; kind; id; js "latest.json"]
  = None ->
  serveLatestAlias pf base env kind id file = Returned notFound.
Proof. intros H. unfold serveLatestAlias. cbv zeta. now rewrite H. Qed.

Lemma serveLatestAlias_empty (base : URL) (env : Env) (kind id file : list N) :
  CATALOG_INDEX env !! keyJoin [js "catalog"; kind; id; js "latest.json"]
  = Some [] ->
  serveLatestAlias pf base env kind id file = Returned notFound.
Proof. intros H. unfold serveLatestAlias. cbv zeta. now rewrite H. Qed.

Lemma serveLatestAlias_corrupt (base : URL) (env : Env)
    (kind id file text : list N) :
  CATALOG_INDEX env !! keyJoin [js "catalog"; kind; id; js "latest.json"]
  = Some text ->
  text <> [] ->
  ((exists e, JSON_parse text = Threw e)
   \/ (exists latest,
         JSON_parse text = Returned latest /\ lacks_version latest = true)) ->
  serveLatestAlias pf base env kind id file
  = Returned
      (invalid_latest (keyJoin [js "catalog"; kind; id; js "latest.json"])).
Proof.
  intros H Hne Hcases. unfold serveLatestAlias. cbv zeta. rewrite H.
  destruct text as [|c t]; [contradiction|]. cbn [truthy_str negb].
  destruct Hcases as [[e ->]|(latest & -> & Hl)]; [reflexivity|].
  destruct (lacks_version_invalid _ Hl) as (version & -> & Ht).
  cbn [bind]. now rewrite Ht.
Qed.

End Pointer.

Lemma invalid_latest_fields (key : list N) :
  status (invalid_latest key) = 500
  /\ body (invalid_latest key)
     = BodyJson (JObj [(js "error", JStr (js "invalid_latest"));
                       (js "key", JStr key)])
  /\ has_cors (invalid_latest key).
Proof. split; [reflexivity|]. split; [reflexivity|apply json_cors]. Qed.

Lemma notFound_fields :
  status notFound = 404
  /\ body notFound = BodyJson (JObj [(js "error", JStr (js "not_found"))]).
Proof. split; reflexivity. Qed.

(** The claim fails on two stored values.  The empty string is present and
    is not JSON, and the response is the 404 of a missing key.  The text
    [null] parses to a value without a version, and reading the version of
    [null] throws: the handler returns no response. *)
Lemma latest_pointer_empty_or_null :
  (CATALOG_INDEX (Demo.index_env (js "catalog/tools/x/latest.json") [])
     !! js "catalog/tools/x/latest.json" = Some []
   /\ JSON_parse [] = Threw SyntaxError
   /\ fetch Demo.platform (Demo.request "GET" "/tools/x/latest/pkg.tar.gz")
        (Demo.index_env (js "catalog/tools/x/latest.json") [])
      = Returned notFound
   /\ status notFound = 404)
  /\ (JSON_parse (js "null") = Returned JNull
      /\ fetch Demo.platform (Demo.request "GET" "/tools/x/latest/pkg.tar.gz")
           (Demo.index_env (js "catalog/tools/x/latest.json") (js "null"))
         = Threw TypeError).
Proof. repeat split; vm_compute; reflexivity. Qed.

(** C2, amended: on a latest-alias request, a pointer key that is absent, or
    that holds the empty string, gives the 404 [not_found]; a key that holds
    a non-empty text which is not JSON, or which parses to a value other
    than [null] without a [version] member, gives the structured 500 with
    the error kind [invalid_latest], which is not a 404. *)
Theorem latest_pointer_missing_or_corrupt (pf : Platform) (req : Request)
    (env : Env) (k i f kind id : list N) :
  method req = js "GET" ->
  api_path (pathname (url req)) = latest_path k i f ->
  is_segment k = true -> is_segment i = true -> is_rest f = true ->
  decodeURIComponent k = Returned kind ->
  decodeURIComponent i = Returned id ->
  let key := keyJoin [js "catalog"; kind; id; js "latest.json"] in
  (CATALOG_INDEX env !! key = None \/ CATALOG_INDEX env !! key = Some [] ->
   fetch pf req env = Returned notFound /\ status notFound = 404)
  /\ (forall text : list N,
        CATALOG_INDEX env !! key = Some text ->
        text <> [] ->
        ((exists e, JSON_parse text = Threw e)
         \/ (exists latest,
               JSON_parse text = Returned latest
               /\ lacks_version latest = true)) ->
        fetch pf req env = Returned (invalid_latest key)
        /\ status (invalid_latest key) = 500
        /\ body (invalid_latest key)
           = BodyJson (JObj [(js "error", JStr (js "invalid_latest"));
                             (js "key", JStr key)])
        /\ invalid_latest key <> notFound).
Proof.
  intros Hm Ha Hk Hi Hf Hdk Hdi key.
  rewrite (fetch_latest pf req env k i f kind id) by assumption.
  split.
  - intros [H|H]; split; try reflexivity.
    + now apply serveLatestAlias_absent.
    + now apply serveLatestAlias_empty.
  - intros text Hkv Hne Hcases.
    split; [now apply (serveLatestAlias_corrupt pf _ _ _ _ _ text)|].
    split; [reflexivity|]. split; [reflexivity|].
    intros E. apply (f_equal status) in E. discriminate E.
Qed.

Lemma latest_pointer_missing_or_corrupt_witness :
  fetch Demo.platform (Demo.request "GET" "/tools/x/latest/pkg.tar.gz")
    Demo.empty_env = Returned notFound
  /\ fetch Demo.platform (Demo.request "GET" "/tools/x/latest/pkg.tar.gz")
       (Demo.index_env (js "catalog/tools/x/latest.json") (js "not json"))
     = Returned (invalid_latest (js "catalog/tools/x/latest.json"))
  /\ fetch Demo.platform (Demo.request "GET" "/tools/x/latest/pkg.tar.gz")
       (Demo.index_env (js "catalog/tools/x/latest.json") (js "{}"))
     = Returned (invalid_latest (js "catalog/tools/x/latest.json"))
  /\ status (invalid_latest (js "catalog/tools/x/latest.json")) = 500.
Proof.
  pose proof (fun env =>
    latest_pointer_missing_or_corrupt Demo.platform
      (Demo.request "GET" "/tools/x/latest/pkg.tar.gz") env
      (js "tools") (js "x") (js "pkg.tar.gz") (js "tools") (js "x")
      eq_refl eq_refl eq_refl eq_refl eq_refl eq_refl eq_refl) as T.
  cbv zeta in T.
  destruct (T Demo.empty_env) as [Habsent _].
  destruct (T (Demo.index_env (js "catalog/tools/x/latest.json")
                 (js "not json"))) as [_ Hbad].
  destruct (T (Demo.index_env (js "catalog/tools/x/latest.json") (js "{}")))
    as [_ Hobj].
  split; [apply Habsent; left; reflexivity|].
  assert (N1 : js "not json" <> []) by discriminate.
  assert (N2 : js "{}" <> []) by discriminate.
  destruct (Hbad (js "not json") eq_refl N1) as (H1 & H2 & _).
  { left. exists SyntaxError. vm_compute. reflexivity. }
  destruct (Hobj (js "{}") eq_refl N2) as (H3 & _).
  { right. exists (JObj []). split; vm_compute; reflexivity. }
  split; [exact H1|]. split; [exact H3|exact H2].
Defined.

(** ** Methods and the routes without a pattern *)

Lemma classify_root (req : Request) :
  method req <> js "OPTIONS" ->
  root_path (pathname (url req)) = true ->
  classify req = RRoot.
Proof.
  intros Hm Hr. unfold classify. cbv zeta.
  apply str_eqb_neq in Hm. now rewrite Hm, Hr.
Qed.

Lemma classify_health (req : Request) :
  method req <> js "OPTIONS" ->
  root_path (pathname (url req)) = false ->
  api_path (pathname (url req)) = js "/_health" ->
  classify req = RHealth (legacy_prefix (pathname (url req))).
Proof.
  intros Hm Hr Ha. unfold classify. cbv zeta.
  apply str_eqb_neq in Hm. rewrite Hm, Hr, Ha. reflexivity.
Qed.

Lemma classify_unmatched (req : Request) :
  method req <> js "OPTIONS" ->
  root_path (pathname (url req)) = false ->
  api_path (pathname (url req)) <> js "/_health" ->
  ~ (api_path (pathname (url req)) = js "/_ingest/github"
     /\ method req = js "POST") ->
  (method req <> js "GET"
   \/ (str_match (api_path (pathname (url req))) registry_re = None
       /\ str_match (api_path (pathname (url req))) latest_re = None
       /\ str_match (api_path (pathname (url req))) artifact_re = None)) ->
  classify req = RUnmatched.
Proof.
  intros Hm Hr Hh Hi Hrest. unfold classify. cbv zeta.
  apply str_eqb_neq in Hm. apply str_eqb_neq in Hh. rewrite Hm, Hr, Hh.
  assert (Hi' : str_eqb (api_path (pathname (url req))) (js "/_ingest/github")
                && str_eqb (method req) (js "POST") = false).
  { apply andb_false_iff.
    destruct (str_eqb (api_path _) (js "/_ingest/github")) eqn:E1;
      [|now left].
    destruct (str_eqb (method req) (js "POST")) eqn:E2; [|now right].
    exfalso. apply Hi. split; now apply str_eqb_eq. }
  rewrite Hi'. destruct Hrest as [Hg|(H1 & H2 & H3)].
  - apply str_eqb_neq in Hg. rewrite Hg.
    destruct (str_match _ registry_re), (str_match _ latest_re),
      (str_match _ artifact_re); reflexivity.
  - rewrite H1, H2, H3. now destruct (str_eqb (method req) (js "GET")).
Qed.

(** The claim fails on the two routes that are tested before any method:
    [POST /] is redirected and [PUT /catalog/_health] is answered with the
    status payload. *)
Lemma root_and_health_any_method :
  (exists r : Response,
     fetch Demo.platform (Demo.request "POST" "/") Demo.empty_env = Returned r
     /\ status r = 302
     /\ headers_get (headers r) (js "location")
        = Some (js "https://okham.io/catalogs/"))
  /\ (exists r : Response,
        fetch Demo.platform (Demo.request "PUT" "/catalog/_health")
          Demo.empty_env = Returned r
        /\ status r = 200).
Proof.
  split; eexists; (split; [vm_compute; reflexivity|]);
    repeat split; vm_compute; reflexivity.
Qed.

(** C8, amended: the root paths [/], [/catalog], [/catalog/] and the health
    path are served for every method other than OPTIONS, with the 302 and
    the 200 of a GET.  Any other request that is not one of the listed rows,
    that is neither [POST /_ingest/github] nor a GET on a path that one of
    the three patterns matches, returns the 404 [not_found]. *)
Theorem unlisted_requests_not_found (pf : Platform) (req : Request) (env : Env) :
  method req <> js "OPTIONS" ->
  let path := pathname (url req) in
  let a := api_path path in
  (root_path path = true ->
   exists r : Response,
     fetch pf req env = Returned r /\ status r = 302
     /\ headers_get (headers r) (js "location")
        = Some (js "https://okham.io/catalogs/"))
  /\ (root_path path = false -> a = js "/_health" ->
      exists r : Response,
        fetch pf req env = Returned r /\ status r = 200
        /\ body r
           = BodyJson
               (JObj [ (js "ok", JBool true);
                       (js "worker", JStr (OKHAM_CATALOG_WORKER env));
                       (js "now", JStr (now pf));
                       (js "legacy", JBool (legacy_prefix path)) ]))
  /\ (root_path path = false -> a <> js "/_health" ->
      ~ (a = js "/_ingest/github" /\ method req = js "POST") ->
      (method req <> js "GET"
       \/ (str_match a registry_re = None /\ str_match a latest_re = None
           /\ str_match a artifact_re = None)) ->
      fetch pf req env = Returned notFound /\ status notFound = 404).
Proof.
  intros Hm path a. rewrite fetch_classify. split; [|split].
  - intros Hr. rewrite (classify_root _ Hm Hr). eexists.
    split; [reflexivity|]. split; vm_compute; reflexivity.
  - intros Hr Ha. rewrite (classify_health _ Hm Hr Ha). eexists.
    split; [reflexivity|]. split; reflexivity.
  - intros Hr Hh Hi Hrest. rewrite (classify_unmatched _ Hm Hr Hh Hi Hrest).
    split; reflexivity.
Qed.

Lemma unlisted_requests_not_found_witness :
  fetch Demo.platform (Demo.request "DELETE" "/tools/registry.json")
    Demo.empty_env = Returned notFound
  /\ fetch Demo.platform (Demo.request "GET" "/tools") Demo.empty_env
     = Returned notFound
  /\ exists r : Response,
       fetch Demo.platform (Demo.request "POST" "/catalog") Demo.empty_env
       = Returned r /\ status r = 302.
Proof.
  assert (M1 : js "DELETE" <> js "OPTIONS") by discriminate.
  assert (M2 : js "GET" <> js "OPTIONS") by discriminate.
  assert (M3 : js "POST" <> js "OPTIONS") by discriminate.
  destruct (unlisted_requests_not_found Demo.platform
              (Demo.request "DELETE" "/tools/registry.json") Demo.empty_env M1)
    as (_ & _ & H1).
  destruct (unlisted_requests_not_found Demo.platform
              (Demo.request "GET" "/tools") Demo.empty_env M2)
    as (_ & _ & H2).
  destruct (unlisted_requests_not_found Demo.platform
              (Demo.request "POST" "/catalog") Demo.empty_env M3)
    as (H3 & _).
  split; [|split].
  - apply H1; [reflexivity|discriminate| |left; discriminate].
    intros [E _]. discriminate E.
  - apply H2; [reflexivity|discriminate| |right].
    + intros [E _]. discriminate E.
    + repeat split; vm_compute; reflexivity.
  - destruct (H3 eq_refl) as (r & Hr & Hs & _). now exists r.
Defined.

(** ** The registry resolver *)

Lemma serveRegistry_found (env : Env) (kind text : list N) :
  CATALOG_INDEX env !! keyJoin [js "catalog"; kind; js "registry.json"]
  = Some text ->
  text <> [] ->
  serveRegistry env kind
  = Returned
      (Response_new (BodyText text) (Some 200)
         (spread
            [ (js "content-type", js "application/json; charset=utf-8");
              (js "cache-control", js "public, max-age=60") ]
            CORS_HEADERS)).
Proof.
  intros H Hne. unfold serveRegistry. cbv zeta. rewrite H.
  destruct text as [|c t]; [contradiction|]. reflexivity.
Qed.

(** X1: a registry request [GET /kind/registry.json] reads the key joined from
    [catalog], the decoded kind and [registry.json].  A missing key, or an
    empty value, gives the 404; any other value is relayed as it is stored,
    without being parsed, in a 200 with the JSON content type and the cache
    directive [public, max-age=60]. *)
Theorem registry_response (pf : Platform) (req : Request) (env : Env)
    (k kind : list N) :
  method req = js "GET" ->
  api_path (pathname (url req)) = registry_path k ->
  is_segment k = true ->
  decodeURIComponent k = Returned kind ->
  let key := keyJoin [js "catalog"; kind; js "registry.json"] in
  (CATALOG_INDEX env !! key = None \/ CATALOG_INDEX env !! key = Some [] ->
   fetch pf req env = Returned notFound)
  /\ (forall text : list N,
        CATALOG_INDEX env !! key = Some text -> text <> [] ->
        exists r : Response,
          fetch pf req env = Returned r
          /\ status r = 200
          /\ body r = BodyText text
          /\ headers_get (headers r) (js "content-type")
             = Some (js "application/json; charset=utf-8")
          /\ headers_get (headers r) (js "cache-control")
             = Some (js "public, max-age=60")
          /\ has_cors r).
Proof.
  intros Hm Ha Hk Hd key.
  rewrite (fetch_registry pf req env k kind) by assumption. split.
  - unfold serveRegistry. cbv zeta. fold key. now intros [-> | ->].
  - intros text Hkv Hne. rewrite (serveRegistry_found env kind text Hkv Hne).
    eexists. split; [reflexivity|]. split; [reflexivity|].
    split; [reflexivity|]. repeat split; vm_compute; reflexivity.
Qed.

Lemma registry_response_witness :
  fetch Demo.platform (Demo.request "GET" "/catalog/tools/registry.json")
    Demo.empty_env = Returned notFound
  /\ exists r : Response,
       fetch Demo.platform (Demo.request "GET" "/catalog/tools/registry.json")
         (Demo.index_env (js "catalog/tools/registry.json") (js "not json"))
       = Returned r
       /\ status r = 200 /\ body r = BodyText (js "not json")
       /\ headers_get (headers r) (js "cache-control")
          = Some (js "public, max-age=60").
Proof.
  pose proof (fun env =>
    registry_response Demo.platform
      (Demo.request "GET" "/catalog/tools/registry.json") env
      (js "tools") (js "tools") eq_refl eq_refl eq_refl eq_refl) as T.
  cbv zeta in T.
  destruct (T Demo.empty_env) as [Habsent _].
  destruct (T (Demo.index_env (js "catalog/tools/registry.json")
                 (js "not json"))) as [_ Hfound].
  split; [apply Habsent; left; reflexivity|].
  assert (Hne : js "not json" <> []) by discriminate.
  destruct (Hfound (js "not json") eq_refl Hne)
    as (r & Hr & Hs & Hb & _ & Hc & _).
  exists r. split; [exact Hr|]. split; [exact Hs|]. split; [exact Hb|exact Hc].
Defined.

(** ** The ingest gate *)

Lemma ingest_not_root (p : list N) :
  api_path p = js "/_ingest/github" -> root_path p = false.
Proof. intros H. apply inner_slash_not_root. now rewrite H. Qed.

(** X2: the ingest path, with or without the legacy prefix, answers POST and
    nothing else.  A POST is refused with a 501 whatever the request holds:
    [not_implemented] when the flag [INGEST_ENABLED] is the string [1],
    [disabled] with an explanation for any other value of the flag.  Any
    other method but OPTIONS gets the 404. *)
Theorem ingest_gate (pf : Platform) (req : Request) (env : Env) :
  api_path (pathname (url req)) = js "/_ingest/github" ->
  (method req = js "POST" ->
   exists r : Response,
     fetch pf req env = Returned r
     /\ status r = 501
     /\ has_cors r
     /\ (INGEST_ENABLED env = js "1" ->
         body r = BodyJson (JObj [(js "error", JStr (js "not_implemented"))]))
     /\ (INGEST_ENABLED env <> js "1" ->
         exists message : list N,
           body r = BodyJson (JObj [ (js "error", JStr (js "disabled"));
                                     (js "message", JStr message) ])))
  /\ (method req <> js "POST" -> method req <> js "OPTIONS" ->
      fetch pf req env = Returned notFound).
Proof.
  intros Ha. pose proof (ingest_not_root _ Ha) as Hr. split.
  - intros Hm. rewrite fetch_classify.
    assert (Hc : classify req = RIngest).
    { unfold classify. cbv zeta. rewrite Hm, Hr, Ha. reflexivity. }
    rewrite Hc. cbn [dispatch]. unfold handleIngest.
    destruct (str_eqb (INGEST_ENABLED env) (js "1")) eqn:E; cbn [negb].
    + apply str_eqb_eq in E. eexists. split; [reflexivity|].
      split; [reflexivity|]. split; [apply json_cors|].
      split; [reflexivity|]. intros Hne. contradiction.
    + apply str_eqb_neq in E. eexists. split; [reflexivity|].
      split; [reflexivity|]. split; [apply json_cors|].
      split; [intros He; contradiction|]. intros _. eexists. reflexivity.
  - intros Hp Ho. rewrite fetch_classify, classify_unmatched; try assumption.
    + reflexivity.
    + rewrite Ha. discriminate.
    + now intros [_ Hm].
    + right. rewrite Ha. repeat split; vm_compute; reflexivity.
Qed.

Lemma ingest_gate_witness :
  (exists r : Response,
     fetch Demo.platform (Demo.request "POST" "/catalog/_ingest/github")
       Demo.empty_env = Returned r
     /\ status r = 501
     /\ exists message : list N,
          body r = BodyJson (JObj [ (js "error", JStr (js "disabled"));
                                    (js "message", JStr message) ]))
  /\ fetch Demo.platform (Demo.request "GET" "/_ingest/github") Demo.empty_env
     = Returned notFound.
Proof.
  destruct (ingest_gate Demo.platform
              (Demo.request "POST" "/catalog/_ingest/github") Demo.empty_env
              eq_refl) as [Hpost _].
  destruct (ingest_gate Demo.platform
              (Demo.request "GET" "/_ingest/github") Demo.empty_env
              eq_refl) as [_ Hget].
  split.
  - destruct (Hpost eq_refl) as (r & Hr & Hs & _ & _ & Hd).
    exists r. split; [exact Hr|]. split; [exact Hs|].
    apply Hd. discriminate.
  - apply Hget; discriminate.
Defined.

(** ** What a response can be *)

Section Responses.

Variable pf : Platform.

(** A response is one of three successes or a structured error. *)
Lemma json_error_shape (kind : list N) (rest : list (list N * jsvalue))
    (st : N) :
  let r := json (JObj ((js "error", JStr kind) :: rest)) (Some st) [] in
  status r = st
  /\ body r = BodyJson (JObj ((js "error", JStr kind) :: rest))
  /\ headers_get (headers r) (js "content-type")
     = Some (js "application/json; charset=utf-8")
  /\ headers_get (headers r) (js "cache-control") = None
  /\ headers_get (headers r) (js "location") = None.
Proof. cbv zeta. repeat split; vm_compute; reflexivity. Qed.

Lemma dispatch_shape (req : Request) (env : Env) (route : Route) (r : Response) :
  dispatch pf req env route = Returned r ->
  (status r = 200 \/ status r = 204 \/ status r = 302)
  \/ ((status r = 404 \/ status r = 500 \/ status r = 501)
      /\ (exists kind rest,
            body r = BodyJson (JObj ((js "error", JStr kind) :: rest)))
      /\ headers_get (headers r) (js "content-type")
         = Some (js "application/json; charset=utf-8")
      /\ headers_get (headers r) (js "cache-control") = None
      /\ headers_get (headers r) (js "location") = None).
Proof.
  assert (E404 : forall r0, r0 = notFound ->
    (status r0 = 404 \/ status r0 = 500 \/ status r0 = 501)
    /\ (exists kind rest,
          body r0 = BodyJson (JObj ((js "error", JStr kind) :: rest)))
    /\ headers_get (headers r0) (js "content-type")
       = Some (js "application/json; charset=utf-8")
    /\ headers_get (headers r0) (js "cache-control") = None
    /\ headers_get (headers r0) (js "location") = None).
  { intros r0 ->. split; [now left|]. split; [now eexists; eexists|].
    repeat split; vm_compute; reflexivity. }
  assert (E500 : forall key r0, r0 = invalid_latest key ->
    (status r0 = 404 \/ status r0 = 500 \/ status r0 = 501)
    /\ (exists kind rest,
          body r0 = BodyJson (JObj ((js "error", JStr kind) :: rest)))
    /\ headers_get (headers r0) (js "content-type")
       = Some (js "application/json; charset=utf-8")
    /\ headers_get (headers r0) (js "cache-control") = None
    /\ headers_get (headers r0) (js "location") = None).
  { intros key r0 ->. split; [now right; left|].
    split; [now eexists; eexists|]. repeat split; vm_compute; reflexivity. }
  destruct route as [| |legacy| |k|k i f|k i v f|]; cbn [dispatch].
  - intros [= <-]. left. now right; left.
  - intros [= <-]. left. now right; right.
  - intros [= <-]. left. now left.
  - unfold handleIngest. destruct (negb _); intros [= <-]; right;
      (split; [now right; right|]); (split; [now eexists; eexists|]);
      repeat split; vm_compute; reflexivity.
  - destruct (decodeURIComponent k) as [kind|e]; [|discriminate]. cbn [bind].
    unfold serveRegistry. cbv zeta.
    destruct (CATALOG_INDEX env !! _) as [t|];
      [|intros [= <-]; right; now apply E404].
    destruct (negb (truthy_str t)); intros [= <-];
      [right; now apply E404|left; now left].
  - destruct (decodeURIComponent k) as [kind|e]; [|discriminate].
    destruct (decodeURIComponent i) as [id|e]; [|discriminate]. cbn [bind].
    unfold serveLatestAlias. cbv zeta.
    destruct (CATALOG_INDEX env !! _) as [t|];
      [|intros [= <-]; right; now apply E404].
    destruct (negb (truthy_str t)); [intros [= <-]; right; now apply E404|].
    destruct (JSON_parse t) as [latest|e];
      [|intros [= <-]; right; now apply (E500 _ _ eq_refl)].
    destruct (get_version latest) as [version|e]; [|discriminate].
    cbn [bind]. destruct (negb (truthy pf version));
      [intros [= <-]; right; now apply (E500 _ _ eq_refl)|].
    destruct (encodeURIComponent kind) as [ek|e]; [|discriminate].
    destruct (encodeURIComponent id) as [ei|e]; [|discriminate].
    cbn [bind]. destruct (to_string pf version) as [sv|e]; [|discriminate].
    cbn [bind]. destruct (encodeURIComponent sv) as [ev|e]; [|discriminate].
    cbn [bind]. intros [= <-]. left. now right; right.
  - destruct (decodeURIComponent k) as [kind|e]; [|discriminate].
    destruct (decodeURIComponent i) as [id|e]; [|discriminate].
    destruct (decodeURIComponent v) as [version|e]; [|discriminate].
    cbn [bind].
    destruct (CATALOG_BUCKET env !! artifact_key kind id version f)
      as [obj|] eqn:Hb.
    + rewrite (serveArtifact_outcome _ _ _ _ _ _ Hb).
      destruct (metadata_ready obj); [|discriminate].
      intros [= <-]. left. now left.
    + unfold serveArtifact. cbv zeta. rewrite Hb.
      intros [= <-]. right. now apply E404.
  - intros [= <-]. right. now apply E404.
Qed.

End Responses.

(** X3: the handler answers with six statuses only: 200, 204, 302, 404, 500 and
    501.  The 400 of [badRequest] is never sent. *)
Theorem fetch_status_set (pf : Platform) (req : Request) (env : Env)
    (r : Response) :
  fetch pf req env = Returned r ->
  In (status r) [200; 204; 302; 404; 500; 501] /\ status r <> 400.
Proof.
  rewrite fetch_classify. intros H.
  apply dispatch_shape in H as [[H|[H|H]]|[[H|[H|H]] _]]; rewrite H;
    (split; [cbn; tauto|discriminate]).
Qed.

Lemma fetch_status_set_witness :
  In (status notFound) [200; 204; 302; 404; 500; 501]
  /\ status notFound <> 400.
Proof.
  apply (fetch_status_set Demo.platform (Demo.request "GET" "/nothing")
           Demo.empty_env notFound).
  vm_compute. reflexivity.
Defined.

(** X4: every error response is structured: a response with a status of 400 or
    more has a JSON body whose first member is [error], the JSON content
    type, and neither a cache directive nor a location. *)
Theorem error_responses_structured (pf : Platform) (req : Request) (env : Env)
    (r : Response) :
  fetch pf req env = Returned r ->
  400 <= status r ->
  (exists kind rest,
     body r = BodyJson (JObj ((js "error", JStr kind) :: rest)))
  /\ headers_get (headers r) (js "content-type")
     = Some (js "application/json; charset=utf-8")
  /\ headers_get (headers r) (js "cache-control") = None
  /\ headers_get (headers r) (js "location") = None
  /\ has_cors r.
Proof.
  intros H Hs. pose proof H as Hc. rewrite fetch_classify in H, Hc.
  apply dispatch_cors in Hc.
  apply dispatch_shape in H as [[H|[H|H]]|(_ & Hb & Ht & Hcc & Hl)].
  - rewrite H in Hs. lia.
  - rewrite H in Hs. lia.
  - rewrite H in Hs. lia.
  - split; [exact Hb|]. split; [exact Ht|]. split; [exact Hcc|].
    split; [exact Hl|exact Hc].
Qed.

Lemma error_responses_structured_witness :
  exists kind rest,
    body (invalid_latest (js "catalog/tools/x/latest.json"))
    = BodyJson (JObj ((js "error", JStr kind) :: rest)).
Proof.
  assert (Hs : 400 <= status (invalid_latest (js "catalog/tools/x/latest.json")))
    by (vm_compute; discriminate).
  destruct (error_responses_structured Demo.platform
              (Demo.request "GET" "/tools/x/latest/pkg.tar.gz")
              (Demo.index_env (js "catalog/tools/x/latest.json") (js "{}"))
              (invalid_latest (js "catalog/tools/x/latest.json"))
              eq_refl Hs) as (Hb & _).
  exact Hb.
Defined.

(** ** When the handler throws *)

Lemma decode_error (s : list N) (e : js_error) :
  decodeURIComponent s = Threw e -> e = URIError.
Proof.
  unfold decodeURIComponent. destruct (percent_tokens s) as [ts|].
  - destruct (utf8_units ts); [discriminate|]. now intros [= <-].
  - now intros [= <-].
Qed.

Lemma encode_error_len (n : nat) :
  forall s e, (length s <= n)%nat -> encodeURIComponent s = Threw e ->
              e = URIError.
Proof.
  induction n as [|n IH]; intros s e Hn H.
  - destruct s; [discriminate|simpl in Hn; lia].
  - destruct s as [|c r]; [discriminate|]. cbn [encodeURIComponent] in H.
    simpl in Hn. destruct (unreserved c).
    + destruct (encodeURIComponent r) as [x|e'] eqn:E; [discriminate|].
      injection H as <-. apply (IH r); [lia|exact E].
    + destruct (is_trail c); [now injection H as <-|].
      destruct (is_lead c).
      * destruct r as [|d r']; [now injection H as <-|].
        destruct (is_trail d); [|now injection H as <-].
        destruct (encodeURIComponent r') as [x|e'] eqn:E; [discriminate|].
        injection H as <-. apply (IH r'); [simpl in Hn; lia|exact E].
      * destruct (encodeURIComponent r) as [x|e'] eqn:E; [discriminate|].
        injection H as <-. apply (IH r); [lia|exact E].
Qed.

Lemma encode_error (s : list N) (e : js_error) :
  encodeURIComponent s = Threw e -> e = URIError.
Proof. now apply (encode_error_len (length s)). Qed.

Lemma value_to_string_error (pf : Platform) :
  forall (v : jsvalue) (e : js_error),
    value_to_string pf v = Threw e -> e = TypeError.
Proof.
  fix IH 1. intros v e. destruct v as [|b|l|s|vs|ms]; cbn [value_to_string].
  - discriminate.
  - destruct b; discriminate.
  - discriminate.
  - discriminate.
  - match goal with |- ?f vs = _ -> _ => set (F := f) end.
    assert (Fcons : forall x r,
      F (x :: r)
      = let* a := match x with
                  | JNull => Returned []
                  | _ => value_to_string pf x
                  end in
        match r with
        | [] => Returned a
        | _ :: _ => let* b := F r in Returned (a ++ js "," ++ b)
        end) by reflexivity.
    assert (Fnil : F [] = Returned []) by reflexivity.
    clearbody F. revert e. revert vs. fix IHl 1.
    intros [|x r] e; [rewrite Fnil; discriminate|].
    rewrite Fcons.
    destruct (match x with JNull => Returned [] | _ => value_to_string pf x end)
      as [a|e'] eqn:Ex; cbn [bind].
    + intros H. assert (Er : F r = Threw e).
      { destruct r as [|y r']; [discriminate H|].
        destruct (F (y :: r')) as [b|e'']; [discriminate H|].
        cbn [bind] in H. exact H. }
      exact (IHl r e Er).
    + intros [= <-].
      assert (Ex' : value_to_string pf x = Threw e')
        by (destruct x; try discriminate Ex; exact Ex).
      exact (IH x _ Ex').
  - destruct (has_member _ ms); [now intros [= <-]|discriminate].
Qed.

Section Throws.

Variable pf : Platform.

Lemma serveLatestAlias_error (base : URL) (env : Env) (kind id file : list N)
    (e : js_error) :
  serveLatestAlias pf base env kind id file = Threw e ->
  e = URIError \/ e = TypeError.
Proof.
  unfold serveLatestAlias. cbv zeta.
  destruct (CATALOG_INDEX env !! _) as [t|]; [|discriminate].
  destruct (negb (truthy_str t)); [discriminate|].
  destruct (JSON_parse t) as [latest|e0]; [|discriminate].
  destruct latest as [|b|l|s|vs|ms]; cbn [get_version bind];
    try (now intros [= <-]; right);
    try (cbn [truthy negb]; discriminate).
  destruct (negb (truthy pf _)); [discriminate|].
  destruct (encodeURIComponent kind) as [ek|e1] eqn:E1;
    [|intros [= <-]; left; now apply (encode_error kind)].
  destruct (encodeURIComponent id) as [ei|e2] eqn:E2;
    [|intros [= <-]; left; now apply (encode_error id)].
  cbn [bind]. destruct (to_string pf _) as [sv|e3] eqn:E3.
  - cbn [bind]. destruct (encodeURIComponent sv) as [ev|e4] eqn:E4;
      [discriminate|]. intros [= <-]. left. now apply (encode_error sv).
  - cbn [bind]. intros [= <-]. right. unfold to_string in E3.
    destruct (member (js "version") ms); [|discriminate].
    now apply (value_to_string_error pf _ _ E3).
Qed.

Lemma serveArtifact_error (env : Env) (kind id version file : list N)
    (e : js_error) :
  serveArtifact env kind id version file = Threw e -> e = TypeError.
Proof.
  destruct (CATALOG_BUCKET env !! artifact_key kind id version file)
    as [obj|] eqn:Hb.
  - rewrite (serveArtifact_outcome _ _ _ _ _ _ Hb).
    destruct (metadata_ready obj); congruence.
  - unfold serveArtifact. cbv zeta. now rewrite Hb.
Qed.

Lemma dispatch_error (req : Request) (env : Env) (route : Route)
    (e : js_error) :
  dispatch pf req env route = Threw e ->
  (e = URIError \/ e = TypeError)
  /\ ((exists k, route = RRegistry k) \/ (exists k i f, route = RLatest k i f)
      \/ (exists k i v f, route = RArtifact k i v f)).
Proof.
  destruct route as [| |legacy| |k|k i f|k i v f|]; cbn [dispatch];
    try discriminate.
  - unfold handleIngest. destruct (negb _); discriminate.
  - destruct (decodeURIComponent k) as [kind|e0] eqn:E.
    + cbn [bind]. unfold serveRegistry. cbv zeta.
      destruct (CATALOG_INDEX env !! _) as [t|]; [|discriminate].
      destruct (negb (truthy_str t)); discriminate.
    + intros [= <-]. apply decode_error in E. subst e0.
      split; [now left|]. left; now exists k.
  - intros H. split; [|right; left; now exists k, i, f].
    destruct (decodeURIComponent k) as [kind|e0] eqn:Ek;
      [|injection H as <-; left; now apply (decode_error k)].
    destruct (decodeURIComponent i) as [id|e1] eqn:Ei;
      [|injection H as <-; left; now apply (decode_error i)].
    cbn [bind] in H. now apply serveLatestAlias_error in H.
  - intros H. split; [|right; right; now exists k, i, v, f].
    destruct (decodeURIComponent k) as [kind|e0] eqn:Ek;
      [|injection H as <-; left; now apply (decode_error k)].
    destruct (decodeURIComponent i) as [id|e1] eqn:Ei;
      [|injection H as <-; left; now apply (decode_error i)].
    destruct (decodeURIComponent v) as [version|e2] eqn:Ev;
      [|injection H as <-; left; now apply (decode_error v)].
    cbn [bind] in H. right. now apply serveArtifact_error in H.
Qed.

Lemma classify_pattern_get (req : Request) :
  ((exists k, classify req = RRegistry k)
   \/ (exists k i f, classify req = RLatest k i f)
   \/ (exists k i v f, classify req = RArtifact k i v f)) ->
  method req = js "GET".
Proof.
  unfold classify. cbv zeta.
  destruct (str_eqb (method req) (js "OPTIONS"));
    [intros [[? H]|[(?&?&?&H)|(?&?&?&?&H)]]; discriminate|].
  destruct (root_path _);
    [intros [[? H]|[(?&?&?&H)|(?&?&?&?&H)]]; discriminate|].
  destruct (str_eqb (api_path _) (js "/_health"));
    [intros [[? H]|[(?&?&?&H)|(?&?&?&?&H)]]; discriminate|].
  destruct (str_eqb (api_path _) (js "/_ingest/github")
            && str_eqb (method req) (js "POST"));
    [intros [[? H]|[(?&?&?&H)|(?&?&?&?&H)]]; discriminate|].
  destruct (str_eqb (method req) (js "GET")) eqn:Hm;
    [intros _; now apply str_eqb_eq|].
  destruct (str_match _ registry_re), (str_match _ latest_re),
    (str_match _ artifact_re);
    intros [[? H]|[(?&?&?&H)|(?&?&?&?&H)]]; discriminate.
Qed.

End Throws.

(** X5: the handler throws on GET requests only, and only once one of the
    three patterns has matched: what the router answers itself (an OPTIONS
    request, the root, the health and ingest paths, the 404 of a path that
    no pattern matches) is always a response.  And what is thrown is never
    the [SyntaxError] of [JSON.parse], which the latest resolver catches. *)
Theorem fetch_throws_only_on_get (pf : Platform) (req : Request) (env : Env)
    (e : js_error) :
  fetch pf req env = Threw e ->
  method req = js "GET"
  /\ ((exists k, classify req = RRegistry k)
      \/ (exists k i f, classify req = RLatest k i f)
      \/ (exists k i v f, classify req = RArtifact k i v f))
  /\ e <> SyntaxError.
Proof.
  rewrite fetch_classify. intros H.
  apply dispatch_error in H as (He & Hr).
  split; [now apply classify_pattern_get|]. split; [exact Hr|].
  destruct He as [-> | ->]; discriminate.
Qed.

Lemma fetch_throws_only_on_get_witness :
  fetch Demo.platform (Demo.request "GET" "/tools/x/latest/pkg.tar.gz")
    (Demo.index_env (js "catalog/tools/x/latest.json") (js "null"))
  = Threw TypeError
  /\ method (Demo.request "GET" "/tools/x/latest/pkg.tar.gz") = js "GET"
  /\ ((exists k, classify (Demo.request "GET" "/tools/x/latest/pkg.tar.gz")
                 = RRegistry k)
      \/ (exists k i f,
            classify (Demo.request "GET" "/tools/x/latest/pkg.tar.gz")
            = RLatest k i f)
      \/ (exists k i v f,
            classify (Demo.request "GET" "/tools/x/latest/pkg.tar.gz")
            = RArtifact k i v f)).
Proof.
  destruct (fetch_throws_only_on_get Demo.platform
              (Demo.request "GET" "/tools/x/latest/pkg.tar.gz")
              (Demo.index_env (js "catalog/tools/x/latest.json") (js "null"))
              TypeError eq_refl) as (Hm & Hr & _).
  split; [reflexivity|]. split; [exact Hm|exact Hr].
Defined.

(** X6: a request with a method other than GET always gets a response. *)
Theorem non_get_always_answered (pf : Platform) (req : Request) (env : Env) :
  method req <> js "GET" ->
  exists r : Response, fetch pf req env = Returned r.
Proof.
  intros Hm. destruct (fetch pf req env) as [r|e] eqn:E; [now exists r|].
  rewrite fetch_classify in E. apply dispatch_error in E as (_ & Hr).
  now apply classify_pattern_get in Hr.
Qed.

Lemma non_get_always_answered_witness :
  exists r : Response,
    fetch Demo.platform (Demo.request "POST" "/%E0/registry.json")
      Demo.empty_env = Returned r.
Proof.
  apply non_get_always_answered. discriminate.
Defined.

(** ** The legacy prefix *)

Lemma api_path_prefixed (p : list N) :
  startsWith p (js "/") = true -> api_path (js "/catalog" ++ p) = p.
Proof.
  intros H. destruct p as [|c0 t]; [discriminate H|].
  change (js "/") with [SLASH] in H. rewrite startsWith_slash_cons in H.
  apply N.eqb_eq in H. subst c0. unfold api_path, slice_from.
  change (js "/catalog" ++ SLASH :: t) with (js "/catalog/" ++ t).
  rewrite startsWith_app. reflexivity.
Qed.

Lemma api_path_plain (p : list N) :
  startsWith p (js "/catalog/") = false -> api_path p = p.
Proof. intros H. unfold api_path. now rewrite H. Qed.

Lemma dispatch_origin (pf : Platform) (req1 req2 : Request) (env : Env)
    (route : Route) :
  origin (url req1) = origin (url req2) ->
  dispatch pf req1 env route = dispatch pf req2 env route.
Proof.
  intros Ho. destruct route; cbn [dispatch]; try reflexivity.
  unfold serveLatestAlias. now rewrite Ho.
Qed.

(** X7: the legacy prefix is transparent: a request on [/catalog] followed by a
    path gets the answer of the request on that path alone, for every method
    and every store.  The path must start with a slash and must not be one
    of those the prefix changes the meaning of: the root, the health path
    (whose payload reports the prefix) and the paths that themselves start
    with [/catalog]. *)
Theorem legacy_prefix_transparent (pf : Platform) (env : Env)
    (m o p : list N) :
  startsWith p (js "/") = true ->
  startsWith p (js "/catalog/") = false ->
  p <> js "/" -> p <> js "/catalog" -> p <> js "/_health" ->
  fetch pf {| method := m;
              url := {| origin := o; pathname := js "/catalog" ++ p |} |} env
  = fetch pf {| method := m; url := {| origin := o; pathname := p |} |} env.
Proof.
  intros Hs Hc Hroot Hcat Hh. rewrite !fetch_classify.
  set (req1 := {| method := m;
                  url := {| origin := o; pathname := js "/catalog" ++ p |} |}).
  set (req2 := {| method := m; url := {| origin := o; pathname := p |} |}).
  rewrite (dispatch_origin pf req1 req2) by reflexivity. f_equal.
  assert (R1 : root_path (js "/catalog" ++ p) = false).
  { destruct (root_path _) eqn:E; [|reflexivity]. unfold root_path in E.
    destruct p as [|c0 [|c1 t]]; [discriminate Hs| |].
    - change (js "/") with [SLASH] in Hs. rewrite startsWith_slash_cons in Hs.
      apply N.eqb_eq in Hs. subst c0. now contradiction Hroot.
    - repeat (apply orb_true_iff in E as [E|E]);
        apply str_eqb_eq in E; apply (f_equal (@length N)) in E;
        rewrite ?length_app in E; cbn in E; lia. }
  assert (R2 : root_path p = false).
  { destruct (root_path p) eqn:E; [|reflexivity]. unfold root_path in E.
    repeat (apply orb_true_iff in E as [E|E]); apply str_eqb_eq in E;
      subst p; try discriminate; contradiction. }
  unfold classify. cbv zeta. cbn [method url pathname req1 req2].
  rewrite R1, R2, (api_path_prefixed p Hs), (api_path_plain p Hc).
  apply str_eqb_neq in Hh. rewrite Hh. reflexivity.
Qed.

Lemma legacy_prefix_transparent_witness :
  fetch Demo.platform (Demo.request "GET" "/catalog/tools/x/1.0.0/config.yaml")
    (Demo.bucket_env (js "catalog/tools/x/1.0.0/config.yaml") Demo.bare_object)
  = fetch Demo.platform (Demo.request "GET" "/tools/x/1.0.0/config.yaml")
      (Demo.bucket_env (js "catalog/tools/x/1.0.0/config.yaml")
         Demo.bare_object).
Proof.
  apply (legacy_prefix_transparent Demo.platform _ (js "GET") Demo.site
           (js "/tools/x/1.0.0/config.yaml"));
    try reflexivity; discriminate.
Defined.

(** ** Paths that are too short *)







(** ** More about [keyJoin] *)

(** X9: the second of the four replacements of [keyJoin], which collapses the
    first run of slashes only, changes no key: the third one collapses every
    run, that one too. *)
Theorem keyJoin_first_replace_redundant (parts : list (list N)) :
  keyJoin parts
  = strip_leading_slash
      (collapse_runs (backslashes_to_slashes (join (js "/") parts))).
Proof. unfold keyJoin. now rewrite collapse_first_redundant. Qed.

Lemma backslashes_app (a b : list N) :
  backslashes_to_slashes (a ++ b)
  = backslashes_to_slashes a ++ backslashes_to_slashes b.
Proof. unfold backslashes_to_slashes. apply map_app. Qed.

(** A key joined from [catalog] and more stays under [catalog/]. *)
Lemma keyJoin_catalog (p : list N) (ps : list (list N)) :
  startsWith (keyJoin (js "catalog" :: p :: ps)) (js "catalog/") = true.
Proof.
  unfold keyJoin. rewrite collapse_first_redundant.
  change (join (js "/") (js "catalog" :: p :: ps))
    with (js "catalog" ++ SLASH :: join (js "/") (p :: ps)).
  rewrite backslashes_app.
  change (backslashes_to_slashes (js "catalog")) with (js "catalog").
  change (backslashes_to_slashes (SLASH :: ?x))
    with (SLASH :: backslashes_to_slashes x).
  set (t := backslashes_to_slashes _).
  assert (E : collapse_runs (js "catalog" ++ SLASH :: t)
              = js "catalog" ++ SLASH :: collapse_runs (skip_slashes t)).
  { rewrite <- collapse_runs_slash. reflexivity. }
  rewrite E. change (strip_leading_slash (js "catalog" ++ ?x))
    with (js "catalog" ++ x).
  change (js "catalog" ++ SLASH :: ?x) with (js "catalog/" ++ x).
  apply startsWith_app.
Qed.

(** ** Which store a request reads *)

Section Reads.

Variable pf : Platform.

Lemma serveRegistry_index (env1 env2 : Env) (kind : list N) :
  CATALOG_INDEX env1 !! keyJoin [js "catalog"; kind; js "registry.json"]
  = CATALOG_INDEX env2 !! keyJoin [js "catalog"; kind; js "registry.json"] ->
  serveRegistry env1 kind = serveRegistry env2 kind.
Proof. intros H. unfold serveRegistry. cbv zeta. now rewrite H. Qed.

Lemma serveLatestAlias_index (base : URL) (env1 env2 : Env)
    (kind id file : list N) :
  CATALOG_INDEX env1 !! keyJoin [js "catalog"; kind; id; js "latest.json"]
  = CATALOG_INDEX env2 !! keyJoin [js "catalog"; kind; id; js "latest.json"] ->
  serveLatestAlias pf base env1 kind id file
  = serveLatestAlias pf base env2 kind id file.
Proof. intros H. unfold serveLatestAlias. cbv zeta. now rewrite H. Qed.

Lemma serveArtifact_bucket (env1 env2 : Env) (kind id version file : list N) :
  CATALOG_BUCKET env1 !! artifact_key kind id version file
  = CATALOG_BUCKET env2 !! artifact_key kind id version file ->
  serveArtifact env1 kind id version file
  = serveArtifact env2 kind id version file.
Proof. intros H. unfold serveArtifact. cbv zeta. now rewrite H. Qed.

Lemma dispatch_reads (req : Request) (env1 env2 : Env) (route : Route) :
  OKHAM_CATALOG_WORKER env1 = OKHAM_CATALOG_WORKER env2 ->
  INGEST_ENABLED env1 = INGEST_ENABLED env2 ->
  (forall key, startsWith key (js "catalog/") = true ->
               CATALOG_INDEX env1 !! key = CATALOG_INDEX env2 !! key
               /\ CATALOG_BUCKET env1 !! key = CATALOG_BUCKET env2 !! key) ->
  dispatch pf req env1 route = dispatch pf req env2 route.
Proof.
  intros Hw Hi Hk. destruct route as [| |legacy| |k|k i f|k i v f|];
    cbn [dispatch]; try reflexivity.
  - now rewrite Hw.
  - unfold handleIngest. now rewrite Hi.
  - destruct (decodeURIComponent k) as [kind|e]; [|reflexivity]. cbn [bind].
    apply serveRegistry_index. apply Hk, keyJoin_catalog.
  - destruct (decodeURIComponent k) as [kind|e]; [|reflexivity].
    destruct (decodeURIComponent i) as [id|e]; [|reflexivity]. cbn [bind].
    apply serveLatestAlias_index. apply Hk, keyJoin_catalog.
  - destruct (decodeURIComponent k) as [kind|e]; [|reflexivity].
    destruct (decodeURIComponent i) as [id|e]; [|reflexivity].
    destruct (decodeURIComponent v) as [version|e]; [|reflexivity].
    cbn [bind]. apply serveArtifact_bucket. apply Hk.
    unfold artifact_key. apply keyJoin_catalog.
Qed.

End Reads.

(** X10: the handler reads the stores under the prefix [catalog/] only: two
    environments with the same worker name and ingest flag whose stores
    agree on every key that starts with [catalog/] get the same outcome on
    every request, whatever the decoded parameters are. *)
Theorem reads_confined_to_catalog (pf : Platform) (req : Request)
    (env1 env2 : Env) :
  OKHAM_CATALOG_WORKER env1 = OKHAM_CATALOG_WORKER env2 ->
  INGEST_ENABLED env1 = INGEST_ENABLED env2 ->
  (forall key, startsWith key (js "catalog/") = true ->
               CATALOG_INDEX env1 !! key = CATALOG_INDEX env2 !! key
               /\ CATALOG_BUCKET env1 !! key = CATALOG_BUCKET env2 !! key) ->
  fetch pf req env1 = fetch pf req env2.
Proof.
  intros Hw Hi Hk. rewrite !fetch_classify. now apply dispatch_reads.
Qed.

Lemma reads_confined_to_catalog_witness :
  fetch Demo.platform (Demo.request "GET" "/..%2Fsecret/registry.json")
    (Demo.index_env (js "secret/registry.json") (js "[]"))
  = fetch Demo.platform (Demo.request "GET" "/..%2Fsecret/registry.json")
      Demo.empty_env.
Proof.
  apply reads_confined_to_catalog; try reflexivity.
  intros key Hkey. split; [|reflexivity].
  cbn [Demo.index_env Demo.empty_env CATALOG_INDEX].
  rewrite lookup_empty. apply lookup_singleton_ne.
  intros <-. vm_compute in Hkey. discriminate Hkey.
Defined.

(** X11: each route reads one store.  The registry and the latest alias depend
    on the key-value namespace alone, so that the redirect of an alias is
    issued whether or not the bucket holds the version it points to; the
    artifact route depends on the bucket alone. *)
Theorem one_store_per_route (pf : Platform) (req : Request) (env1 env2 : Env) :
  ((exists k, classify req = RRegistry k)
   \/ (exists k i f, classify req = RLatest k i f) ->
   CATALOG_INDEX env1 = CATALOG_INDEX env2 ->
   fetch pf req env1 = fetch pf req env2)
  /\ ((exists k i v f, classify req = RArtifact k i v f) ->
      CATALOG_BUCKET env1 = CATALOG_BUCKET env2 ->
      fetch pf req env1 = fetch pf req env2).
Proof.
  split.
  - intros [[k Hc]|(k & i & f & Hc)] Hi; rewrite !fetch_classify, Hc;
      cbn [dispatch].
    + destruct (decodeURIComponent k) as [kind|e]; [|reflexivity]. cbn [bind].
      apply serveRegistry_index. now rewrite Hi.
    + destruct (decodeURIComponent k) as [kind|e]; [|reflexivity].
      destruct (decodeURIComponent i) as [id|e]; [|reflexivity]. cbn [bind].
      apply serveLatestAlias_index. now rewrite Hi.
  - intros (k & i & v & f & Hc) Hb. rewrite !fetch_classify, Hc.
    cbn [dispatch].
    destruct (decodeURIComponent k) as [kind|e]; [|reflexivity].
    destruct (decodeURIComponent i) as [id|e]; [|reflexivity].
    destruct (decodeURIComponent v) as [version|e]; [|reflexivity].
    cbn [bind]. apply serveArtifact_bucket. now rewrite Hb.
Qed.

Lemma one_store_per_route_witness :
  fetch Demo.platform (Demo.request "GET" "/tools/x/latest/pkg.tar.gz")
    {| CATALOG_BUCKET :=
         {[ js "catalog/tools/x/2.1.0/pkg.tar.gz" := Demo.bare_object ]};
       CATALOG_INDEX :=
         {[ js "catalog/tools/x/latest.json" := jsq "{'version':'2.1.0'}" ]};
       OKHAM_CATALOG_WORKER := js "w"; INGEST_ENABLED := js "1" |}
  = fetch Demo.platform (Demo.request "GET" "/tools/x/latest/pkg.tar.gz")
      (Demo.index_env (js "catalog/tools/x/latest.json")
         (jsq "{'version':'2.1.0'}")).
Proof.
  destruct (one_store_per_route Demo.platform
              (Demo.request "GET" "/tools/x/latest/pkg.tar.gz")
              {| CATALOG_BUCKET :=
                   {[ js "catalog/tools/x/2.1.0/pkg.tar.gz"
                      := Demo.bare_object ]};
                 CATALOG_INDEX :=
                   {[ js "catalog/tools/x/latest.json"
                      := jsq "{'version':'2.1.0'}" ]};
                 OKHAM_CATALOG_WORKER := js "w"; INGEST_ENABLED := js "1" |}
              (Demo.index_env (js "catalog/tools/x/latest.json")
                 (jsq "{'version':'2.1.0'}"))) as [H _].
  apply H; [|reflexivity].
  right. exists (js "tools"), (js "x"), (js "pkg.tar.gz").
  vm_compute. reflexivity.
Defined.

(** ** The stored metadata of an artifact *)

Lemma forbidden_unit_refused (v : list N) :
  existsb forbidden_unit v = true -> header_value v = false.
Proof.
  unfold header_value. induction v as [|c r IH]; [discriminate|].
  cbn [existsb forallb]. destruct (forbidden_unit c).
  - intros _. now rewrite andb_false_r.
  - cbn [orb negb]. intros H. now rewrite (IH H), andb_false_r.
Qed.

Lemma metadata_not_ready (obj : R2ObjectBody) (s : list N) :
  In s (stored_values obj) ->
  existsb forbidden_unit (normalize_value s) = true ->
  metadata_ready obj = false.
Proof.
  intros Hin Hs. unfold metadata_ready.
  destruct (forallb _ _) eqn:E; [|reflexivity].
  rewrite forallb_forall in E. specialize (E s Hin).
  now rewrite (forbidden_unit_refused _ Hs) in E.
Qed.

(** X12: the artifact resolver hands on what the store keeps about the
    content, as [headers.set] takes it.  When every stored string is
    accepted as a header value, the stored content language, disposition,
    encoding and expiry are, normalised, the headers of the same names on
    the response, present when stored and absent when not; with the content
    type, the etag, the cache directive and the three cross-origin headers
    the response has ten headers at most.  When a stored string has a NUL, a
    line feed or a carriage return inside, there is no response: the handler
    throws a [TypeError]. *)
Theorem artifact_metadata_passed_on (pf : Platform) (req : Request)
    (env : Env) (k i v f kind id version : list N) (obj : R2ObjectBody) :
  classify req = RArtifact k i v f ->
  decodeURIComponent k = Returned kind ->
  decodeURIComponent i = Returned id ->
  decodeURIComponent v = Returned version ->
  CATALOG_BUCKET env !! keyJoin [js "catalog"; kind; id; version; f]
  = Some obj ->
  (metadata_ready obj = true ->
   exists r : Response,
     fetch pf req env = Returned r
     /\ headers_get (headers r) (js "content-language")
        = option_map normalize_value (contentLanguage (httpMetadata obj))
     /\ headers_get (headers r) (js "content-disposition")
        = option_map normalize_value (contentDisposition (httpMetadata obj))
     /\ headers_get (headers r) (js "content-encoding")
        = option_map normalize_value (contentEncoding (httpMetadata obj))
     /\ headers_get (headers r) (js "expires")
        = option_map normalize_value (cacheExpiry (httpMetadata obj))
     /\ (size (headers r) <= 10)%nat)
  /\ (forall s : list N,
        In s (stored_values obj) ->
        existsb forbidden_unit (normalize_value s) = true ->
        fetch pf req env = Threw TypeError).
Proof.
  intros Hc Hk Hi Hv Hobj. rewrite fetch_classify, Hc. cbn [dispatch].
  rewrite Hk, Hi, Hv. cbn [bind].
  rewrite (serveArtifact_outcome _ _ _ _ _ _ Hobj). split.
  - intros ->. eexists. split; [reflexivity|]. cbn [headers].
    destruct (artifact_headers_lookup obj f)
      as (_ & _ & _ & Hl & Hd & He & Hx & _).
    cbv zeta in Hl, Hd, He, Hx.
    repeat (split; [assumption|]). apply artifact_headers_size.
  - intros s Hin Hs. now rewrite (metadata_not_ready _ _ Hin Hs).
Qed.

Lemma artifact_metadata_passed_on_witness :
  (exists r : Response,
     fetch Demo.platform (Demo.request "GET" "/tools/x/1.0.0/pkg.tar.gz")
       (Demo.bucket_env (js "catalog/tools/x/1.0.0/pkg.tar.gz")
          {| r2_body := js "bytes"; httpEtag := jsq "'e1'";
             httpMetadata :=
               {| contentType := Some (js "application/gzip");
                  contentLanguage := None;
                  contentDisposition := Some (js " attachment ");
                  contentEncoding := Some (js "gzip");
                  cacheControl := None; cacheExpiry := None |} |})
     = Returned r
     /\ headers_get (headers r) (js "content-language") = None
     /\ headers_get (headers r) (js "content-disposition")
        = Some (js "attachment")
     /\ headers_get (headers r) (js "content-encoding") = Some (js "gzip"))
  /\ fetch Demo.platform (Demo.request "GET" "/tools/x/1.0.0/pkg.tar.gz")
       (Demo.bucket_env (js "catalog/tools/x/1.0.0/pkg.tar.gz")
          Demo.line_feed_object)
     = Threw TypeError.
Proof.
  split.
  - destruct (artifact_metadata_passed_on Demo.platform
                (Demo.request "GET" "/tools/x/1.0.0/pkg.tar.gz")
                (Demo.bucket_env (js "catalog/tools/x/1.0.0/pkg.tar.gz")
                   {| r2_body := js "bytes"; httpEtag := jsq "'e1'";
                      httpMetadata :=
                        {| contentType := Some (js "application/gzip");
                           contentLanguage := None;
                           contentDisposition := Some (js " attachment ");
                           contentEncoding := Some (js "gzip");
                           cacheControl := None; cacheExpiry := None |} |})
                (js "tools") (js "x") (js "1.0.0") (js "pkg.tar.gz")
                (js "tools") (js "x") (js "1.0.0") _
                eq_refl eq_refl eq_refl eq_refl eq_refl) as [Hok _].
    destruct (Hok eq_refl) as (r & Hr & Hl & Hd & He & _).
    exists r. split; [exact Hr|]. split; [exact Hl|].
    split; [exact Hd|exact He].
  - destruct (artifact_metadata_passed_on Demo.platform
                (Demo.request "GET" "/tools/x/1.0.0/pkg.tar.gz")
                (Demo.bucket_env (js "catalog/tools/x/1.0.0/pkg.tar.gz")
                   Demo.line_feed_object)
                (js "tools") (js "x") (js "1.0.0") (js "pkg.tar.gz")
                (js "tools") (js "x") (js "1.0.0") _
                eq_refl eq_refl eq_refl eq_refl eq_refl) as [_ Hbad].
    apply (Hbad (js "text/plain;" ++ [10] ++ js "charset=utf-8")).
    + left. reflexivity.
    + reflexivity.
Defined.

(** ** Versions that are not strings *)

Section Versions.

Variable pf : Platform.

Lemma serveLatestAlias_falsy (base : URL) (env : Env)
    (kind id file text : list N) (ms : list (list N * jsvalue))
    (version : jsvalue) :
  CATALOG_INDEX env !! keyJoin [js "catalog"; kind; id; js "latest.json"]
  = Some text ->
  JSON_parse text = Returned (JObj ms) ->
  member (js "version") ms = Some version ->
  version = JNull \/ version = JBool false \/ version = JStr [] ->
  serveLatestAlias pf base env kind id file
  = Returned
      (invalid_latest (keyJoin [js "catalog"; kind; id; js "latest.json"])).
Proof.
  intros Hkv Hp Hm Hv. unfold serveLatestAlias. cbv zeta.
  rewrite Hkv, (JSON_parse_truthy _ _ Hp). cbn [negb]. rewrite Hp.
  cbn [get_version bind]. rewrite Hm.
  destruct Hv as [-> |[-> | ->]]; reflexivity.
Qed.

End Versions.

(** X13: a pointer whose [version] member is there but is [null], [false] or the
    empty string is corrupt like one without the member: the answer is the
    500 [invalid_latest], not a redirect. *)
Theorem falsy_version_is_corrupt (pf : Platform) (req : Request) (env : Env)
    (k i f kind id text : list N) (ms : list (list N * jsvalue))
    (version : jsvalue) :
  classify req = RLatest k i f ->
  decodeURIComponent k = Returned kind ->
  decodeURIComponent i = Returned id ->
  CATALOG_INDEX env !! keyJoin [js "catalog"; kind; id; js "latest.json"]
  = Some text ->
  JSON_parse text = Returned (JObj ms) ->
  member (js "version") ms = Some version ->
  version = JNull \/ version = JBool false \/ version = JStr [] ->
  fetch pf req env
  = Returned
      (invalid_latest (keyJoin [js "catalog"; kind; id; js "latest.json"]))
  /\ status
       (invalid_latest (keyJoin [js "catalog"; kind; id; js "latest.json"]))
     = 500.
Proof.
  intros Hc Hk Hi Hkv Hp Hm Hv. rewrite fetch_classify, Hc. cbn [dispatch].
  rewrite Hk, Hi. cbn [bind]. split; [|reflexivity].
  now apply (serveLatestAlias_falsy pf _ _ _ _ _ text ms version).
Qed.

Lemma falsy_version_is_corrupt_witness :
  fetch Demo.platform (Demo.request "GET" "/tools/x/latest/pkg.tar.gz")
    (Demo.index_env (js "catalog/tools/x/latest.json")
       (jsq "{'version':null}"))
  = Returned (invalid_latest (js "catalog/tools/x/latest.json")).
Proof.
  apply (falsy_version_is_corrupt Demo.platform _ _
           (js "tools") (js "x") (js "pkg.tar.gz") (js "tools") (js "x")
           (jsq "{'version':null}") [(js "version", JNull)] JNull);
    try reflexivity.
  now left.
Defined.

(** ** Encoding and decoding back *)

Lemma land_shiftl_small (q k r : N) :
  r < 2 ^ k -> N.land (N.shiftl q k) r = 0.
Proof.
  intros Hr. apply N.bits_inj. intros n. rewrite N.land_spec, N.bits_0.
  destruct (N.lt_ge_cases n k) as [Hn|Hn].
  - now rewrite N.shiftl_spec_low.
  - rewrite <- (N.mod_small r (2 ^ k)) by exact Hr.
    rewrite N.mod_pow2_bits_high by exact Hn. apply andb_false_r.
Qed.

Lemma lor_shiftl_add (q k r : N) :
  r < 2 ^ k -> N.lor (N.shiftl q k) r = q * 2 ^ k + r.
Proof.
  intros Hr. pose proof (land_shiftl_small q k r Hr) as H0.
  rewrite <- N.lxor_lor by exact H0.
  rewrite <- N.add_nocarry_lxor by exact H0.
  now rewrite N.shiftl_mul_pow2.
Qed.

Lemma mod_offset (x k m : N) : x < m -> (k * m + x) mod m = x.
Proof.
  intros H. symmetry. apply (N.mod_unique _ _ k); [exact H|lia].
Qed.

Lemma land31_offset (q : N) : q < 32 -> N.land (192 + q) 31 = q.
Proof.
  intros H. change 31 with (N.ones 5). rewrite N.land_ones.
  change (2 ^ 5) with 32. change 192 with (6 * 32). now apply mod_offset.
Qed.

Lemma land15_offset (q : N) : q < 16 -> N.land (224 + q) 15 = q.
Proof.
  intros H. change 15 with (N.ones 4). rewrite N.land_ones.
  change (2 ^ 4) with 16. change 224 with (14 * 16). now apply mod_offset.
Qed.

Lemma land7_offset (q : N) : q < 8 -> N.land (240 + q) 7 = q.
Proof.
  intros H. change 7 with (N.ones 3). rewrite N.land_ones.
  change (2 ^ 3) with 8. change 240 with (30 * 8). now apply mod_offset.
Qed.

Lemma low6_mod (x : N) : low6 x = x mod 64.
Proof. unfold low6. change 63 with (N.ones 6). now rewrite N.land_ones. Qed.

Lemma low6_offset (r : N) : r < 64 -> low6 (128 + r) = r.
Proof.
  intros H. rewrite low6_mod. change 128 with (2 * 64). now apply mod_offset.
Qed.

Lemma shiftr6 (x : N) : N.shiftr x 6 = x / 64.
Proof. now rewrite N.shiftr_div_pow2. Qed.

Lemma shiftr12 (x : N) : N.shiftr x 12 = x / 64 / 64.
Proof. rewrite N.shiftr_div_pow2, N.Div0.div_div. reflexivity. Qed.

Lemma shiftr18 (x : N) : N.shiftr x 18 = x / 64 / 64 / 64.
Proof. rewrite N.shiftr_div_pow2, !N.Div0.div_div. reflexivity. Qed.

Lemma div64 (x : N) : x = 64 * (x / 64) + x mod 64 /\ x mod 64 < 64.
Proof. split; [apply N.div_mod'|now apply N.mod_lt]. Qed.

(** The octets of a scalar value decode to its code units. *)
Lemma utf8_units_octets (cp : N) (ts : list uri_token) :
  cp <= 1114111 -> is_surrogate cp = false ->
  utf8_units (List.map Octet (utf8_octets cp) ++ ts)
  = match utf8_units ts with
    | Some u => Some (utf16_units cp ++ u)
    | None => None
    end.
Proof.
  intros Hmax Hs. unfold utf8_octets.
  destruct (div64 cp) as [E0 R0]. set (r0 := cp mod 64) in *.
  set (q0 := cp / 64) in *.
  destruct (div64 q0) as [E1 R1]. set (r1 := q0 mod 64) in *.
  set (q1 := q0 / 64) in *.
  destruct (div64 q1) as [E2 R2]. set (r2 := q1 mod 64) in *.
  set (q2 := q1 / 64) in *.
  destruct (cp <? 128) eqn:H1.
  { cbn [List.map app utf8_units]. rewrite H1. unfold utf16_units.
    apply N.ltb_lt in H1.
    destruct (cp <? 65536) eqn:H; [|apply N.ltb_ge in H; lia].
    now destruct (utf8_units ts). }
  apply N.ltb_ge in H1. destruct (cp <? 2048) eqn:H2.
  { apply N.ltb_lt in H2. cbn [List.map app utf8_units].
    rewrite shiftr6, (low6_mod cp). fold q0 r0.
    assert (Hq : q0 < 32) by lia.
    replace (192 + q0 <? 128) with false by (symmetry; apply N.ltb_ge; lia).
    replace ((192 <=? 192 + q0) && (192 + q0 <? 224)) with true
      by (symmetry; apply andb_true_iff; split;
          [apply N.leb_le|apply N.ltb_lt]; lia).
    rewrite land31_offset, low6_offset by assumption.
    rewrite (lor_shiftl_add q0 6 r0) by exact R0.
    change (2 ^ 6) with 64. replace (q0 * 64 + r0) with cp by lia.
    replace (is_cont (128 + r0)) with true
      by (symmetry; apply andb_true_iff; split;
          [apply N.leb_le|apply N.ltb_lt]; lia).
    replace (128 <=? cp) with true by (symmetry; apply N.leb_le; lia).
    reflexivity. }
  apply N.ltb_ge in H2. destruct (cp <? 65536) eqn:H3.
  { apply N.ltb_lt in H3. cbn [List.map app utf8_units].
    rewrite shiftr12, (low6_mod cp), shiftr6, (low6_mod (cp / 64)).
    fold q0 r0 q1 r1.
    assert (Hq : q1 < 16) by lia.
    replace (224 + q1 <? 128) with false by (symmetry; apply N.ltb_ge; lia).
    replace ((192 <=? 224 + q1) && (224 + q1 <? 224)) with false
      by (symmetry; apply andb_false_iff; right; apply N.ltb_ge; lia).
    replace ((224 <=? 224 + q1) && (224 + q1 <? 240)) with true
      by (symmetry; apply andb_true_iff; split;
          [apply N.leb_le|apply N.ltb_lt]; lia).
    rewrite land15_offset, !low6_offset by assumption.
    rewrite (lor_shiftl_add r1 6 r0) by exact R0. change (2 ^ 6) with 64.
    rewrite (lor_shiftl_add q1 12 (r1 * 64 + r0))
      by (change (2 ^ 12) with 4096; lia).
    change (2 ^ 12) with 4096.
    replace (q1 * 4096 + (r1 * 64 + r0)) with cp by lia.
    replace (is_cont (128 + r1)) with true
      by (symmetry; apply andb_true_iff; split;
          [apply N.leb_le|apply N.ltb_lt]; lia).
    replace (is_cont (128 + r0)) with true
      by (symmetry; apply andb_true_iff; split;
          [apply N.leb_le|apply N.ltb_lt]; lia).
    replace (2048 <=? cp) with true by (symmetry; apply N.leb_le; lia).
    rewrite Hs. reflexivity. }
  apply N.ltb_ge in H3. cbn [List.map app utf8_units].
  rewrite shiftr18, shiftr12, shiftr6, (low6_mod cp), (low6_mod (cp / 64)),
    (low6_mod (cp / 64 / 64)).
  fold q0 r0 q1 r1 q2 r2.
  assert (Hq : q2 < 8) by lia.
  replace (240 + q2 <? 128) with false by (symmetry; apply N.ltb_ge; lia).
  replace ((192 <=? 240 + q2) && (240 + q2 <? 224)) with false
    by (symmetry; apply andb_false_iff; right; apply N.ltb_ge; lia).
  replace ((224 <=? 240 + q2) && (240 + q2 <? 240)) with false
    by (symmetry; apply andb_false_iff; right; apply N.ltb_ge; lia).
  replace ((240 <=? 240 + q2) && (240 + q2 <? 248)) with true
    by (symmetry; apply andb_true_iff; split;
        [apply N.leb_le|apply N.ltb_lt]; lia).
  rewrite land7_offset, !low6_offset by assumption.
  rewrite (lor_shiftl_add r1 6 r0) by exact R0. change (2 ^ 6) with 64.
  rewrite (lor_shiftl_add r2 12 (r1 * 64 + r0))
    by (change (2 ^ 12) with 4096; lia).
  change (2 ^ 12) with 4096.
  rewrite (lor_shiftl_add q2 18 (r2 * 4096 + (r1 * 64 + r0)))
    by (change (2 ^ 18) with 262144; lia).
  change (2 ^ 18) with 262144.
  replace (q2 * 262144 + (r2 * 4096 + (r1 * 64 + r0))) with cp by lia.
  replace (is_cont (128 + r2)) with true
    by (symmetry; apply andb_true_iff; split;
        [apply N.leb_le|apply N.ltb_lt]; lia).
  replace (is_cont (128 + r1)) with true
    by (symmetry; apply andb_true_iff; split;
        [apply N.leb_le|apply N.ltb_lt]; lia).
  replace (is_cont (128 + r0)) with true
    by (symmetry; apply andb_true_iff; split;
        [apply N.leb_le|apply N.ltb_lt]; lia).
  replace (65536 <=? cp) with true by (symmetry; apply N.leb_le; lia).
  replace (cp <=? 1114111) with true by (symmetry; apply N.leb_le; lia).
  reflexivity.
Qed.

Lemma hex_round (n : N) : n < 16 -> hex_val (hex_digit n) = Some n.
Proof.
  intros H. unfold hex_digit, hex_val. destruct (n <? 10) eqn:E.
  - apply N.ltb_lt in E.
    replace ((48 <=? 48 + n) && (48 + n <=? 57)) with true
      by (symmetry; apply andb_true_iff; split; apply N.leb_le; lia).
    f_equal. lia.
  - apply N.ltb_ge in E.
    replace ((48 <=? 55 + n) && (55 + n <=? 57)) with false
      by (symmetry; apply andb_false_iff; right; apply N.leb_gt; lia).
    replace ((65 <=? 55 + n) && (55 + n <=? 70)) with true
      by (symmetry; apply andb_true_iff; split; apply N.leb_le; lia).
    f_equal. lia.
Qed.

Lemma percent_tokens_escape (b : N) (e : list N) :
  b < 256 ->
  percent_tokens (escape b ++ e)
  = match percent_tokens e with
    | Some ts => Some (Octet b :: ts)
    | None => None
    end.
Proof.
  intros Hb. unfold escape. cbn [app percent_tokens].
  rewrite N.eqb_refl. rewrite N.shiftr_div_pow2.
  change 15 with (N.ones 4). rewrite N.land_ones. change (2 ^ 4) with 16.
  assert (Hq : b / 16 < 16) by (apply N.Div0.div_lt_upper_bound; lia).
  assert (Hr : b mod 16 < 16) by (now apply N.mod_lt).
  rewrite (hex_round _ Hq), (hex_round _ Hr).
  replace (16 * (b / 16) + b mod 16) with b by apply N.div_mod'.
  reflexivity.
Qed.

Lemma percent_tokens_escapes (bs : list N) (e : list N) :
  Forall (fun b => b < 256) bs ->
  percent_tokens (concat (List.map escape bs) ++ e)
  = match percent_tokens e with
    | Some ts => Some (List.map Octet bs ++ ts)
    | None => None
    end.
Proof.
  induction 1 as [|b bs Hb Hbs IH]; cbn [List.map concat app].
  - now destruct (percent_tokens e).
  - rewrite <- app_assoc, (percent_tokens_escape b _ Hb), IH.
    now destruct (percent_tokens e).
Qed.

Lemma utf8_octets_bound (cp : N) :
  cp <= 1114111 -> Forall (fun b => b < 256) (utf8_octets cp).
Proof.
  intros Hmax. unfold utf8_octets.
  destruct (div64 cp) as [E0 R0]. destruct (div64 (cp / 64)) as [E1 R1].
  destruct (div64 (cp / 64 / 64)) as [E2 R2].
  pose proof (low6_mod cp) as L0. pose proof (low6_mod (cp / 64)) as L1.
  pose proof (low6_mod (cp / 64 / 64)) as L2.
  destruct (cp <? 128) eqn:C1; [apply N.ltb_lt in C1|apply N.ltb_ge in C1].
  { repeat constructor. lia. }
  destruct (cp <? 2048) eqn:C2; [apply N.ltb_lt in C2|apply N.ltb_ge in C2].
  { rewrite shiftr6. repeat constructor; lia. }
  destruct (cp <? 65536) eqn:C3; [apply N.ltb_lt in C3|apply N.ltb_ge in C3].
  { rewrite shiftr12, shiftr6. repeat constructor; lia. }
  rewrite shiftr18, shiftr12, shiftr6. repeat constructor; lia.
Qed.

Lemma percent_tokens_code_point (cp : N) (e : list N) :
  cp <= 1114111 ->
  percent_tokens (escape_code_point cp ++ e)
  = match percent_tokens e with
    | Some ts => Some (List.map Octet (utf8_octets cp) ++ ts)
    | None => None
    end.
Proof.
  intros H. unfold escape_code_point.
  apply percent_tokens_escapes. now apply utf8_octets_bound.
Qed.

Lemma unreserved_not_percent (c : N) :
  unreserved c = true -> (c =? PERCENT) = false.
Proof.
  intros H. apply N.eqb_neq. intros ->. discriminate H.
Qed.

Lemma pair_units (c d : N) :
  is_lead c = true -> is_trail d = true ->
  let cp := 65536 + N.shiftl (c - 55296) 10 + (d - 56320) in
  cp <= 1114111 /\ is_surrogate cp = false /\ utf16_units cp = [c; d].
Proof.
  intros Hc Hd cp. unfold is_lead in Hc. unfold is_trail in Hd. to_arith.
  assert (E : cp = 65536 + (c - 55296) * 1024 + (d - 56320)).
  { subst cp. now rewrite N.shiftl_mul_pow2. }
  split; [lia|]. split.
  - unfold is_surrogate. apply andb_false_iff. right. apply N.leb_gt. lia.
  - unfold utf16_units.
    replace (cp <? 65536) with false by (symmetry; apply N.ltb_ge; lia).
    replace (cp - 65536) with (1024 * (c - 55296) + (d - 56320)) by lia.
    rewrite N.shiftr_div_pow2. change 1023 with (N.ones 10).
    rewrite N.land_ones. change (2 ^ 10) with 1024.
    rewrite <- (N.div_unique _ 1024 (c - 55296) (d - 56320)) by lia.
    rewrite <- (N.mod_unique _ 1024 (c - 55296) (d - 56320)) by lia.
    f_equal; [lia|f_equal; lia].
Qed.

Lemma encode_tokens_len (n : nat) :
  forall s e, (length s <= n)%nat -> code_units s = true ->
              encodeURIComponent s = Returned e ->
              exists ts, percent_tokens e = Some ts /\ utf8_units ts = Some s.
Proof.
  induction n as [|n IH]; intros s e Hn Hu He.
  - destruct s; [|simpl in Hn; lia]. injection He as <-. now exists [].
  - destruct s as [|c r]; [injection He as <-; now exists []|].
    simpl in Hn. cbn [code_units forallb] in Hu.
    apply andb_true_iff in Hu as [Hc Hu]. fold (code_units r) in Hu.
    apply N.ltb_lt in Hc. cbn [encodeURIComponent] in He.
    destruct (unreserved c) eqn:Eu.
    + destruct (encodeURIComponent r) as [e'|] eqn:Er; [|discriminate].
      injection He as <-.
      destruct (IH r e' ltac:(lia) Hu Er) as (ts & Ht & Hd).
      exists (Plain c :: ts). cbn [percent_tokens utf8_units].
      now rewrite (unreserved_not_percent _ Eu), Ht, Hd.
    + destruct (is_trail c) eqn:Et; [discriminate|].
      destruct (is_lead c) eqn:El.
      * destruct r as [|d r']; [discriminate|].
        destruct (is_trail d) eqn:Ed; [|discriminate].
        destruct (encodeURIComponent r') as [e'|] eqn:Er; [|discriminate].
        injection He as <-. cbn [code_units forallb] in Hu.
        apply andb_true_iff in Hu as [_ Hu]. simpl in Hn.
        destruct (IH r' e' ltac:(lia) Hu Er) as (ts & Ht & Hd).
        destruct (pair_units c d El Ed) as (Hmax & Hs & Hp).
        eexists. rewrite (percent_tokens_code_point _ _ Hmax), Ht.
        split; [reflexivity|].
        now rewrite (utf8_units_octets _ _ Hmax Hs), Hd, Hp.
      * destruct (encodeURIComponent r) as [e'|] eqn:Er; [|discriminate].
        injection He as <-.
        destruct (IH r e' ltac:(lia) Hu Er) as (ts & Ht & Hd).
        assert (Hs : is_surrogate c = false).
        { unfold is_surrogate, is_lead, is_trail in *.
          destruct (55296 <=? c) eqn:A, (c <=? 57343) eqn:B; try reflexivity.
          exfalso. to_arith.
          apply andb_false_iff in Et as [Et|Et];
            apply andb_false_iff in El as [El|El]; to_arith; lia. }
        eexists. rewrite (percent_tokens_code_point c _ ltac:(lia)), Ht.
        split; [reflexivity|].
        rewrite (utf8_units_octets c _ ltac:(lia) Hs), Hd.
        unfold utf16_units.
        now replace (c <? 65536) with true by (symmetry; apply N.ltb_lt; lia).
Qed.

(** What [encodeURIComponent] returns decodes to the string it was given. *)
Lemma decode_encode (s e : list N) :
  code_units s = true -> encodeURIComponent s = Returned e ->
  decodeURIComponent e = Returned s.
Proof.
  intros Hu He.
  destruct (encode_tokens_len (length s) s e (le_n _) Hu He) as (ts & Ht & Hd).
  unfold decodeURIComponent. now rewrite Ht, Hd.
Qed.

Lemma hex_digit_not_slash (x : N) : not_slash (hex_digit x) = true.
Proof.
  unfold not_slash, hex_digit, SLASH. apply negb_true_iff, N.eqb_neq.
  destruct (x <? 10); lia.
Qed.

Lemma escape_code_point_no_slash (cp : N) :
  forallb not_slash (escape_code_point cp) = true
  /\ escape_code_point cp <> [].
Proof.
  unfold escape_code_point. split.
  - induction (utf8_octets cp) as [|b bs IH]; [reflexivity|].
    cbn [List.map concat]. rewrite forallb_app, IH.
    cbn [escape forallb]. now rewrite !hex_digit_not_slash.
  - unfold utf8_octets.
    destruct (cp <? 128), (cp <? 2048), (cp <? 65536); discriminate.
Qed.

Lemma encode_no_slash_len (n : nat) :
  forall s e, (length s <= n)%nat -> encodeURIComponent s = Returned e ->
              forallb not_slash e = true /\ (s <> [] -> e <> []).
Proof.
  induction n as [|n IH]; intros s e Hn He.
  - destruct s; [|simpl in Hn; lia]. injection He as <-. now split.
  - destruct s as [|c r]; [injection He as <-; now split|].
    simpl in Hn. cbn [encodeURIComponent] in He.
    destruct (unreserved c) eqn:Eu.
    + destruct (encodeURIComponent r) as [e'|] eqn:Er; [|discriminate].
      injection He as <-. destruct (IH r e' ltac:(lia) Er) as [H _].
      split; [|discriminate]. cbn [forallb]. rewrite H, andb_true_r.
      unfold not_slash. apply negb_true_iff, N.eqb_neq. intros ->.
      discriminate Eu.
    + destruct (is_trail c); [discriminate|]. destruct (is_lead c).
      * destruct r as [|d r']; [discriminate|].
        destruct (is_trail d); [|discriminate].
        destruct (encodeURIComponent r') as [e'|] eqn:Er; [|discriminate].
        injection He as <-. simpl in Hn.
        destruct (IH r' e' ltac:(lia) Er) as [H _].
        destruct (escape_code_point_no_slash
                    (65536 + N.shiftl (c - 55296) 10 + (d - 56320))) as [A B].
        split; [now rewrite forallb_app, A, H|].
        intros _ E. apply app_eq_nil in E as [E _]. contradiction.
      * destruct (encodeURIComponent r) as [e'|] eqn:Er; [|discriminate].
        injection He as <-. destruct (IH r e' ltac:(lia) Er) as [H _].
        destruct (escape_code_point_no_slash c) as [A B].
        split; [now rewrite forallb_app, A, H|].
        intros _ E. apply app_eq_nil in E as [E _]. contradiction.
Qed.

(** An encoded parameter is one segment of a path. *)
Lemma encode_is_segment (s e : list N) :
  s <> [] -> encodeURIComponent s = Returned e -> is_segment e = true.
Proof.
  intros Hs He. destruct (encode_no_slash_len (length s) s e (le_n _) He)
    as [H Hne].
  unfold is_segment. rewrite H, andb_true_r.
  specialize (Hne Hs). now destruct e.
Qed.

(** ** Where the redirect of an alias leads *)

Lemma encoded_not_prefix (s e rest : list N) :
  code_units s = true -> s <> [] -> s <> js "catalog" ->
  encodeURIComponent s = Returned e ->
  api_path (SLASH :: e ++ SLASH :: rest) = SLASH :: e ++ SLASH :: rest.
Proof.
  intros Hu Hs Hne He. apply api_path_plain.
  destruct (startsWith _ _) eqn:E; [|reflexivity]. exfalso.
  apply startsWith_inv in E.
  set (x := drop _ _) in E. clearbody x.
  change (js "/catalog/" ++ x) with (SLASH :: js "catalog" ++ SLASH :: x) in E.
  apply (f_equal (@List.tl N)) in E. cbn [tl] in E.
  pose proof (encode_is_segment _ _ Hs He) as Hseg.
  apply is_segment_inv in Hseg as [_ Hseg].
  apply segment_split_inj in E as [E _]; [|exact Hseg|reflexivity].
  subst e. apply Hne. apply (decode_encode _ _ Hu) in He.
  now injection He as <-.
Qed.

(** X14: the redirect of a latest alias leads to the artifact it names.  For a
    pointer with the string version [v], the alias resolver redirects to the
    reference [/enc(kind)/enc(id)/enc(v)/file]; and a GET on that very path
    is served by the artifact resolver with the same kind and id, the
    version [v] and the file, so from the key joined from those.  The kind
    must not be [catalog], which a path loses as the legacy prefix, nor the
    version [latest]. *)
Theorem alias_redirect_leads_to_artifact (pf : Platform) (base : URL)
    (env : Env) (kind id file text : list N) (ms : list (list N * jsvalue))
    (v ek ei ev : list N) :
  CATALOG_INDEX env !! keyJoin [js "catalog"; kind; id; js "latest.json"]
  = Some text ->
  JSON_parse text = Returned (JObj ms) ->
  member (js "version") ms = Some (JStr v) ->
  code_units kind = true -> code_units id = true -> code_units v = true ->
  kind <> [] -> id <> [] -> v <> [] ->
  encodeURIComponent kind = Returned ek ->
  encodeURIComponent id = Returned ei ->
  encodeURIComponent v = Returned ev ->
  is_rest file = true ->
  kind <> js "catalog" -> v <> js "latest" ->
  let target := js "/" ++ ek ++ js "/" ++ ei ++ js "/" ++ ev ++ js "/" ++ file in
  serveLatestAlias pf base env kind id file
  = Returned (redirect_to (URL_href pf target (origin base)))
  /\ forall req : Request,
       method req = js "GET" -> pathname (url req) = target ->
       fetch pf req env = serveArtifact env kind id v file.
Proof.
  intros Hkv Hp Hm Uk Ui Uv Nk Ni Nv Ek Ei Ev Hf Hcat Hlat target. split.
  - now apply (serveLatestAlias_redirect pf base env kind id file text ms v).
  - intros req Hg Hpath.
    apply (fetch_artifact pf req env ek ei ev file kind id v); try assumption.
    + rewrite Hpath. subst target.
      now apply (encoded_not_prefix kind ek _ Uk Nk Hcat Ek).
    + now apply (encode_is_segment kind).
    + now apply (encode_is_segment id).
    + now apply (encode_is_segment v).
    + intros ->. apply Hlat. apply (decode_encode _ _ Uv) in Ev.
      now injection Ev as <-.
    + now apply decode_encode.
    + now apply decode_encode.
    + now apply decode_encode.
Qed.

Lemma alias_redirect_leads_to_artifact_witness :
  serveLatestAlias Demo.platform
    {| origin := Demo.site; pathname := js "/my%20tools/x/latest/a/b.json" |}
    (Demo.index_env (js "catalog/my tools/x/latest.json")
       (jsq "{'version':'2.1.0+build'}"))
    (js "my tools") (js "x") (js "a/b.json")
  = Returned
      (redirect_to
         (URL_href Demo.platform (js "/my%20tools/x/2.1.0%2Bbuild/a/b.json")
            Demo.site))
  /\ fetch Demo.platform
       (Demo.request "GET" "/my%20tools/x/2.1.0%2Bbuild/a/b.json")
       (Demo.index_env (js "catalog/my tools/x/latest.json")
          (jsq "{'version':'2.1.0+build'}"))
     = serveArtifact
         (Demo.index_env (js "catalog/my tools/x/latest.json")
            (jsq "{'version':'2.1.0+build'}"))
         (js "my tools") (js "x") (js "2.1.0+build") (js "a/b.json").
Proof.
  assert (N1 : js "my tools" <> []) by discriminate.
  assert (N2 : js "x" <> []) by discriminate.
  assert (N3 : js "2.1.0+build" <> []) by discriminate.
  assert (N4 : js "my tools" <> js "catalog") by discriminate.
  assert (N5 : js "2.1.0+build" <> js "latest") by discriminate.
  destruct (alias_redirect_leads_to_artifact Demo.platform
              {| origin := Demo.site;
                 pathname := js "/my%20tools/x/latest/a/b.json" |}
              (Demo.index_env (js "catalog/my tools/x/latest.json")
                 (jsq "{'version':'2.1.0+build'}"))
              (js "my tools") (js "x") (js "a/b.json")
              (jsq "{'version':'2.1.0+build'}")
              [(js "version", JStr (js "2.1.0+build"))] (js "2.1.0+build")
              (js "my%20tools") (js "x") (js "2.1.0%2Bbuild")
              eq_refl eq_refl eq_refl eq_refl eq_refl eq_refl N1 N2 N3
              eq_refl eq_refl eq_refl eq_refl N4 N5) as [H1 H2].
  split; [exact H1|]. apply H2; reflexivity.
Defined.

(** X15: a pointer whose version is the string [latest] makes the alias redirect
    to itself: the target of the redirect is again a latest-alias request
    for the same kind, id and file, and a GET on it from the same origin gets
    the same redirect. *)
Theorem alias_to_latest_loops (pf : Platform) (base : URL) (env : Env)
    (kind id file text : list N) (ms : list (list N * jsvalue))
    (ek ei : list N) :
  CATALOG_INDEX env !! keyJoin [js "catalog"; kind; id; js "latest.json"]
  = Some text ->
  JSON_parse text = Returned (JObj ms) ->
  member (js "version") ms = Some (JStr (js "latest")) ->
  code_units kind = true -> code_units id = true ->
  kind <> [] -> id <> [] ->
  encodeURIComponent kind = Returned ek ->
  encodeURIComponent id = Returned ei ->
  is_rest file = true ->
  kind <> js "catalog" ->
  let target := latest_path ek ei file in
  serveLatestAlias pf base env kind id file
  = Returned (redirect_to (URL_href pf target (origin base)))
  /\ forall req : Request,
       method req = js "GET" -> pathname (url req) = target ->
       origin (url req) = origin base ->
       fetch pf req env
       = Returned (redirect_to (URL_href pf target (origin base))).
Proof.
  intros Hkv Hp Hm Uk Ui Nk Ni Ek Ei Hf Hcat target.
  assert (Nl : js "latest" <> []) by discriminate.
  assert (H1 : forall b : URL,
    serveLatestAlias pf b env kind id file
    = Returned (redirect_to (URL_href pf target (origin b)))).
  { intros b.
    now apply (serveLatestAlias_redirect pf b env kind id file text ms
                 (js "latest") ek ei (js "latest")). }
  split; [apply H1|]. intros req Hg Hpath Ho.
  rewrite (fetch_latest pf req env ek ei file kind id); try assumption.
  - now rewrite H1, Ho.
  - rewrite Hpath. subst target. rewrite latest_path_eq.
    now apply (encoded_not_prefix kind ek _ Uk Nk Hcat Ek).
  - now apply (encode_is_segment kind).
  - now apply (encode_is_segment id).
  - now apply decode_encode.
  - now apply decode_encode.
Qed.

Lemma alias_to_latest_loops_witness :
  fetch Demo.platform (Demo.request "GET" "/tools/x/latest/pkg.tar.gz")
    (Demo.index_env (js "catalog/tools/x/latest.json")
       (jsq "{'version':'latest'}"))
  = Returned
      (redirect_to
         (URL_href Demo.platform (js "/tools/x/latest/pkg.tar.gz") Demo.site)).
Proof.
  assert (N1 : js "tools" <> []) by discriminate.
  assert (N2 : js "x" <> []) by discriminate.
  assert (N4 : js "tools" <> js "catalog") by discriminate.
  destruct (alias_to_latest_loops Demo.platform
              (url (Demo.request "GET" "/tools/x/latest/pkg.tar.gz"))
              (Demo.index_env (js "catalog/tools/x/latest.json")
                 (jsq "{'version':'latest'}"))
              (js "tools") (js "x") (js "pkg.tar.gz")
              (jsq "{'version':'latest'}")
              [(js "version", JStr (js "latest"))]
              (js "tools") (js "x")
              eq_refl eq_refl eq_refl eq_refl eq_refl N1 N2
              eq_refl eq_refl eq_refl N4) as [_ H2].
  apply H2; reflexivity.
Defined.

